(** * ARDOUR::IO -- a shallow embedding of libs/ardour/io.cc and ardour/io.h

    An IO is the collection of audio/MIDI ports on one side (input or
    output) of a route.  This development embeds the methods of the class
    as functions over an explicit IO record and an explicit session (the
    audio engine, the backend and the signals the IO emits), and proves
    the properties that the specification states about them.

    Conventions:
    - [uint32_t] values are [N], [int] and [samplecnt_t] values are [Z];
      wrap-around is written out where the source computes with them;
    - [std::string] is [string]; [std::string::npos] is [None];
    - a method that mutates the IO or talks to the engine takes the IO and
      the session and returns both; a call that does not return normally
      (failed assertion, C++ exception leaving the method) is [None];
    - translated messages and labels ([_("...")]) are taken in the
      untranslated locale, where [_] is the identity. *)

From Stdlib Require Import String Ascii List ZArith NArith Lia Bool.
From Stdlib Require Import DecimalString DecimalN DecimalZ.
Import ListNotations.

Local Open Scope string_scope.
Local Open Scope list_scope.

Set Implicit Arguments.
Set Warnings "-register-all".

(* ------------------------------------------------------------------ *)
(** ** Machine integers and printf conversions *)

Definition uint32_max : N := 4294967295.

(** [uint32_t] arithmetic: results are reduced modulo 2^32. *)
Definition u32_incr (n : N) : N := ((n + 1) mod 4294967296)%N.
Definition u32_decr (n : N) : N := ((n + 4294967295) mod 4294967296)%N.

(** Conversion of a mathematical integer to [int] (two's complement). *)
Definition to_int (z : Z) : Z := ((z + 2147483648) mod 4294967296 - 2147483648)%Z.

(** [%u] and [%d]. *)
Definition fmt_u (n : N) : string := NilEmpty.string_of_uint (N.to_uint n).
Definition fmt_d (z : Z) : string := NilZero.string_of_int (Z.to_int z).

(* ------------------------------------------------------------------ *)
(** ** std::string operations used by io.cc *)

Module Str.

(** [s.substr (pos, len)]: at most [len] characters from [pos]. *)
Definition substr (pos len : nat) (s : string) : string := substring pos len s.

(** [s.substr (pos)]: everything from [pos]. *)
Definition substr_from (pos : nat) (s : string) : string :=
  substring pos (String.length s - pos) s.

(** [s.find_first_of (c, pos)]: position of the first [c] at or after
    [pos]. *)
Fixpoint find_char_from (c : ascii) (pos : nat) (s : string) : option nat :=
  match s with
  | EmptyString => None
  | String a s' =>
      match pos with
      | O => if Ascii.eqb a c then Some 0
             else option_map S (find_char_from c 0 s')
      | S pos' => option_map S (find_char_from c pos' s')
      end
  end.

(** [s.find (needle)]. *)
Definition find (needle s : string) : option nat := index 0 needle s.

(** [s.replace (pos, len, r)]. *)
Definition replace (pos len : nat) (r s : string) : string :=
  substring 0 pos s ++ r ++ substr_from (pos + len) s.

(** [std::count (s.begin (), s.end (), c)]. *)
Fixpoint count_char (c : ascii) (s : string) : N :=
  match s with
  | EmptyString => 0%N
  | String a s' => ((if Ascii.eqb a c then 1 else 0) + count_char c s')%N
  end.

(** Whether [c] is one of the characters of [set]. *)
Fixpoint has_char (c : ascii) (set : string) : bool :=
  match set with
  | EmptyString => false
  | String a set' => Ascii.eqb a c || has_char c set'
  end.

(** The scan behind [find_last_not_of]: [i] is the position of the
    first character of [s], [found] the last position seen so far. *)
Fixpoint last_not_of (set : string) (pos : option nat) (i : nat) (s : string)
    (found : option nat) : option nat :=
  match s with
  | EmptyString => found
  | String a s' =>
      let inside := match pos with None => true | Some p => (i <=? p)%nat end in
      last_not_of set pos (S i) s'
                  (if inside && negb (has_char a set) then Some i else found)
  end.

(** [s.find_last_not_of (set, pos)]: position of the last character
    at or before [pos] that is none of [set]; [pos = None] is [npos],
    the whole string.  [None]: there is no such character. *)
Definition find_last_not_of (set : string) (pos : option nat) (s : string) : option nat :=
  last_not_of set pos 0 s None.

(** Modelled from the spec: pbd/replace_all.h is not part of the
    sources at hand.  [PBD::replace_all (n, ":", "-")] turns every colon
    of [n] into a dash; for strings of one character that is replacing
    every occurrence of the character [a] by [b]. *)
Fixpoint replace_char (a b : ascii) (s : string) : string :=
  match s with
  | EmptyString => EmptyString
  | String c s' => String (if Ascii.eqb c a then b else c) (replace_char a b s')
  end.

(** [std::snprintf (buf, size, ...)] keeps at most [size - 1]
    characters of the formatted text. *)
Definition snprintf (size : N) (text : string) : string :=
  substring 0 (N.to_nat size - 1) text.

(** [%.*s] with precision [prec]: a negative precision is taken as if
    no precision were given. *)
Definition fmt_prec_s (prec : Z) (s : string) : string :=
  if (prec <? 0)%Z then s else substring 0 (Z.to_nat prec) s.

End Str.

(** [legalize_io_name]: colons are not legal in port names. *)
Definition legalize_io_name (n : string) : string :=
  Str.replace_char ":" "-" n.

(* ------------------------------------------------------------------ *)
(** ** DataType, ChanCount, IOChange *)

Module DataType.
(** Modelled from the spec: ardour/data_type.h is not part of the
    sources at hand.  A port carries audio or MIDI; [NIL] is the value
    for no type, which io.cc asserts against. *)
Inductive t := AUDIO | MIDI | NIL.

Definition eqb (a b : t) : bool :=
  match a, b with
  | AUDIO, AUDIO | MIDI, MIDI | NIL, NIL => true
  | _, _ => false
  end.

(** [DataType::begin () .. DataType::end ()]. *)
Definition all : list t := [AUDIO; MIDI].

(** [DataType::to_string]. *)
Definition to_string (x : t) : string :=
  match x with AUDIO => "audio" | MIDI => "midi" | NIL => "unknown" end.

(** [DataType (const std::string&)]. *)
Definition of_string (s : string) : t :=
  if String.eqb s "audio" then AUDIO
  else if String.eqb s "midi" then MIDI else NIL.
End DataType.

Module ChanCount.
(** Modelled from the spec: ardour/chan_count.h is not part of the
    sources at hand.  A ChanCount is a count of ports per data type,
    each a [uint32_t]. *)
Record t := mk { n_audio : N; n_midi : N }.

Definition ZERO : t := mk 0 0.

Definition get (c : t) (ty : DataType.t) : N :=
  match ty with
  | DataType.AUDIO => n_audio c
  | DataType.MIDI => n_midi c
  | DataType.NIL => 0%N
  end.

Definition set (c : t) (ty : DataType.t) (v : N) : t :=
  match ty with
  | DataType.AUDIO => mk v (n_midi c)
  | DataType.MIDI => mk (n_audio c) v
  | DataType.NIL => c
  end.

Definition set_audio (c : t) (v : N) : t := set c DataType.AUDIO v.
Definition set_midi (c : t) (v : N) : t := set c DataType.MIDI v.

Definition n_total (c : t) : N := (n_audio c + n_midi c)%N.

(** [operator==]. *)
Definition eqb (a b : t) : bool :=
  (n_audio a =? n_audio b)%N && (n_midi a =? n_midi b)%N.

Definition max (a b : t) : t :=
  mk (N.max (n_audio a) (n_audio b)) (N.max (n_midi a) (n_midi b)).

End ChanCount.

Module IOChange.
(** Modelled from the spec: ardour/types.h is not part of the sources
    at hand.  A change notification carries what changed (configuration
    or connections, a bit mask) and the port counts before and after. *)
Definition NoChange : N := 0.
Definition ConfigurationChanged : N := 1.
Definition ConnectionsChanged : N := 2.

Record t := mk { type : N; before : ChanCount.t; after : ChanCount.t }.

(** [IOChange ()] and [IOChange (Type)]. *)
Definition empty : t := mk NoChange ChanCount.ZERO ChanCount.ZERO.
Definition of_type (ty : N) : t := mk ty ChanCount.ZERO ChanCount.ZERO.
End IOChange.

Inductive Direction := Input | Output.

Definition Direction_eqb (a b : Direction) : bool :=
  match a, b with
  | Input, Input | Output, Output => true
  | _, _ => false
  end.

(* ------------------------------------------------------------------ *)
(** ** XMLNode: the persisted-state carrier *)

Module XML.
(** Modelled from the spec: pbd/xml++.h is not part of the sources at
    hand.  A node has a name, string-valued properties in the order
    they were set, and child nodes in the order they were added. *)
Inductive node := Node (name : string) (props : list (string * string))
                       (children : list node).

Definition name (n : node) : string := let 'Node nm _ _ := n in nm.
Definition props (n : node) : list (string * string) := let 'Node _ p _ := n in p.
Definition children (n : node) : list node := let 'Node _ _ c := n in c.

Fixpoint lookup (k : string) (l : list (string * string)) : option string :=
  match l with
  | [] => None
  | (k', v) :: l' => if String.eqb k' k then Some v else lookup k l'
  end.

(** [node.property (k)]: the value of the first property named [k]. *)
Definition property (n : node) (k : string) : option string := lookup k (props n).

Fixpoint assign (k v : string) (l : list (string * string)) : list (string * string) :=
  match l with
  | [] => [(k, v)]
  | (k', v') :: l' => if String.eqb k' k then (k', v) :: l' else (k', v') :: assign k v l'
  end.

(** [node.set_property (k, v)]: overwrite the property or append it. *)
Definition set_property (n : node) (k v : string) : node :=
  Node (name n) (assign k v (props n)) (children n).

Definition remove_property (n : node) (k : string) : node :=
  Node (name n) (filter (fun kv => negb (String.eqb (fst kv) k)) (props n)) (children n).

Definition add_child_nocopy (n c : node) : node :=
  Node (name n) (props n) (children n ++ [c]).

Definition set_children (n : node) (cs : list node) : node :=
  Node (name n) (props n) cs.

End XML.

(* ------------------------------------------------------------------ *)
(** ** Ports and the PortSet *)

Module Port.
(** Modelled from the spec: ardour/port.h is not part of the sources at
    hand.  A port has a name, one data type, a direction, a list of
    connections to other ports by name, and latency ranges.  The record
    keeps what io.cc reads: [private_latency_max pb] is
    [private_latency_range (pb).max] and [connected_latency_max pb] is
    the upper bound that [get_connected_latency_range (lr, pb)] stores
    in [lr].  A [std::shared_ptr<Port>] is the address [ptr] of the
    object; the objects themselves live in the session (see
    [Session.port]), so that every holder of a pointer sees the same
    port. *)
Record t := mk {
  name : string;
  type : DataType.t;
  direction : Direction;
  connections : list string;
  pretty_name : string;
  private_latency_max : bool -> N;
  connected_latency_max : bool -> N
}.

Definition ptr := nat.

Definition connected (p : t) : bool :=
  match connections p with [] => false | _ => true end.

Definition set_name (p : t) (n : string) : t :=
  mk n (type p) (direction p) (connections p) (pretty_name p)
     (private_latency_max p) (connected_latency_max p).

Definition set_pretty_name (p : t) (n : string) : t :=
  mk (name p) (type p) (direction p) (connections p) n
     (private_latency_max p) (connected_latency_max p).

Definition set_connections (p : t) (cs : list string) : t :=
  mk (name p) (type p) (direction p) cs (pretty_name p)
     (private_latency_max p) (connected_latency_max p).

(** A port as the engine hands it out: unconnected, no latency. *)
Definition fresh (n : string) (ty : DataType.t) (d : Direction) : t :=
  mk n ty d [] "" (fun _ => 0%N) (fun _ => 0%N).

(** Modelled from the spec: the port's own serialized state is a node
    named "Port" carrying [name] and [type] ("audio" or "midi"), with
    one child per connection. *)
Definition get_state (p : t) : XML.node :=
  XML.Node "Port"
    [("name", name p); ("type", DataType.to_string (type p))]
    (map (fun c => XML.Node "Connection" [("other", c)] []) (connections p)).

Definition connections_of_state (n : XML.node) : list string :=
  flat_map (fun c => if String.eqb (XML.name c) "Connection"
                     then match XML.property c "other" with
                          | Some o => [o]
                          | None => []
                          end
                     else []) (XML.children n).

(** Modelled from the spec: applying a port's serialized sub-state
    restores the names of the ports it was connected to; it does not
    connect them. *)
Definition set_state (p : t) (n : XML.node) : t :=
  if String.eqb (XML.name n) "Port"
  then set_connections p (connections_of_state n)
  else p.

(** Modelled from the spec: a port keeps one private latency range per
    side; [set_private_latency_range (lat, playback)] stores [lat] for
    that side.  Of the range only the upper bound is kept here. *)
Definition set_private_latency_range (p : t) (lat_max : N) (playback : bool) : t :=
  mk (name p) (type p) (direction p) (connections p) (pretty_name p)
     (fun pb => if Bool.eqb pb playback then lat_max else private_latency_max p pb)
     (connected_latency_max p).
End Port.

Module PortSet.
(** Modelled from the spec: ardour/port_set.h is not part of the
    sources at hand.  A PortSet is an ordered collection of port
    pointers, partitioned by type, whose per-type counts are a
    ChanCount; the order within a type is stable, and the order over
    all ports is type first, then index. *)
Record t := mk { audio : list Port.ptr; midi : list Port.ptr }.

Definition empty_set : t := mk [] [].

Definition of_type (ps : t) (ty : DataType.t) : list Port.ptr :=
  match ty with
  | DataType.AUDIO => audio ps
  | DataType.MIDI => midi ps
  | DataType.NIL => []
  end.

(** The ports in iteration order ([begin () .. end ()]). *)
Definition all (ps : t) : list Port.ptr := audio ps ++ midi ps.

Definition count (ps : t) : ChanCount.t :=
  ChanCount.mk (N.of_nat (length (audio ps))) (N.of_nat (length (midi ps))).

Definition num_ports (ps : t) : N := ChanCount.n_total (count ps).

Definition empty (ps : t) : bool :=
  match all ps with [] => true | _ => false end.

Definition contains (ps : t) (p : Port.ptr) : bool := existsb (Nat.eqb p) (all ps).

(** [add (port)]: the port goes to the end of the ports of its type. *)
Definition add (ps : t) (ty : DataType.t) (p : Port.ptr) : t :=
  match ty with
  | DataType.AUDIO => mk (audio ps ++ [p]) (midi ps)
  | DataType.MIDI => mk (audio ps) (midi ps ++ [p])
  | DataType.NIL => ps
  end.

Fixpoint remove_first (p : Port.ptr) (l : list Port.ptr) : option (list Port.ptr) :=
  match l with
  | [] => None
  | q :: l' => if Nat.eqb p q then Some l'
               else option_map (cons q) (remove_first p l')
  end.

(** [remove (port)]: drop the port; the result tells whether it was
    there. *)
Definition remove (ps : t) (p : Port.ptr) : bool * t :=
  match remove_first p (audio ps) with
  | Some a => (true, mk a (midi ps))
  | None =>
      match remove_first p (midi ps) with
      | Some m => (true, mk (audio ps) m)
      | None => (false, ps)
      end
  end.

(** [port (type, n)] and [port (n)]. *)
Definition port_of_type (ps : t) (ty : DataType.t) (n : nat) : option Port.ptr :=
  nth_error (of_type ps ty) n.

Definition port (ps : t) (n : nat) : option Port.ptr := nth_error (all ps) n.
End PortSet.

Module RCU.
(** Modelled from the spec: pbd/rcu.h is not part of the sources at
    hand.  The manager holds the current snapshot; committing a
    writer's copy makes it current and keeps the superseded snapshot
    until [flush]. *)
Record t := mk { current : PortSet.t; dead_wood : list PortSet.t }.

Definition init : t := mk PortSet.empty_set [].
Definition reader (r : t) : PortSet.t := current r.
Definition update (r : t) (copy : PortSet.t) : t :=
  mk copy (dead_wood r ++ [current r]).
Definition flush (r : t) : t := mk (current r) [].
End RCU.

(* ------------------------------------------------------------------ *)
(** ** Bundle *)

Module Bundle.
(** Modelled from the spec: ardour/bundle.h is not part of the sources
    at hand.  A bundle is a named, ordered list of channels, each with
    a display name and a type, bound to physical port names. *)
Record Channel := mkChannel {
  ch_name : string; ch_type : DataType.t; ch_ports : list string
}.

Record t := mk {
  name : string;
  ports_are_inputs : bool;
  channel : list Channel;
  signals_suspended : bool;
  changes_emitted : nat
}.

Definition create (inputs : bool) : t := mk "" inputs [] false 0.

Definition nchannels (b : t) : N := N.of_nat (length (channel b)).

Definition suspend_signals (b : t) : t :=
  mk (name b) (ports_are_inputs b) (channel b) true (changes_emitted b).

(** One coalesced change notification when signals are resumed. *)
Definition resume_signals (b : t) : t :=
  mk (name b) (ports_are_inputs b) (channel b) false (S (changes_emitted b)).

Definition remove_channels (b : t) : t :=
  mk (name b) (ports_are_inputs b) [] (signals_suspended b) (changes_emitted b).

Definition set_name (b : t) (n : string) : t :=
  mk n (ports_are_inputs b) (channel b) (signals_suspended b) (changes_emitted b).

Definition add_channel (b : t) (n : string) (ty : DataType.t) : t :=
  mk (name b) (ports_are_inputs b) (channel b ++ [mkChannel n ty []])
     (signals_suspended b) (changes_emitted b).

Fixpoint set_nth (l : list Channel) (i : nat) (f : Channel -> Channel) :=
  match l, i with
  | [], _ => []
  | c :: l', O => f c :: l'
  | c :: l', S i' => c :: set_nth l' i' f
  end.

(** [set_port (ch, portname)]: channel [ch] maps to exactly that port. *)
Definition set_port (b : t) (ch : nat) (portname : string) : t :=
  mk (name b) (ports_are_inputs b)
     (set_nth (channel b) ch
              (fun c => mkChannel (ch_name c) (ch_type c) [portname]))
     (signals_suspended b) (changes_emitted b).
End Bundle.

(* ------------------------------------------------------------------ *)
(** ** The session: engine, backend and everything the IO talks to *)

(** What leaves the IO: calls into the engine and backend, emitted
    signals and diagnostics, in the order they happen. *)
Inductive Event :=
| EvRegister (d : Direction) (ty : DataType.t) (portname : string)
| EvUnregister (p : Port.ptr)
| EvConnect (p : Port.ptr) (other : string)
| EvDisconnect (p : Port.ptr) (other : string)
| EvDisconnectAll (p : Port.ptr)
| EvChanged (c : IOChange.t) (src : nat)
| EvPortCountChanged (c : ChanCount.t)
| EvError (msg : string)
| EvInfo (msg : string).

(** The backend's answer to a registration: a port, a null pointer, or
    [AudioEngine::PortRegistrationFailure]. *)
Inductive Registration := Granted | Refused | Failure.

Module Session.
(** Modelled from the spec: the session, the audio engine and its
    backend are collaborators outside the sources at hand.  The backend
    decides about registrations and connections ([backend_register],
    [backend_connect], [backend_disconnect]) and advertises its name
    limits; [bundle_by_name] is [Session::bundle_by_name], the
    session's registry of bundles: the bundle of that name, of which
    the IO reads the channel count only, or a null pointer;
    [string_to_int32] is [PBD::string_to<int32_t>], the conversion
    that IO::find_possible_bundle applies to the tail of a bundle
    name: its body is outside the sources, so it is a parameter (its
    result is read as an [int]); [port] holds the Port objects by
    address. *)
Record t := mk {
  port_name_size : N;
  my_name : string;
  backend_register : DataType.t -> string -> Registration;
  backend_connect : string -> string -> bool;
  backend_disconnect : string -> string -> bool;
  bundle_by_name : string -> option ChanCount.t;
  string_to_int32 : string -> Z;
  deletion_in_progress : bool;
  inital_connect_or_deletion_in_progress : bool;
  port : Port.ptr -> Port.t;
  next_port : Port.ptr;
  dirty : bool;
  trace : list Event
}.

Definition with_ports (s : t) (obj : Port.ptr -> Port.t) (next : Port.ptr) : t :=
  mk (port_name_size s) (my_name s) (backend_register s) (backend_connect s)
     (backend_disconnect s) (bundle_by_name s) (string_to_int32 s)
     (deletion_in_progress s)
     (inital_connect_or_deletion_in_progress s) obj next (dirty s) (trace s).

Definition log (e : Event) (s : t) : t :=
  mk (port_name_size s) (my_name s) (backend_register s) (backend_connect s)
     (backend_disconnect s) (bundle_by_name s) (string_to_int32 s)
     (deletion_in_progress s)
     (inital_connect_or_deletion_in_progress s) (port s) (next_port s) (dirty s)
     (trace s ++ [e]).

Definition set_dirty (s : t) : t :=
  mk (port_name_size s) (my_name s) (backend_register s) (backend_connect s)
     (backend_disconnect s) (bundle_by_name s) (string_to_int32 s)
     (deletion_in_progress s)
     (inital_connect_or_deletion_in_progress s) (port s) (next_port s) true
     (trace s).

(** Change the Port object at address [p]. *)
Definition update_port (p : Port.ptr) (f : Port.t -> Port.t) (s : t) : t :=
  with_ports s (fun q => if Nat.eqb q p then f (port s q) else port s q)
             (next_port s).

Definition port_name (s : t) (p : Port.ptr) : string := Port.name (port s p).

(** [engine ().register_input_port] / [register_output_port]: [None]
    when the engine throws, [Some (None, _)] for a null pointer. *)
Definition register_port (d : Direction) (ty : DataType.t) (portname : string)
    (s : t) : option (option Port.ptr * t) :=
  let s1 := log (EvRegister d ty portname) s in
  match backend_register s ty portname with
  | Failure => None
  | Refused => Some (None, s1)
  | Granted =>
      let p := next_port s in
      Some (Some p,
            with_ports s1
              (fun q => if Nat.eqb q p then Port.fresh portname ty d else port s q)
              (S p))
  end.

Definition unregister_port (p : Port.ptr) (s : t) : t := log (EvUnregister p) s.

(** [make_port_name_non_relative]. *)
Definition make_port_name_non_relative (s : t) (portname : string) : string :=
  match Str.find_char_from ":" 0 portname with
  | Some _ => portname
  | None => my_name s ++ ":" ++ portname
  end.

Definition insert_connection (c : string) (cs : list string) : list string :=
  if existsb (String.eqb c) cs then cs else cs ++ [c].

(** [Port::connect (other)]: 0 when the backend made the link. *)
Definition port_connect (p : Port.ptr) (other : string) (s : t) : Z * t :=
  let s1 := log (EvConnect p other) s in
  if backend_connect s (port_name s p) other
  then (0%Z, update_port p
               (fun o => Port.set_connections o
                           (insert_connection other (Port.connections o))) s1)
  else ((-1)%Z, s1).

(** [Port::disconnect (other)]. *)
Definition port_disconnect (p : Port.ptr) (other : string) (s : t) : Z * t :=
  let s1 := log (EvDisconnect p other) s in
  if backend_disconnect s (port_name s p) other
  then (0%Z, update_port p
               (fun o => Port.set_connections o
                           (filter (fun c => negb (String.eqb c other))
                                   (Port.connections o))) s1)
  else ((-1)%Z, s1).

(** [Port::disconnect_all ()]. *)
Definition port_disconnect_all (p : Port.ptr) (s : t) : t :=
  update_port p (fun o => Port.set_connections o []) (log (EvDisconnectAll p) s).

(** [Port::reconnect ()]: ask the backend again for every remembered
    connection. *)
Definition port_reconnect (p : Port.ptr) (s : t) : t :=
  fold_left (fun acc c => log (EvConnect p c) acc)
            (Port.connections (port s p)) s.

Definition names (s : t) (ps : PortSet.t) : list string :=
  map (port_name s) (PortSet.all ps).
End Session.

(* ------------------------------------------------------------------ *)
(** ** class IO *)

(** [IO::IntBoolCombiner]: the combined answer of the observers of
    [PortCountChanging]. *)
Definition IntBoolCombiner (results : list Z) : Z :=
  fold_left (fun r x => if (x >? 0)%Z then 1%Z else r) results 0%Z.

Module IO.

Definition state_node_name : string := "IO".

(** The data members of the class; [this] is the address of the
    object, [id] is the identity kept by [SessionObject], [_buffers]
    and [_port_connections] record the ports that the buffer set is
    attached to and whose connection signal the IO listens to,
    [PortCountChanging] holds the slots connected to the signal of that
    name. *)
Record t := mk {
  this : nat;
  _name : string;
  id : string;
  _direction : Direction;
  _default_type : DataType.t;
  _active : bool;
  _sendish : bool;
  _ports : RCU.t;
  _port_connections : list Port.ptr;
  _bundle : option Bundle.t;
  _audio_channel_names : list string;
  _pretty_name_prefix : string;
  _buffers : list Port.ptr;
  PortCountChanging : list (ChanCount.t -> Z)
}.

Definition with_ports (io : t) (r : RCU.t) : t :=
  mk (this io) (_name io) (id io) (_direction io) (_default_type io) (_active io)
     (_sendish io) r (_port_connections io) (_bundle io)
     (_audio_channel_names io) (_pretty_name_prefix io) (_buffers io)
     (PortCountChanging io).

Definition with_bundle (io : t) (subs : list Port.ptr) (b : Bundle.t) : t :=
  mk (this io) (_name io) (id io) (_direction io) (_default_type io) (_active io)
     (_sendish io) (_ports io) subs (Some b)
     (_audio_channel_names io) (_pretty_name_prefix io) (_buffers io)
     (PortCountChanging io).

Definition with_buffers (io : t) (l : list Port.ptr) : t :=
  mk (this io) (_name io) (id io) (_direction io) (_default_type io) (_active io)
     (_sendish io) (_ports io) (_port_connections io) (_bundle io)
     (_audio_channel_names io) (_pretty_name_prefix io) l
     (PortCountChanging io).

Definition with_name (io : t) (n : string) : t :=
  mk (this io) n (id io) (_direction io) (_default_type io) (_active io)
     (_sendish io) (_ports io) (_port_connections io) (_bundle io)
     (_audio_channel_names io) (_pretty_name_prefix io) (_buffers io)
     (PortCountChanging io).

Definition with_pretty_name_prefix (io : t) (n : string) : t :=
  mk (this io) (_name io) (id io) (_direction io) (_default_type io) (_active io)
     (_sendish io) (_ports io) (_port_connections io) (_bundle io)
     (_audio_channel_names io) n (_buffers io)
     (PortCountChanging io).

Definition with_header (io : t) (i : string) (d : Direction) (ty : DataType.t) : t :=
  mk (this io) (_name io) i d ty (_active io)
     (_sendish io) (_ports io) (_port_connections io) (_bundle io)
     (_audio_channel_names io) (_pretty_name_prefix io) (_buffers io)
     (PortCountChanging io).

(** [ports ()], [n_ports ()], [nth ()], [port_by_name ()]. *)
Definition ports (io : t) : PortSet.t := RCU.reader (_ports io).

Definition n_ports (io : t) : ChanCount.t := PortSet.count (ports io).

Definition nth (io : t) (n : N) : option Port.ptr :=
  if (n <? PortSet.num_ports (ports io))%N
  then PortSet.port (ports io) (N.to_nat n)
  else None.

Definition port_by_name (io : t) (s : Session.t) (str : string) : option Port.ptr :=
  find (fun p => String.eqb (Session.port_name s p) str) (PortSet.all (ports io)).

(** A writer's copy is committed when the [RCUWriter] goes out of
    scope. *)
Definition commit (io : t) (copy : PortSet.t) : t :=
  with_ports io (RCU.update (_ports io) copy).

(** [_buffers.attach_buffers] on the current ports. *)
Definition attach_buffers (io : t) : t :=
  with_buffers io (PortSet.all (ports io)).

(** Emission of [PortCountChanging (after)], read with [value_or (0)]. *)
Definition PortCountChanging_emit (io : t) (after : ChanCount.t) : Z :=
  IntBoolCombiner (map (fun slot => slot after) (PortCountChanging io)).

(** *** Bundle *)

Definition bundle_channel_name (io : t) (c n : N) (ty : DataType.t) : string :=
  let size := N.of_nat (length (_audio_channel_names io)) in
  match ty with
  | DataType.AUDIO =>
      if (n =? size)%N && (c <? size)%N
      then List.nth (N.to_nat c) (_audio_channel_names io) ""
      else if (n =? 1)%N then "mono"
      else if (n =? 2)%N then (if (c =? 0)%N then "L" else "R")
      else fmt_d (to_int (Z.of_N (u32_incr c)))
  | _ => fmt_d (to_int (Z.of_N (u32_incr c)))
  end.

(** One turn of the inner loop of [setup_bundle]: channel [c] of the
    bundle is port [j] of type [ty]. *)
Definition setup_channel (io : t) (s : Session.t) (ty : DataType.t) (n : N)
    (acc : nat * Bundle.t) (j : nat) : nat * Bundle.t :=
  let '(c, b) := acc in
  let b1 := Bundle.add_channel b (bundle_channel_name io (N.of_nat j) n ty) ty in
  match PortSet.port_of_type (ports io) ty j with
  | Some p =>
      (S c, Bundle.set_port b1 c
              (Session.make_port_name_non_relative s (Session.port_name s p)))
  | None => (S c, b1)
  end.

Definition setup_channels (io : t) (s : Session.t) (acc : nat * Bundle.t)
    (ty : DataType.t) : nat * Bundle.t :=
  let n := ChanCount.get (PortSet.count (ports io)) ty in
  fold_left (setup_channel io s ty n) (seq 0 (N.to_nat n)) acc.

Definition setup_bundle (io : t) (s : Session.t) : t :=
  let b0 := match _bundle io with
            | Some b => b
            | None => Bundle.create (Direction_eqb (_direction io) Input)
            end in
  let b1 := Bundle.suspend_signals b0 in
  let b2 := Bundle.remove_channels b1 in
  let b3 := Bundle.set_name b2
              (_name io ++ " " ++
               (if Direction_eqb (_direction io) Input then "in" else "out")) in
  let '(_, b4) := fold_left (setup_channels io s) DataType.all (0, b3) in
  (* reestablish_port_subscriptions () *)
  with_bundle io (PortSet.all (ports io)) (Bundle.resume_signals b4).

(** *** Names *)

Definition apply_pretty_name (io : t) (s : Session.t) : Session.t :=
  if String.eqb (_pretty_name_prefix io) "" then s
  else
    snd (fold_left
           (fun (acc : N * Session.t) p =>
              let '(pn, s') := acc in
              (u32_incr pn,
               Session.update_port p
                 (fun o => Port.set_pretty_name o
                    (_pretty_name_prefix io ++ "/" ++
                     (if Direction_eqb (_direction io) Output then "Out" else "In")
                     ++ " " ++ fmt_u pn)) s'))
           (PortSet.all (ports io)) (1%N, s)).

Definition set_pretty_name (str : string) (io : t) (s : Session.t) : t * Session.t :=
  if String.eqb (_pretty_name_prefix io) str then (io, s)
  else
    let io1 := with_pretty_name_prefix io str in
    (io1, apply_pretty_name io1 s).

(** One turn of the loop of [set_name]: [None] is the failed
    assertion that the port name contains the IO name. *)
Definition rename_port (old new : string) (acc : option Session.t) (p : Port.ptr)
    : option Session.t :=
  match acc with
  | None => None
  | Some s =>
      let current_name := Session.port_name s p in
      match Str.find old current_name with
      | None => None
      | Some pos =>
          Some (Session.update_port p
                  (fun o => Port.set_name o
                     (Str.replace pos (String.length old) new current_name)) s)
      end
  end.

Definition set_name (requested_name : string) (io : t) (s : Session.t)
    : option (bool * t * Session.t) :=
  if String.eqb (_name io) requested_name then Some (true, io, s)
  else
    let name := legalize_io_name requested_name in
    match fold_left (rename_port (_name io) name) (PortSet.all (ports io)) (Some s) with
    | None => None
    | Some s1 =>
        let io1 := with_name io name in
        Some (true, setup_bundle io1 s1, s1)
    end.

(** *** Port names *)

Definition port_number_limit : N := 9999.

(** The loop of [find_port_hole], entered with [n] and with [fuel]
    numbers left below the limit. *)
Fixpoint find_port_hole_from (fuel : nat) (n : N) (names : list string)
    (name_size : N) (base : string) : N :=
  match fuel with
  | O => n
  | S fuel' =>
      let buf := Str.snprintf name_size (base ++ " " ++ fmt_u n) in
      if existsb (String.eqb buf) names
      then find_port_hole_from fuel' (n + 1)%N names name_size base
      else n
  end.

Definition find_port_hole (s : Session.t) (ports : PortSet.t) (base : string) : Z :=
  if PortSet.empty ports then 1%Z
  else
    let name_size := u32_incr (Session.port_name_size s) in
    Z.of_N (find_port_hole_from (N.to_nat (port_number_limit - 1)) 1
              (Session.names s ports) name_size base).

Definition port_suffix (io : t) (ty : DataType.t) : option string :=
  match ty with
  | DataType.AUDIO => Some "audio"
  | DataType.MIDI => Some "midi"
  | DataType.NIL => None
  end.

Definition role_suffix (io : t) : string :=
  if _sendish io
  then (if Direction_eqb (_direction io) Input then "_return" else "_send")
  else (if Direction_eqb (_direction io) Input then "_in" else "_out").

(** [None]: [unknown_type] is thrown. *)
Definition build_legal_port_name (io : t) (s : Session.t) (ports : PortSet.t)
    (ty : DataType.t) : option string :=
  match port_suffix io ty with
  | None => None
  | Some sfx =>
      let suffix := (sfx ++ role_suffix io)%string in
      let name_size := Session.port_name_size s in
      let limit := to_int (Z.of_N name_size
                           - Z.of_nat (String.length (Session.my_name s))
                           - (Z.of_nat (String.length suffix) + 5)) in
      let name_size := u32_incr name_size in
      let nom := legalize_io_name (_name io) in
      let buf1 := Str.snprintf name_size (Str.fmt_prec_s limit nom ++ "/" ++ suffix) in
      let port_number := find_port_hole s ports buf1 in
      let buf2 := Str.snprintf name_size (buf1 ++ " " ++ fmt_d port_number) in
      Some buf2
  end.

(** *** connect / disconnect of one port *)

Definition is_null (p : option Port.ptr) : bool :=
  match p with None => true | Some _ => false end.

Definition disconnect (our_port : option Port.ptr) (other_port : string) (src : nat)
    (io : t) (s : Session.t) : Z * t * Session.t :=
  if (String.length other_port =? 0)%nat || is_null our_port then (0%Z, io, s)
  else
    match our_port with
    | None => (0%Z, io, s)
    | Some p =>
        if negb (PortSet.contains (ports io) p) then ((-1)%Z, io, s)
        else
          let '(r, s1) := Session.port_disconnect p other_port s in
          if negb (r =? 0)%Z
          then ((-1)%Z, io,
                Session.log (EvError ("IO: cannot disconnect port "
                                      ++ Session.port_name s1 p ++ " from "
                                      ++ other_port)) s1)
          else
            (0%Z, io,
             Session.set_dirty
               (Session.log
                  (EvChanged (IOChange.of_type IOChange.ConnectionsChanged) src) s1))
    end.

Definition connect (our_port : option Port.ptr) (other_port : string) (src : nat)
    (io : t) (s : Session.t) : Z * t * Session.t :=
  if (String.length other_port =? 0)%nat || is_null our_port then (0%Z, io, s)
  else
    match our_port with
    | None => (0%Z, io, s)
    | Some p =>
        if negb (PortSet.contains (ports io) p) then ((-1)%Z, io, s)
        else
          let '(r, s1) := Session.port_connect p other_port s in
          if negb (r =? 0)%Z then ((-1)%Z, io, s1)
          else
            (0%Z, io,
             Session.set_dirty
               (Session.log
                  (EvChanged (IOChange.of_type IOChange.ConnectionsChanged) src) s1))
    end.


(** *** add_port / remove_port *)

Definition can_add_port (io : t) (ty : DataType.t) : bool :=
  match ty with
  | DataType.NIL => false
  | DataType.AUDIO => true
  | DataType.MIDI => (ChanCount.n_midi (PortSet.count (ports io)) <? 1)%N
  end.

Definition register_for (io : t) (ty : DataType.t) (portname : string)
    (s : Session.t) : option (option Port.ptr * Session.t) :=
  match _direction io with
  | Input => Session.register_port Input ty portname s
  | Output => Session.register_port Output ty portname s
  end.

Definition cannot_register (io : t) (portname : string) : Event :=
  EvError (match _direction io with
           | Input => "IO: cannot register input port " ++ portname
           | Output => "IO: cannot register output port " ++ portname
           end).

Definition remove_port (port : Port.ptr) (src : nat) (io : t) (s : Session.t)
    : Z * t * Session.t :=
  let ty := Port.type (Session.port s port) in
  let before := PortSet.count (ports io) in
  let after := ChanCount.set before ty (u32_decr (ChanCount.get before ty)) in
  if negb (PortCountChanging_emit io after =? 0)%Z then ((-1)%Z, io, s)
  else
    let p := ports io in
    let '(removed, p1) := PortSet.remove p port in
    let change :=
      if removed
      then IOChange.mk
             (N.lor (N.lor IOChange.NoChange IOChange.ConfigurationChanged)
                    (if Port.connected (Session.port s port)
                     then IOChange.ConnectionsChanged else 0%N))
             before (PortSet.count p1)
      else IOChange.empty in
    let s1 := Session.unregister_port port s in
    let io1 := commit io p1 in
    let s2 := Session.log (EvPortCountChanged (n_ports io1)) s1 in
    let '(io2, s3) :=
      if negb (IOChange.type change =? IOChange.NoChange)%N
      then (attach_buffers io1, Session.log (EvChanged change src) s2)
      else (io1, s2) in
    let io3 :=
      if negb (N.land (IOChange.type change) IOChange.ConfigurationChanged =? 0)%N
      then setup_bundle io2 s3 else io2 in
    if (IOChange.type change =? IOChange.NoChange)%N then ((-1)%Z, io3, s3)
    else (0%Z, io3, Session.set_dirty s3).

Definition add_port (destination : string) (src : nat) (type : DataType.t)
    (io : t) (s : Session.t) : option (Z * t * Session.t) :=
  let type := if DataType.eqb type DataType.NIL then _default_type io else type in
  if negb (can_add_port io type) then Some ((-1)%Z, io, s)
  else
    let before := PortSet.count (ports io) in
    let after := ChanCount.set before type (u32_incr (ChanCount.get before type)) in
    if negb (PortCountChanging_emit io after =? 0)%Z then Some ((-1)%Z, io, s)
    else
      let p := ports io in
      let change_before := PortSet.count p in
      match build_legal_port_name io s p type with
      | None => None
      | Some portname =>
          match register_for io type portname s with
          | None => None
          | Some (None, s1) =>
              Some ((-1)%Z, commit io p, Session.log (cannot_register io portname) s1)
          | Some (Some our_port, s1) =>
              let p1 := PortSet.add p (Port.type (Session.port s1 our_port)) our_port in
              let change_after := PortSet.count p1 in
              let io1 := commit io p1 in
              let s2 := Session.log (EvPortCountChanged (n_ports io1)) s1 in
              let change :=
                IOChange.mk IOChange.ConfigurationChanged change_before change_after in
              let s3 := Session.log (EvChanged change src) s2 in
              let io2 := attach_buffers io1 in
              let '(r, s4) :=
                if String.eqb destination "" then (0%Z, s3)
                else Session.port_connect our_port destination s3 in
              if negb (r =? 0)%Z then Some ((-1)%Z, io2, s4)
              else
                let s5 := apply_pretty_name io2 s4 in
                Some (0%Z, setup_bundle io2 s5, Session.set_dirty s5)
          end
      end.

(** *** ensure_ports *)

(** The loop that removes unused ports of type [ty], from index
    [i - 1] downwards while [i > n]; [None] is the failed
    [assert (port)]. *)
Fixpoint remove_unused (ty : DataType.t) (i : nat) (n : N) (p : PortSet.t)
    (s : Session.t) (changed : bool) : option (PortSet.t * Session.t * bool) :=
  match i with
  | O => Some (p, s, changed)
  | S i' =>
      if (n <? N.of_nat i)%N
      then match PortSet.port_of_type p ty i' with
           | None => None
           | Some port =>
               remove_unused ty i' n (snd (PortSet.remove p port))
                             (Session.unregister_port port s) true
           end
      else Some (p, s, changed)
  end.

(** The loop that creates the missing ports of type [ty]; the first
    component of the result is the value with which
    [ensure_ports_locked] returns from inside the loop, if it does.
    [None]: an exception leaves the method, or [fuel] turns were not
    enough. *)
Fixpoint create_new (io : t) (fuel : nat) (ty : DataType.t) (n : N) (p : PortSet.t)
    (s : Session.t) (changed : bool)
    : option (option Z * PortSet.t * Session.t * bool) :=
  if (ChanCount.get (PortSet.count p) ty <? n)%N
  then match fuel with
       | O => None
       | S fuel' =>
           match build_legal_port_name io s p ty with
           | None => None
           | Some portname =>
               match register_for io ty portname s with
               | None => None
               | Some (None, s1) =>
                   Some (Some (-1)%Z, p, Session.log (cannot_register io portname) s1,
                         changed)
               | Some (Some port, s1) =>
                   create_new io fuel' ty n
                              (PortSet.add p (Port.type (Session.port s1 port)) port)
                              s1 true
               end
           end
       end
  else Some (None, p, s, changed).

(** The loop over the data types. *)
Fixpoint ensure_types (io : t) (tys : list DataType.t) (count : ChanCount.t)
    (p : PortSet.t) (s : Session.t) (changed : bool)
    : option (option Z * PortSet.t * Session.t * bool) :=
  match tys with
  | [] => Some (None, p, s, changed)
  | ty :: rest =>
      let n := ChanCount.get count ty in
      let n_ports := PortSet.count p in
      match remove_unused ty (N.to_nat (ChanCount.get n_ports ty)) n p s changed with
      | None => None
      | Some (p1, s1, changed1) =>
          match create_new io (N.to_nat n) ty n p1 s1 changed1 with
          | None => None
          | Some (Some r, p2, s2, changed2) => Some (Some r, p2, s2, changed2)
          | Some (None, p2, s2, changed2) => ensure_types io rest count p2 s2 changed2
          end
      end
  end.

(** The result carries the out-parameter [changed]. *)
Definition ensure_ports_locked (count : ChanCount.t) (clear : bool)
    (io : t) (s : Session.t) : option (Z * bool * t * Session.t) :=
  match ensure_types io DataType.all count (ports io) s false with
  | None => None
  | Some (Some r, p, s1, changed) => Some (r, changed, commit io p, s1)
  | Some (None, p, s1, changed) =>
      let io1 := commit io p in
      let '(io2, s2) :=
        if changed
        then (with_ports io1 (RCU.flush (_ports io1)),
              Session.set_dirty (Session.log (EvPortCountChanged (n_ports io1)) s1))
        else (io1, s1) in
      let s3 :=
        if clear
        then fold_left (fun acc q => Session.port_disconnect_all q acc)
                       (PortSet.all (ports io2)) s2
        else s2 in
      Some (0%Z, changed, io2, s3)
  end.

Definition ensure_ports (count : ChanCount.t) (clear : bool) (src : nat)
    (io : t) (s : Session.t) : option (Z * t * Session.t) :=
  if ChanCount.eqb count (n_ports io) && negb clear then Some (0%Z, io, s)
  else
    let before := PortSet.count (ports io) in
    match ensure_ports_locked count clear io s with
    | None => None
    | Some (r, changed, io1, s1) =>
        if negb (r =? 0)%Z then Some ((-1)%Z, io1, s1)
        else if changed
        then
          let change :=
            IOChange.mk IOChange.ConfigurationChanged before (PortSet.count (ports io1)) in
          let s2 := Session.log (EvChanged change src) s1 in
          let io2 := attach_buffers io1 in
          Some (0%Z, setup_bundle io2 s2, Session.set_dirty s2)
        else Some (0%Z, io1, s1)
    end.

Definition ensure_io (count : ChanCount.t) (clear : bool) (src : nat)
    (io : t) (s : Session.t) : option (Z * t * Session.t) :=
  ensure_ports count clear src io s.

(** *** Latency *)

Definition latency (io : t) (s : Session.t) : Z :=
  fold_left
    (fun max_latency p =>
       let latency :=
         Z.of_N (Port.private_latency_max (Session.port s p)
                   (Direction_eqb (_direction io) Output)) in
       if (latency >? max_latency)%Z then latency else max_latency)
    (PortSet.all (ports io)) 0%Z.

(** The first loop of [connected_latency]: it stops at the first
    connected port and forgets what it has seen. *)
Fixpoint private_scan (s : Session.t) (for_playback : bool) (l : list Port.ptr)
    (max_latency : Z) : bool * Z :=
  match l with
  | [] => (false, max_latency)
  | p :: l' =>
      if Port.connected (Session.port s p) then (true, 0%Z)
      else
        let latency :=
          Z.of_N (Port.private_latency_max (Session.port s p) for_playback) in
        private_scan s for_playback l'
                     (if (latency >? max_latency)%Z then latency else max_latency)
  end.

Definition connected_latency (for_playback : bool) (io : t) (s : Session.t) : Z :=
  let ps := ports io in
  let '(connected, max_latency) := private_scan s for_playback (PortSet.all ps) 0%Z in
  if connected
  then fold_left
         (fun max_latency p =>
            let lr_max :=
              Z.of_N (Port.connected_latency_max (Session.port s p) for_playback) in
            if (lr_max >? max_latency)%Z then lr_max else max_latency)
         (PortSet.all ps) max_latency
  else max_latency.

(** *** Persisted state *)

(** Modelled from the spec: the enumeration writer is not part of the
    sources at hand.  A direction is written as the name of its
    enumerator and read back from it; any other text is an unknown
    enumeration, which throws. *)
Definition Direction_to_string (d : Direction) : string :=
  match d with Input => "Input" | Output => "Output" end.

Definition Direction_of_string (v : string) : option Direction :=
  if String.eqb v "Input" then Some Input
  else if String.eqb v "Output" then Some Output else None.

Definition state (io : t) (s : Session.t) : XML.node :=
  let node := XML.Node state_node_name [] [] in
  let node := XML.set_property node "name" (_name io) in
  let node := XML.set_property node "id" (id io) in
  let node := XML.set_property node "direction" (Direction_to_string (_direction io)) in
  let node := XML.set_property node "default-type"
                (DataType.to_string (_default_type io)) in
  let node := if String.eqb (_pretty_name_prefix io) "" then node
              else XML.set_property node "pretty-name" (_pretty_name_prefix io) in
  fold_left (fun nd p => XML.add_child_nocopy nd (Port.get_state (Session.port s p)))
            (PortSet.all (ports io)) node.

Definition get_state (io : t) (s : Session.t) : XML.node := state io s.

Definition dquote : string := String (ascii_of_nat 34) EmptyString.

Definition digits : string := "0123456789".

(** [while ((mask <= bundle_number) && (mask <<= 1)) {}], on [int]s:
    the result is the mask the loop ends with.  [fuel] bounds the
    number of turns. *)
Fixpoint highest_bit_loop (fuel : nat) (mask bundle_number : Z) : option Z :=
  match fuel with
  | O => None
  | S fuel' =>
      if (mask <=? bundle_number)%Z
      then let mask1 := to_int (Z.shiftl mask 1) in
           if (mask1 =? 0)%Z then Some mask1
           else highest_bit_loop fuel' mask1 bundle_number
      else Some mask
  end.

(** The name that the wrapping loop tries for [bundle_number];
    [to_string], whose body is outside the sources, is taken to print
    an [int] in decimal, as [%d] does. *)
Definition possible_bundle_name (default_name : string) (stereo : bool)
    (bundle_number : Z) : string :=
  let possible_name := (default_name ++ " " ++ fmt_d (to_int (bundle_number + 1)))%string in
  if stereo then (possible_name ++ "+" ++ fmt_d (to_int (bundle_number + 2)))%string
  else possible_name.

(** [while (mask) { ... mask >>= 1; }]: the bundle number is wrapped
    into ever smaller powers of two until the session knows a bundle
    of the name made from it. *)
Fixpoint wrap_loop (fuel : nat) (s : Session.t) (default_name : string) (stereo : bool)
    (mask bundle_number : Z) : option (option ChanCount.t) :=
  match fuel with
  | O => None
  | S fuel' =>
      if (mask =? 0)%Z then Some None
      else if negb (Z.land bundle_number mask =? 0)%Z
      then let bundle_number1 := Z.land bundle_number (Z.lnot mask) in
           match Session.bundle_by_name s
                   (possible_bundle_name default_name stereo bundle_number1) with
           | Some c => Some (Some c)
           | None => wrap_loop fuel' s default_name stereo (Z.shiftr mask 1) bundle_number1
           end
      else wrap_loop fuel' s default_name stereo (Z.shiftr mask 1) bundle_number
  end.

(** The numeric suffix of an unknown bundle name and whether the name
    reads as a stereo pair ("in 3+4"); [last_pos] is the position of the
    last character that is no digit. *)
Definition bundle_suffix (s : Session.t) (desired_name : string) (last_pos : nat) : Z * bool :=
  let bundle_number :=
    to_int (Session.string_to_int32 s (Str.substr_from last_pos desired_name)) in
  if (1 <? last_pos)%nat
     && match String.get last_pos desired_name with
        | Some c => Ascii.eqb c "+"
        | None => false
        end
  then match Str.find_last_not_of digits (Some (last_pos - 1)%nat) desired_name with
       | Some left_pos =>
           let left_bundle_number :=
             to_int (Session.string_to_int32 s (Str.substr left_pos (last_pos - 1) desired_name)) in
           if (0 <? left_bundle_number)%Z
              && (to_int (left_bundle_number + 1) =? bundle_number)%Z
           then (to_int (bundle_number - 1), true)
           else (bundle_number, false)
       | None => (bundle_number, false)
       end
  else (bundle_number, false).

(** [find_possible_bundle]: the bundle of that name, or one with a
    nearby number, or none; the result is the bundle's channel count.
    [None]: for an unknown name without a character that is no digit,
    [last_non_digit_pos] is [npos] and [desired_name[npos]] is read
    out of range.  The message about the replacement quotes the
    [possible_name] of the outer block, which is never assigned.
    [bundle_number] and [mask] are [int]s; 33 turns are enough for
    either loop. *)
Definition find_possible_bundle (desired_name : string) (io : t) (s : Session.t)
    : option (option ChanCount.t * Session.t) :=
  let default_name := match _direction io with Input => "in" | Output => "out" end in
  let bundle_type_name := match _direction io with Input => "input" | Output => "output" end in
  let possible_name := EmptyString in
  match Session.bundle_by_name s desired_name with
  | Some c => Some (Some c, s)
  | None =>
      let s1 := Session.log (EvError ("Unknown bundle " ++ dquote ++ desired_name ++ dquote
                                      ++ " listed for " ++ bundle_type_name
                                      ++ " of " ++ _name io)) s in
      match Str.find_last_not_of digits None desired_name with
      | None => None
      | Some last_pos =>
          let '(bundle_number, stereo) := bundle_suffix s desired_name last_pos in
          let bundle_number :=
            if negb (bundle_number =? 0)%Z then to_int (bundle_number - 1)
            else bundle_number in
          match highest_bit_loop 33 1 bundle_number with
          | None => None
          | Some mask =>
              match wrap_loop 33 s default_name stereo mask bundle_number with
              | None => None
              | Some (Some c) =>
                  Some (Some c,
                        Session.log (EvInfo ("Bundle " ++ desired_name
                                             ++ " was not available - " ++ dquote
                                             ++ possible_name ++ dquote
                                             ++ " used instead")) s1)
              | Some None =>
                  Some (None,
                        Session.log (EvError ("No " ++ bundle_type_name
                                              ++ " bundles available as a replacement")) s1)
              end
          end
      end
  end.

(** [get_port_counts_2X]: the loop runs once per child of the node,
    but reads the properties of the node itself. *)
Definition get_port_counts_2X (io : t) (node : XML.node) (n : ChanCount.t)
    : Z * ChanCount.t :=
  let turn (n_audio : N) (_ : XML.node) : N :=
    match XML.property node "inputs", _direction io with
    | Some v, Input => Str.count_char "{" v
    | _, _ =>
        match XML.property node "input-connection", _direction io with
        | Some _, Input => 1%N
        | _, _ =>
            match XML.property node "outputs", _direction io with
            | Some v, Output => Str.count_char "{" v
            | _, _ =>
                match XML.property node "output-connection", _direction io with
                | Some _, Output => 2%N
                | _, _ => n_audio
                end
            end
        end
    end in
  let n_audio := fold_left turn (XML.children node) 0%N in
  let cnt := ChanCount.set_audio ChanCount.ZERO n_audio in
  (0%Z, ChanCount.max n cnt).

(** The loop of [get_port_counts] over the children of the node;
    [None]: a "Bundle" child without a name is dereferenced, or
    [find_possible_bundle] does not return. *)
Fixpoint count_children (io : t) (s : Session.t) (children : list XML.node)
    (n : ChanCount.t) (n_audio n_midi : N) (cnt : ChanCount.t)
    : option (Z * ChanCount.t * Session.t) :=
  match children with
  | [] => Some (0%Z, ChanCount.max n cnt, s)
  | c :: rest =>
      if String.eqb (XML.name c) "Bundle"
      then match XML.property c "name" with
           | None => None
           | Some v =>
               match find_possible_bundle v io s with
               | None => None
               | Some (Some nch, s1) => Some (0%Z, ChanCount.max n nch, s1)
               | Some (None, s1) => Some ((-1)%Z, n, s1)
               end
           end
      else if String.eqb (XML.name c) "Port"
      then match XML.property c "type" with
           | None => count_children io s rest n n_audio n_midi cnt
           | Some v =>
               if String.eqb v "audio"
               then count_children io s rest n (u32_incr n_audio) n_midi
                                   (ChanCount.set_audio cnt (u32_incr n_audio))
               else if String.eqb v "midi"
               then count_children io s rest n n_audio (u32_incr n_midi)
                                   (ChanCount.set_midi cnt (u32_incr n_midi))
               else count_children io s rest n n_audio n_midi cnt
           end
      else count_children io s rest n n_audio n_midi cnt
  end.

Definition get_port_counts (io : t) (s : Session.t) (node : XML.node) (version : Z)
    (n : ChanCount.t) : option (Z * ChanCount.t * Session.t) :=
  if (version <? 3000)%Z
  then let '(r, n1) := get_port_counts_2X io node n in Some (r, n1, s)
  else
    let n := n_ports io in
    match XML.property node "connection" with
    | Some v =>
        match find_possible_bundle v io s with
        | None => None
        | Some (Some nch, s1) => Some (0%Z, ChanCount.max n nch, s1)
        | Some (None, s1) => Some (0%Z, n, s1)
        end
    | None => count_children io s (XML.children node) n 0 0 ChanCount.ZERO
    end.

Definition create_ports (node : XML.node) (version : Z) (io : t) (s : Session.t)
    : option (Z * t * Session.t) :=
  match get_port_counts io s node version ChanCount.ZERO with
  | None => None
  | Some (_, n, s0) =>
      match ensure_ports n (negb (Session.inital_connect_or_deletion_in_progress s0))
                         (this io) io s0 with
      | None => None
      | Some (r, io1, s1) =>
          if negb (r =? 0)%Z
          then Some ((-1)%Z, io1,
                     Session.log (EvError (_name io1 ++ ": cannot create I/O ports")) s1)
          else Some (0%Z, io1, s1)
      end
  end.

(** The loop of [parse_io_string]; [fuel] bounds the number of commas
    that can be found. *)
Fixpoint split_commas (fuel : nat) (str : string) (opos : nat) (ports : list string)
    : nat * list string :=
  match fuel with
  | O => (opos, ports)
  | S fuel' =>
      match Str.find_char_from "," opos str with
      | Some pos =>
          split_commas fuel' str (pos + 1) (ports ++ [Str.substr opos (pos - opos) str])
      | None => (opos, ports)
      end
  end.

Definition parse_io_string (str : string) (ports : list string) : Z * list string :=
  if (String.length str =? 0)%nat then (0%Z, ports)
  else
    let '(opos, ports1) := split_commas (S (String.length str)) str 0 [] in
    let ports2 := if (opos <? String.length str)%nat
                  then ports1 ++ [Str.substr_from opos str] else ports1 in
    (Z.of_nat (length ports2), ports2).

(** The legacy rewrite of a port name: the first [pat] becomes [rep]. *)
Definition legacy_port_name (pat rep : string) (name : string) : string :=
  match Str.find pat name with
  | Some p => Str.replace p (String.length pat) rep name
  | None => name
  end.

(** The inner loop: connect port [i] to each of the names. *)
Definition connect_nth (io : t) (i : N) (s : Session.t) (name : string) : Session.t :=
  match nth io i with
  | Some p => snd (Session.port_connect p name s)
  | None => s
  end.

(** The loop of [set_port_state_2X] over the brace groups of [str],
    for the property [what] ("inputs" or "outputs"). *)
Fixpoint connect_groups (fuel : nat) (io : t) (what pat rep : string) (str : string)
    (ostart : nat) (i : N) (ports : list string) (s : Session.t) : Z * Session.t :=
  match fuel with
  | O => (0%Z, s)
  | S fuel' =>
      match Str.find_char_from "{" ostart str with
      | None => (0%Z, s)
      | Some start0 =>
          let start := (start0 + 1)%nat in
          match Str.find_char_from "}" start str with
          | None =>
              ((-1)%Z,
               Session.log (EvError ("IO: badly formed string in XML node for "
                                     ++ what ++ " " ++ dquote ++ str ++ dquote)) s)
          | Some end_ =>
              let '(n, ports1) :=
                parse_io_string (Str.substr start (end_ - start) str) ports in
              if (n <? 0)%Z
              then ((-1)%Z,
                    Session.log (EvError ("bad " ++ what ++ " string in XML node "
                                          ++ dquote ++ str ++ dquote)) s)
              else
                let ports2 := if (n >? 0)%Z
                              then map (legacy_port_name pat rep) ports1 else ports1 in
                let s1 := if (n >? 0)%Z
                          then fold_left (connect_nth io i) ports2 s else s in
                connect_groups fuel' io what pat rep str (end_ + 1) (i + 1)%N ports2 s1
          end
      end
  end.

Definition set_port_state_2X (node : XML.node) (version : Z) (in_ : bool)
    (io : t) (s : Session.t) : Z * Session.t :=
  let '(r1, s1) :=
    match XML.property node "inputs" with
    | Some str =>
        if in_
        then connect_groups (S (String.length str)) io "inputs" "/out" "/audio_out"
                            str 0 0 [] s
        else (0%Z, s)
    | None => (0%Z, s)
    end in
  if negb (r1 =? 0)%Z then (r1, s1)
  else
    match XML.property node "outputs" with
    | Some str =>
        if negb in_
        then connect_groups (S (String.length str)) io "outputs" "/in" "/audio_in"
                            str 0 0 [] s1
        else (0%Z, s1)
    | None => (0%Z, s1)
    end.

(** [set_id (node)]. *)
Definition set_id (node : XML.node) (io : t) : t :=
  match XML.property node "id" with
  | Some v => with_header io v (_direction io) (_default_type io)
  | None => io
  end.

(** For a send: the "Port" children take the names of the ports that
    [ensure_ports] made, pairwise in order. *)
Fixpoint rename_port_nodes (s : Session.t) (ps : list Port.ptr) (xs : list XML.node)
    : list XML.node :=
  match ps, xs with
  | p :: ps', x :: xs' =>
      (if String.eqb (XML.name x) "Port"
       then XML.set_property (XML.remove_property x "name") "name" (Session.port_name s p)
       else x) :: rename_port_nodes s ps' xs'
  | _, _ => xs
  end.

(** One turn of the last loop of [set_state]. *)
Definition apply_port_state (io : t) (s : Session.t) (child : XML.node) : Session.t :=
  if String.eqb (XML.name child) "Port"
  then match XML.property child "name" with
       | None => s
       | Some v =>
           match port_by_name io s v with
           | None => s
           | Some p =>
               let s1 := Session.update_port p (fun o => Port.set_state o child) s in
               if negb (Session.inital_connect_or_deletion_in_progress s1)
               then Session.port_reconnect p s1 else s1
           end
       end
  else s.

Definition incorrect_node (node : XML.node) : Event :=
  EvError ("incorrect XML node " ++ dquote ++ XML.name node ++ dquote
           ++ " passed to IO object").

(** [None]: a failed assertion ([version >= 3000], a default type that
    is not NIL, a port name that contains the IO name) or an
    exception. *)
Definition set_state (node : XML.node) (version : Z) (io : t) (s : Session.t)
    : option (Z * t * Session.t) :=
  if (version <? 3000)%Z then None
  else if negb (String.eqb (XML.name node) state_node_name)
  then Some ((-1)%Z, io, Session.log (incorrect_node node) s)
  else
    let ignore_name := match XML.property node "ignore-name" with
                       | Some _ => true | None => false end in
    match (match XML.property node "name" with
           | Some name => if negb ignore_name
                          then option_map (fun r => (snd (fst r), snd r)) (set_name name io s)
                          else Some (io, s)
           | None => Some (io, s)
           end) with
    | None => None
    | Some (io1, s1) =>
        match (match XML.property node "default-type" with
               | Some v =>
                   match DataType.of_string v with
                   | DataType.NIL => None
                   | ty => Some (with_header io1 (id io1) (_direction io1) ty)
                   end
               | None => Some io1
               end) with
        | None => None
        | Some io2 =>
            let io3 := set_id node io2 in
            match (match XML.property node "direction" with
                   | Some v => option_map
                                 (fun d => with_header io3 (id io3) d (_default_type io3))
                                 (Direction_of_string v)
                   | None => Some io3
                   end) with
            | None => None
            | Some io4 =>
                match create_ports node version io4 s1 with
                | None => None
                | Some (r, io5, s2) =>
                    if negb (r =? 0)%Z then Some ((-1)%Z, io5, s2)
                    else
                      let node1 :=
                        if _sendish io5 && Direction_eqb (_direction io5) Output
                        then XML.set_children node
                               (rename_port_nodes s2 (PortSet.all (ports io5))
                                                  (XML.children node))
                        else node in
                      let '(io6, s3) :=
                        match XML.property node1 "pretty-name" with
                        | Some name => set_pretty_name name io5 s2
                        | None => (io5, s2)
                        end in
                      Some (0%Z, io6,
                            fold_left (apply_port_state io6) (XML.children node1) s3)
                end
            end
        end
    end.

Definition set_state_2X (node : XML.node) (version : Z) (in_ : bool)
    (io : t) (s : Session.t) : option (Z * t * Session.t) :=
  if negb (String.eqb (XML.name node) state_node_name)
  then Some ((-1)%Z, io, Session.log (incorrect_node node) s)
  else
    match (match XML.property node "name" with
           | Some name => option_map (fun r => (snd (fst r), snd r)) (set_name name io s)
           | None => Some (io, s)
           end) with
    | None => None
    | Some (io1, s1) =>
        match (match XML.property node "default-type" with
               | Some v =>
                   match DataType.of_string v with
                   | DataType.NIL => None
                   | ty => Some (with_header io1 (id io1) (_direction io1) ty)
                   end
               | None => Some io1
               end) with
        | None => None
        | Some io2 =>
            let io3 := set_id node io2 in
            let io4 := with_header io3 (id io3) (if in_ then Input else Output)
                                   (_default_type io3) in
            match create_ports node version io4 s1 with
            | None => None
            | Some (r, io5, s2) =>
                if negb (r =? 0)%Z then Some ((-1)%Z, io5, s2)
                else
                  let '(r2, s3) := set_port_state_2X node version in_ io5 s2 in
                  if negb (r2 =? 0)%Z then Some ((-1)%Z, io5, s3)
                  else Some (0%Z, io5, s3)
            end
        end
    end.

(** *** Constructors *)

(** [IO (Session&, name, Direction, default_type, sendish)]. *)
Definition create (addr : nat) (new_id : string) (s : Session.t) (name : string)
    (dir : Direction) (default_type : DataType.t) (sendish : bool) : t :=
  setup_bundle
    (mk addr (legalize_io_name name) new_id dir default_type true sendish
        RCU.init [] None [] "" [] []) s.

(** [IO (Session&, const XMLNode&, default_type, sendish)], with
    [Stateful::loading_state_version] as [version]. *)
Definition create_from_state (addr : nat) (new_id : string) (s : Session.t)
    (node : XML.node) (dt : DataType.t) (sendish : bool) (version : Z)
    : option (t * Session.t) :=
  let io0 := mk addr "unnamed io" new_id Input dt true sendish
                RCU.init [] None [] "" [] [] in
  match set_state node version io0 s with
  | None => None
  | Some (_, io1, s1) => Some (setup_bundle io1 s1, s1)
  end.

(** *** Queries *)

(** [connected ()]: some port has a connection. *)
Fixpoint any_port_connected (s : Session.t) (l : list Port.ptr) : bool :=
  match l with
  | [] => false
  | p :: l' => if Port.connected (Session.port s p) then true else any_port_connected s l'
  end.

Definition connected (io : t) (s : Session.t) : bool :=
  any_port_connected s (PortSet.all (ports io)).

Definition has_port (io : t) (p : Port.ptr) : bool := PortSet.contains (ports io) p.

(** *** Private latencies *)

(** [lat.min = lat.max = value]: the fields of a latency range are
    [uint32_t]. *)
Definition set_private_port_latencies (value : Z) (playback : bool) (io : t)
    (s : Session.t) : Session.t :=
  let lat_max := Z.to_N (value mod 4294967296) in
  fold_left
    (fun acc p =>
       Session.update_port p
         (fun o => Port.set_private_latency_range o lat_max playback) acc)
    (PortSet.all (ports io)) s.

(** *** The names kept in a state node *)

Definition name_from_state (node : XML.node) : string :=
  match XML.property node "name" with
  | Some v => v
  | None => ""
  end.

(** One turn of the loop of [set_name_in_state]; [None]: a "Port"
    child without a name is dereferenced. *)
Definition rename_port_in_state (new_name : string) (acc : option (list XML.node))
    (child : XML.node) : option (list XML.node) :=
  match acc with
  | None => None
  | Some done =>
      if String.eqb (XML.name child) "Port"
      then match XML.property child "name" with
           | None => None
           | Some old_name =>
               let old_name_second_part :=
                 match Str.find_char_from "/" 0 old_name with
                 | Some slash => Str.substr_from (slash + 1) old_name
                 | None => Str.substr_from 0 old_name
                 end in
               Some (done ++ [XML.set_property child "name"
                                (new_name ++ "/" ++ old_name_second_part)])
           end
      else Some (done ++ [child])
  end.

Definition set_name_in_state (node : XML.node) (new_name : string) : option XML.node :=
  let node1 := XML.set_property node "name" new_name in
  option_map (XML.set_children node1)
             (fold_left (rename_port_in_state new_name) (XML.children node1) (Some [])).

(** One turn of the loop of [prepare_for_reset]. *)
Definition reset_port_name (name : string) (child : XML.node) : XML.node :=
  if String.eqb (XML.name child) "Port"
  then match XML.property child "name" with
       | Some old =>
           match Str.find_char_from "/" 0 old with
           | Some slash => XML.set_property child "name" (name ++ Str.substr_from slash old)
           | None => child
           end
       | None => child
       end
  else child.

Definition prepare_for_reset (node : XML.node) (name : string) : XML.node :=
  let node1 := XML.set_property node "name" name in
  XML.set_children node1 (map (reset_port_name name) (XML.children node1)).

(** *** The legacy strings, continued *)

(** [parse_gain_string]: as [parse_io_string], without the early
    return for an empty string. *)
Definition parse_gain_string (str : string) (ports : list string) : Z * list string :=
  let '(opos, ports1) := split_commas (S (String.length str)) str 0 [] in
  let ports2 := if (opos <? String.length str)%nat
                then ports1 ++ [Str.substr_from opos str] else ports1 in
  (Z.of_nat (length ports2), ports2).

(** One turn of the inner loop of [set_ports]:
    [connect (nth (i), ports[x], this)], whose result is not looked
    at. *)
Definition connect_port_nth (i : N) (acc : t * Session.t) (name : string)
    : t * Session.t :=
  let '(io, s) := acc in
  let '(_, io1, s1) := connect (nth io i) name (this io) io s in
  (io1, s1).

(** The loop of [set_ports] over the brace groups of [str]. *)
Fixpoint set_ports_groups (fuel : nat) (str : string) (ostart : nat) (i : N)
    (ports : list string) (io : t) (s : Session.t) : Z * t * Session.t :=
  match fuel with
  | O => (0%Z, io, s)
  | S fuel' =>
      match Str.find_char_from "{" ostart str with
      | None => (0%Z, io, s)
      | Some start0 =>
          let start := (start0 + 1)%nat in
          match Str.find_char_from "}" start str with
          | None =>
              ((-1)%Z, io,
               Session.log (EvError ("IO: badly formed string in XML node for inputs "
                                     ++ dquote ++ str ++ dquote)) s)
          | Some end_ =>
              let '(n, ports1) :=
                parse_io_string (Str.substr start (end_ - start) str) ports in
              if (n <? 0)%Z
              then ((-1)%Z, io,
                    Session.log (EvError ("bad input string in XML node "
                                          ++ dquote ++ str ++ dquote)) s)
              else
                let '(io1, s1) :=
                  if (n >? 0)%Z
                  then fold_left (connect_port_nth i) ports1 (io, s) else (io, s) in
                set_ports_groups fuel' str (end_ + 1) (i + 1)%N ports1 io1 s1
          end
      end
  end.

(** [set_ports]: as many audio ports as [str] has opening braces (the
    count is stored in a [uint32_t]), then the connections of each
    group. *)
Definition set_ports (str : string) (io : t) (s : Session.t)
    : option (Z * t * Session.t) :=
  let nports := (Str.count_char "{" str mod 4294967296)%N in
  if (nports =? 0)%N then Some (0%Z, io, s)
  else
    match ensure_ports (ChanCount.mk nports 0) true (this io) io s with
    | None => None
    | Some (r, io1, s1) =>
        if negb (r =? 0)%Z then Some ((-1)%Z, io1, s1)
        else Some (set_ports_groups (S (String.length str)) str 0 0 [] io1 s1)
    end.

(** *** Delivering buffers *)

(** The two loops of [copy_to_outputs] over the buffers [i] and the
    ports [o] of one type; [prev] is the buffer read last.  The result
    lists the calls [port_buffer.read_from (buffer, nframes, offset)]
    in the order they are made, as pairs of port and buffer. *)
Fixpoint copy_buffers (B : Type) (i : list B) (o : list Port.ptr) (prev : B)
    : list (Port.ptr * B) :=
  match i, o with
  | b :: i', p :: o' => (p, b) :: copy_buffers i' o' b
  | _, _ => map (fun p => (p, prev)) o
  end.

(** [copy_to_outputs (bufs, type, nframes, offset)], for the buffers
    of [type] in [bufs]; [None] is the failed assertion that there is
    a buffer. *)
Definition copy_to_outputs (B : Type) (bufs : list B) (type : DataType.t) (io : t)
    : option (list (Port.ptr * B)) :=
  match bufs with
  | [] => None
  | first :: _ => Some (copy_buffers bufs (PortSet.of_type (ports io) type) first)
  end.

End IO.

(* ------------------------------------------------------------------ *)
(** ** Vocabulary of the specification *)

(** The maximum of [f] over the ports [l], 0 when there are none. *)
Definition max_over (f : Port.ptr -> N) (l : list Port.ptr) : N :=
  fold_right (fun p m => N.max (f p) m) 0%N l.

(** Whether any of the ports [l] is connected. *)
Definition any_connected (s : Session.t) (l : list Port.ptr) : bool :=
  existsb (fun p => Port.connected (Session.port s p)) l.

Definition numeric_names (n : nat) : list string :=
  map (fun j => fmt_u (N.of_nat (S j))) (seq 0 n).

Definition display_names (n : nat) : list string :=
  match n with
  | 1 => ["mono"]
  | 2 => ["L"; "R"]
  | _ => numeric_names n
  end.

(** What [setup_bundle] makes of port [j] of type [ty]. *)
Definition channel_of_port (io : IO.t) (s : Session.t) (ty : DataType.t) (n : N) (j : nat)
    : Bundle.Channel :=
  Bundle.mkChannel (IO.bundle_channel_name io (N.of_nat j) n ty) ty
    match PortSet.port_of_type (IO.ports io) ty j with
    | Some p => [Session.make_port_name_non_relative s (Session.port_name s p)]
    | None => []
    end.

Definition channels_of_type (io : IO.t) (s : Session.t) (ty : DataType.t) : list Bundle.Channel :=
  let n := ChanCount.get (PortSet.count (IO.ports io)) ty in
  map (channel_of_port io s ty n) (seq 0 (N.to_nat n)).

(** The bundle of the IO describes its ports: one channel per port,
    and, when no channel names were assigned, the default display
    names. *)
Definition bundle_describes_ports (io : IO.t) : Prop :=
  exists b,
    IO._bundle io = Some b /\
    Bundle.nchannels b = PortSet.num_ports (IO.ports io) /\
    (IO._audio_channel_names io = [] ->
     (PortSet.num_ports (IO.ports io) < 2147483648)%N ->
     map Bundle.ch_name (Bundle.channel b) =
     display_names (length (PortSet.audio (IO.ports io))) ++
     numeric_names (length (PortSet.midi (IO.ports io)))).

(** Every registration that the backend is asked for is granted. *)
Definition grants_all (s : Session.t) : Prop :=
  forall ty portname, Session.backend_register s ty portname = Granted.

(** No port is twice in the set, and every port of the set has been
    handed out by the engine. *)
Definition ports_wf (ps : PortSet.t) (s : Session.t) : Prop :=
  NoDup (PortSet.all ps) /\ Forall (fun p => p < Session.next_port s) (PortSet.all ps).

(** [ensure_ports] for each call in turn; after each call, its return
    value and the port count of the IO. *)
Fixpoint ensure_ports_run (calls : list (ChanCount.t * bool * nat)) (io : IO.t)
    (s : Session.t) : list (option (Z * ChanCount.t)) :=
  match calls with
  | [] => []
  | (count, clear, src) :: rest =>
      match IO.ensure_ports count clear src io s with
      | Some (r, io', s') => Some (r, IO.n_ports io') :: ensure_ports_run rest io' s'
      | None => [None]
      end
  end.

Definition with_type (ps : PortSet.t) (ty : DataType.t) (l : list Port.ptr) : PortSet.t :=
  match ty with
  | DataType.AUDIO => PortSet.mk l (PortSet.midi ps)
  | DataType.MIDI => PortSet.mk (PortSet.audio ps) l
  | DataType.NIL => ps
  end.

Definition engine_kept (s s' : Session.t) : Prop :=
  Session.backend_register s' = Session.backend_register s /\
  Session.next_port s <= Session.next_port s'.

(** The character [c] does not occur in [x]. *)
Fixpoint lacks (c : ascii) (x : string) : bool :=
  match x with
  | EmptyString => true
  | String a x' => negb (Ascii.eqb a c) && lacks c x'
  end.

(** A port name that the legacy connection syntax can carry. *)
Definition plain_name (n : string) : Prop :=
  n <> "" /\ lacks "," n = true /\ lacks "}" n = true.

(** The legacy syntax: a group is its names, separated by commas, in
    braces; groups are separated by commas. *)
Definition render_group (g : list string) : string :=
  ("{" ++ String.concat "," g ++ "}")%string.

Definition render_groups (groups : list (list string)) : string :=
  String.concat "," (map render_group groups).

(** Group [i], [i + 1], ... connected to port [i], [i + 1], ...: each
    name of a group, rewritten, is connected to the port of the
    group. *)
Fixpoint connect_all (io : IO.t) (pat rep : string) (i : N) (groups : list (list string))
    (s : Session.t) : Session.t :=
  match groups with
  | [] => s
  | g :: rest =>
      connect_all io pat rep (i + 1)%N rest
        (fold_left (IO.connect_nth io i) (map (IO.legacy_port_name pat rep) g) s)
  end.

(** Groups, each after some text without an opening brace. *)
Fixpoint render_pairs (pairs : list (string * list string)) : string :=
  match pairs with
  | [] => ""
  | (junk, g) :: rest => (junk ++ render_group g ++ render_pairs rest)%string
  end.

(** [PortCountChanging.connect (slot)]: one more observer of the
    pre-check. *)
Definition subscribe (io : IO.t) (slot : ChanCount.t -> Z) : IO.t :=
  IO.mk (IO.this io) (IO._name io) (IO.id io) (IO._direction io)
        (IO._default_type io) (IO._active io) (IO._sendish io) (IO._ports io)
        (IO._port_connections io) (IO._bundle io) (IO._audio_channel_names io)
        (IO._pretty_name_prefix io) (IO._buffers io)
        (IO.PortCountChanging io ++ [slot]).

(* ------------------------------------------------------------------ *)
(** ** Concrete sessions and IOs *)

Module Example.

(** A backend that grants every request, with the name limits of a
    real one. *)
Definition session : Session.t :=
  Session.mk 256 "ardour" (fun _ _ => Granted) (fun _ _ => true) (fun _ _ => true)
             (fun _ => None) (fun _ => 0%Z) false false
             (fun _ => Port.fresh "" DataType.NIL Input) 0 false [].

(** The input IO of a track named "Audio 1", without ports. *)
Definition io : IO.t := IO.create 1 "42" session "Audio 1" Input DataType.AUDIO false.

Definition io_of (r : option (Z * IO.t * Session.t)) : IO.t :=
  match r with Some (_, io', _) => io' | None => io end.

Definition session_of (r : option (Z * IO.t * Session.t)) : Session.t :=
  match r with Some (_, _, s') => s' | None => session end.

(** The same IO after [ensure_ports] with two audio ports. *)
Definition stereo : option (Z * IO.t * Session.t) :=
  IO.ensure_ports (ChanCount.mk 2 0) false 0 io session.
Definition stereo_io : IO.t := Eval vm_compute in io_of stereo.
Definition stereo_session : Session.t := Eval vm_compute in session_of stereo.

(** Two audio ports and one MIDI port. *)
Definition with_midi : option (Z * IO.t * Session.t) :=
  IO.ensure_ports (ChanCount.mk 2 1) false 0 io session.
Definition with_midi_io : IO.t := Eval vm_compute in io_of with_midi.
Definition with_midi_session : Session.t := Eval vm_compute in session_of with_midi.

(** The session of the stereo IO once latencies are known: its ports
    report private latencies of 64 and 128 samples, and nothing is
    connected. *)
Definition latent_session : Session.t :=
  Session.with_ports stereo_session
    (fun p =>
       Port.mk (Port.name (Session.port stereo_session p)) DataType.AUDIO Input [] ""
               (fun _ => if Nat.eqb p 0 then 64%N else 128%N) (fun _ => 0%N))
    (Session.next_port stereo_session).

(** The node of an input IO as a session of the 2.X format has it:
    two brace groups of connections, and a child node. *)
Definition legacy_node : XML.node :=
  XML.Node "IO" [("name", "Audio 1"); ("id", "42"); ("inputs", "{p1},{p2,p3}")]
           [XML.Node "Panner" [] []].

(** An observer of [PortCountChanging] that answers -1. *)
Definition objecting (io0 : IO.t) : IO.t := subscribe io0 (fun _ => (-1)%Z).

End Example.

(** The name that [find_port_hole] tries for the number [n]. *)
Definition candidate (name_size : N) (base : string) (n : N) : string :=
  Str.snprintf name_size (base ++ " " ++ fmt_u n).

(** [f] holds of [n], [n + 1], ..., [n + fuel - 1]. *)
Fixpoint all_from (fuel : nat) (n : N) (f : N -> bool) : bool :=
  match fuel with
  | O => true
  | S fuel' => f n && all_from fuel' (n + 1)%N f
  end.

Definition four_digits (n : N) : bool := (String.length (fmt_u n) <=? 4)%nat.

(** The suffix that tells type and role, and the text before the
    number ([buf1]). *)
Definition full_suffix (io : IO.t) (sfx : string) : string := (sfx ++ IO.role_suffix io)%string.

Definition name_limit (s : Session.t) (suffix : string) : Z :=
  to_int (Z.of_N (Session.port_name_size s)
          - Z.of_nat (String.length (Session.my_name s))
          - (Z.of_nat (String.length suffix) + 5)).

Definition name_base (io : IO.t) (s : Session.t) (suffix : string) : string :=
  Str.snprintf (u32_incr (Session.port_name_size s))
    (Str.fmt_prec_s (name_limit s suffix) (legalize_io_name (IO._name io)) ++ "/" ++ suffix).

(** The backend's limits leave room for the suffix and a number of
    four digits after a client name that is not empty. *)
Definition roomy (s : Session.t) : Prop :=
  1 <= String.length (Session.my_name s) /\
  (Z.of_nat (String.length (Session.my_name s)) + 17 <= Z.of_N (Session.port_name_size s)
   < 2147483648)%Z.

(** [k] allocations in a row, as the loops of [ensure_ports_locked]
    and [add_port] make them: each name is built against the PortSet
    grown by the ports registered under the names before it. *)
Fixpoint allocations (io : IO.t) (ty : DataType.t) (k : nat) (ps : PortSet.t)
    (s : Session.t) : list string :=
  match k with
  | O => []
  | S k' =>
      match IO.build_legal_port_name io s ps ty with
      | None => []
      | Some portname =>
          match IO.register_for io ty portname s with
          | Some (Some port, s1) =>
              portname :: allocations io ty k'
                            (PortSet.add ps (Port.type (Session.port s1 port)) port) s1
          | _ => [portname]
          end
      end
  end.

(** The audio ports [0 .. count - 1], named [base 1 .. base count]. *)
Definition numbered_ports (count : N) : PortSet.t := PortSet.mk (seq 0 (N.to_nat count)) [].

Definition numbered_port (base : string) (p : Port.ptr) : Port.t :=
  Port.fresh (base ++ " " ++ fmt_u (N.of_nat (S p))) DataType.AUDIO Input.

Definition numbered_session (base : string) (count : N) : Session.t :=
  Session.mk 256 "ardour" (fun _ _ => Granted) (fun _ _ => true) (fun _ _ => true)
             (fun _ => None) (fun _ => 0%Z) false false (numbered_port base) (N.to_nat count) false [].

Definition crowded_io : IO.t := IO.create 2 "43" Example.session "x" Input DataType.AUDIO false.

Definition long_name : string := string_of_list_ascii (repeat "a"%char 300).
Definition long_io : IO.t := IO.create 3 "44" Example.session long_name Input DataType.AUDIO false.
Definition long_base : string := Eval vm_compute in (substring 0 237 long_name ++ "/audio_in")%string.

(** Every port of the set is kept under its own type. *)
Definition ports_typed (ps : PortSet.t) (s : Session.t) : Prop :=
  Forall (fun p => Port.type (Session.port s p) = DataType.AUDIO) (PortSet.audio ps) /\
  Forall (fun p => Port.type (Session.port s p) = DataType.MIDI) (PortSet.midi ps).

Definition count_type (ty : DataType.t) (l : list Port.t) : N :=
  N.of_nat (length (filter (fun p => DataType.eqb (Port.type p) ty) l)).

(** A session in which the ports of [Example.stereo_io] are still
    registered: the backend refuses their names. *)
Definition occupied_session : Session.t :=
  Session.mk 256 "ardour"
             (fun _ portname =>
                if existsb (String.eqb portname)
                           ["Audio 1/audio_in 1"; "Audio 1/audio_in 2"]
                then Refused else Granted)
             (fun _ _ => true) (fun _ _ => true) (fun _ => None) (fun _ => 0%Z) false false
             (Session.port Example.stereo_session) 2 false [].

(* ------------------------------------------------------------------ *)
(** ** Vocabulary of the further properties *)

(** No observer of the pre-check answers with a positive number. *)
Definition no_objection (io : IO.t) : Prop :=
  forall slot c, In slot (IO.PortCountChanging io) -> (slot c <= 0)%Z.

(** The type that [add_port] works with: the default type of the IO
    stands in for NIL. *)
Definition requested_type (io : IO.t) (ty : DataType.t) : DataType.t :=
  if DataType.eqb ty DataType.NIL then IO._default_type io else ty.

(** A call into the engine or a diagnostic: not a signal of the IO. *)
Definition engine_event (e : Event) : bool :=
  match e with
  | EvRegister _ _ _ | EvUnregister _ | EvError _ => true
  | _ => false
  end.

(** [s'] is [s] after engine calls and diagnostics only. *)
Definition only_engine_events (s s' : Session.t) : Prop :=
  exists evs, Session.trace s' = Session.trace s ++ evs /\ forallb engine_event evs = true.

(** The backend answers every registration, with a port or with a
    null pointer: it does not throw. *)
Definition answers_all (s : Session.t) : Prop :=
  forall ty portname, Session.backend_register s ty portname <> Failure.

(** The ports of type [ty] in [ps'] are the first [n] of those in
    [ps], followed by ports that the engine handed out from [s] on. *)
Definition leading_ports_kept (n : N) (ty : DataType.t) (ps ps' : PortSet.t)
    (s : Session.t) : Prop :=
  exists extra,
    PortSet.of_type ps' ty = firstn (N.to_nat n) (PortSet.of_type ps ty) ++ extra /\
    Forall (fun p => Session.next_port s <= p) extra.

(** The number of audio ports that a legacy node asks for, for an IO
    of direction [dir]. *)
Definition legacy_audio_count (dir : Direction) (node : XML.node) : N :=
  match dir with
  | Input =>
      match XML.property node "inputs", XML.property node "input-connection" with
      | Some v, _ => Str.count_char "{" v
      | None, Some _ => 1%N
      | None, None => 0%N
      end
  | Output =>
      match XML.property node "outputs", XML.property node "output-connection" with
      | Some v, _ => Str.count_char "{" v
      | None, Some _ => 2%N
      | None, None => 0%N
      end
  end.

(** Every character of the name is a digit; so it is for the empty
    name. *)
Definition all_digits (name : string) : bool :=
  forallb (fun c => Str.has_char c IO.digits) (list_ascii_of_string name).

(** A bundle name that [find_possible_bundle] can work on: the session
    knows a bundle of that name, or the name has a character that is
    no digit. *)
Definition searchable (s : Session.t) (name : string) : Prop :=
  Session.bundle_by_name s name <> None \/ all_digits name = false.

(** The bundle names that [get_port_counts] can read from the node
    (its "connection" and the names of its "Bundle" children) are
    there and searchable. *)
Definition bundles_searchable (s : Session.t) (node : XML.node) : Prop :=
  (forall v, XML.property node "connection" = Some v -> searchable s v) /\
  Forall (fun c => XML.name c = "Bundle" ->
                   exists v, XML.property c "name" = Some v /\ searchable s v)
         (XML.children node).

(** A message of the IO, not a call or a signal. *)
Definition diagnostic (e : Event) : bool :=
  match e with
  | EvError _ | EvInfo _ => true
  | _ => false
  end.

(** [s1] is [s] after diagnostics only. *)
Definition after_diagnostics (s s1 : Session.t) : Prop :=
  exists msgs,
    s1 = fold_left (fun acc e => Session.log e acc) msgs s /\
    forallb diagnostic msgs = true.

(** A conversion in the manner of [sscanf]: a leading blank or plus
    sign is skipped and decimal digits are read. *)
Fixpoint read_digits (str : string) (acc : Z) : Z :=
  match str with
  | String c rest =>
      if Str.has_char c IO.digits
      then read_digits rest (10 * acc + (Z.of_nat (nat_of_ascii c) - 48))%Z
      else acc
  | EmptyString => acc
  end.

Definition read_int (str : string) : Z :=
  match str with
  | String c rest =>
      if Ascii.eqb c " " || Ascii.eqb c "+" then read_digits rest 0 else read_digits str 0
  | EmptyString => 0%Z
  end.

(** A session that knows one bundle, "in 1" with four audio channels,
    and in which the ports of [Example.stereo_io] live. *)
Definition bundled_session : Session.t :=
  Session.mk 256 "ardour" (fun _ _ => Granted) (fun _ _ => true) (fun _ _ => true)
             (fun name => if String.eqb name "in 1" then Some (ChanCount.mk 4 0) else None)
             read_int false false
             (Session.port Example.stereo_session) 2 false [].

(** A state node that names a bundle the session does not know. *)
Definition bundle_node : XML.node :=
  XML.Node "IO" [("name", "Audio 1"); ("direction", "Input")]
           [XML.Node "Bundle" [("name", "in 5")] []].

(** [a] has no more ports of either type than [b]. *)
Definition count_le (a b : ChanCount.t) : Prop :=
  (ChanCount.n_audio a <= ChanCount.n_audio b)%N /\
  (ChanCount.n_midi a <= ChanCount.n_midi b)%N.

(** The ports of [ps] are still in [ps'], each type's in place, and
    what [ps'] has more comes after them. *)
Definition ports_extended (ps ps' : PortSet.t) : Prop :=
  (exists extra, PortSet.audio ps' = PortSet.audio ps ++ extra) /\
  (exists extra, PortSet.midi ps' = PortSet.midi ps ++ extra).

(** What names an IO: its name, identity, direction, default type,
    kind and pretty-name prefix. *)
Definition same_identity (a b : IO.t) : Prop :=
  IO._name a = IO._name b /\ IO.id a = IO.id b /\
  IO._direction a = IO._direction b /\ IO._default_type a = IO._default_type b /\
  IO._sendish a = IO._sendish b /\ IO._pretty_name_prefix a = IO._pretty_name_prefix b.

(** The pieces of [x] between its commas: one more than it has
    commas. *)
Fixpoint fields (x : string) : list string :=
  match x with
  | EmptyString => [EmptyString]
  | String a r =>
      if Ascii.eqb a ","
      then EmptyString :: fields r
      else match fields r with
           | h :: t => String a h :: t
           | [] => [String a EmptyString]
           end
  end.

(** What the parsers keep of the pieces: all but an empty last one. *)
Definition without_empty_last (l : list string) : list string :=
  if String.eqb (last l "") "" then removelast l else l.

(** A "Port" child without a name. *)
Definition nameless_port (c : XML.node) : Prop :=
  XML.name c = "Port" /\ XML.property c "name" = None.

(** What [set_name_in_state] makes of a child that is not a nameless
    port. *)
Definition renamed_in_state (new_name : string) (c : XML.node) : XML.node :=
  if String.eqb (XML.name c) "Port"
  then match XML.property c "name" with
       | Some old_name =>
           XML.set_property c "name"
             (new_name ++ "/" ++
              match Str.find_char_from "/" 0 old_name with
              | Some slash => Str.substr_from (slash + 1) old_name
              | None => Str.substr_from 0 old_name
              end)
       | None => c
       end
  else c.

(** The pretty name of the [k]-th port (from 0) of an IO with the
    prefix [prefix]. *)
Definition pretty_port_name (prefix : string) (dir : Direction) (k : nat) : string :=
  (prefix ++ "/" ++ (if Direction_eqb dir Output then "Out" else "In")
   ++ " " ++ fmt_u (N.of_nat (S k)))%string.

(** An observer of [PortCountChanging] that answers 1. *)
Definition vetoing (io0 : IO.t) : IO.t := subscribe io0 (fun _ => 1%Z).

(** A backend that hands out ports but makes no connection. *)
Definition unconnectable_session : Session.t :=
  Session.mk 256 "ardour" (fun _ _ => Granted) (fun _ _ => false) (fun _ _ => true)
             (fun _ => None) (fun _ => 0%Z) false false
             (fun _ => Port.fresh "" DataType.NIL Input) 0 false [].



(** The output of a MIDI send whose name has a colon. *)
Definition send_io : IO.t :=
  IO.create 4 "46" Example.session "Bus:1" Output DataType.MIDI true.

(** A state node with a port child named after its IO, one without a
    slash in its name, and a child that is not a port. *)
Definition template_node : XML.node :=
  XML.Node "IO" [("name", "Audio 1"); ("direction", "Input")]
           [XML.Node "Port" [("type", "audio"); ("name", "Audio 1/audio_in 1")] [];
            XML.Node "Port" [("type", "audio"); ("name", "click")] [];
            XML.Node "Panner" [] []].

(* ================================================================== *)
(** * Properties *)

Unset Implicit Arguments.


(** ** Basic facts about the data model *)

Lemma DataType_eqb_eq a b : DataType.eqb a b = true <-> a = b.
Proof. destruct a, b; simpl; split; congruence. Qed.

Lemma ChanCount_eqb_eq a b : ChanCount.eqb a b = true <-> a = b.
Proof.
  destruct a, b; unfold ChanCount.eqb; simpl.
  rewrite andb_true_iff, !N.eqb_eq. split.
  - intros [-> ->]; reflexivity.
  - intros H; injection H; auto.
Qed.

Lemma ChanCount_eqb_refl a : ChanCount.eqb a a = true.
Proof. now apply ChanCount_eqb_eq. Qed.

Lemma ChanCount_ext a b :
  ChanCount.get a DataType.AUDIO = ChanCount.get b DataType.AUDIO ->
  ChanCount.get a DataType.MIDI = ChanCount.get b DataType.MIDI -> a = b.
Proof. destruct a, b; simpl; congruence. Qed.

Lemma XML_lookup_assign_same k v l : XML.lookup k (XML.assign k v l) = Some v.
Proof.
  induction l as [|[k' v'] l IH]; simpl.
  - now rewrite String.eqb_refl.
  - destruct (String.eqb k' k) eqn:E; simpl; rewrite E; auto.
Qed.

Lemma XML_lookup_assign_other k k' v l :
  k <> k' -> XML.lookup k' (XML.assign k v l) = XML.lookup k' l.
Proof.
  intros Hne. induction l as [|[k0 v0] l IH]; simpl.
  - destruct (String.eqb k k') eqn:E; auto.
    apply String.eqb_eq in E; contradiction.
  - destruct (String.eqb k0 k) eqn:E; simpl.
    + apply String.eqb_eq in E; subst k0.
      destruct (String.eqb k k') eqn:E'; auto.
      apply String.eqb_eq in E'; contradiction.
    + now rewrite IH.
Qed.

(** ** The fast path of ensure_ports *)

(** C10.  [ensure_ports] called with the current port count and with
    [clear] false returns 0 at once and has no effect: the IO (its RCU
    manager included, so no writer copy was committed and the snapshot
    is the same) and the session (its trace of calls and signals
    included, so neither [changed] nor [PortCountChanged] was emitted)
    are returned as they were. *)
Theorem ensure_ports_same_count_is_noop (src : nat) (io : IO.t) (s : Session.t) :
  IO.ensure_ports (IO.n_ports io) false src io s = Some (0%Z, io, s).
Proof.
  unfold IO.ensure_ports.
  now rewrite ChanCount_eqb_refl.
Qed.

(** ** The MIDI cap of add_port *)

Lemma can_add_port_midi (io : IO.t) :
  IO.can_add_port io DataType.MIDI = true <->
  ChanCount.n_midi (IO.n_ports io) = 0%N.
Proof.
  unfold IO.can_add_port, IO.n_ports.
  rewrite N.ltb_lt. lia.
Qed.

(** C6.  [can_add_port (MIDI)] holds exactly when the IO has no MIDI
    port; on an IO that has one (or more), [add_port] with type MIDI
    returns -1 and leaves the IO and the session as they were: nothing
    was registered, committed or emitted. *)
Theorem add_port_midi_cap (destination : string) (src : nat) (io : IO.t) (s : Session.t) :
  (IO.can_add_port io DataType.MIDI = true <->
   ChanCount.n_midi (IO.n_ports io) = 0%N) /\
  ((1 <= ChanCount.n_midi (IO.n_ports io))%N ->
   IO.add_port destination src DataType.MIDI io s = Some ((-1)%Z, io, s)).
Proof.
  split; [apply can_add_port_midi|].
  intros Hmidi. unfold IO.add_port. simpl DataType.eqb. cbv iota.
  destruct (IO.can_add_port io DataType.MIDI) eqn:Hcan; [|reflexivity].
  apply can_add_port_midi in Hcan. lia.
Qed.

(** ** The guards of connect and disconnect *)

Lemma length_zero_iff_empty (x : string) : (String.length x =? 0)%nat = true <-> x = "".
Proof.
  destruct x; simpl; split; intros H; try reflexivity; discriminate.
Qed.

(** C8.  With an empty target name or a null port, [connect] and
    [disconnect] return 0 and change nothing.  With a target name and
    a port that is not in the current PortSet, both return -1 and
    change nothing: the backend is not called and no signal is
    emitted (the session, trace included, is returned as it was). *)
Theorem connect_disconnect_guards (our_port : option Port.ptr) (other_port : string)
    (src : nat) (io : IO.t) (s : Session.t) :
  (other_port = "" \/ our_port = None ->
   IO.connect our_port other_port src io s = (0%Z, io, s) /\
   IO.disconnect our_port other_port src io s = (0%Z, io, s)) /\
  (forall p, our_port = Some p -> other_port <> "" ->
   PortSet.contains (IO.ports io) p = false ->
   IO.connect our_port other_port src io s = ((-1)%Z, io, s) /\
   IO.disconnect our_port other_port src io s = ((-1)%Z, io, s)).
Proof.
  split.
  - intros [-> | ->]; unfold IO.connect, IO.disconnect; simpl.
    + split; reflexivity.
    + rewrite orb_true_r. split; reflexivity.
  - intros p -> Hne Hnot. unfold IO.connect, IO.disconnect.
    destruct (String.length other_port =? 0)%nat eqn:Hlen.
    + apply length_zero_iff_empty in Hlen. contradiction.
    + simpl. rewrite Hnot. simpl. split; reflexivity.
Qed.

(** ** Latency *)

Section Latency.
Variable s : Session.t.
Variable f : Port.ptr -> N.

Let step (max_latency : Z) (p : Port.ptr) : Z :=
  if (Z.of_N (f p) >? max_latency)%Z then Z.of_N (f p) else max_latency.

Lemma max_loop (l : list Port.ptr) (m : Z) :
  (0 <= m)%Z ->
  fold_left step l m = Z.max m (Z.of_N (max_over f l)).
Proof.
  revert m. induction l as [|p l IH]; intros m Hm; simpl.
  - lia.
  - unfold step at 2.
    destruct (Z.gtb_spec (Z.of_N (f p)) m); rewrite IH; lia.
Qed.
End Latency.

Lemma private_scan_connected s pb l m :
  any_connected s l = true -> IO.private_scan s pb l m = (true, 0%Z).
Proof.
  revert m. induction l as [|p l IH]; intros m; simpl; [discriminate|].
  destruct (Port.connected (Session.port s p)); simpl; auto.
Qed.

Lemma private_scan_unconnected s pb l m :
  (0 <= m)%Z ->
  any_connected s l = false ->
  IO.private_scan s pb l m =
  (false, Z.max m (Z.of_N (max_over (fun p => Port.private_latency_max (Session.port s p) pb) l))).
Proof.
  revert m. induction l as [|p l IH]; intros m Hm; simpl.
  - intros _. f_equal. lia.
  - destruct (Port.connected (Session.port s p)); simpl; [discriminate|].
    intros H.
    destruct (Z.gtb_spec (Z.of_N (Port.private_latency_max (Session.port s p) pb)) m);
      (rewrite IH; [f_equal; lia | lia | exact H]).
Qed.

Lemma latency_is_max io s :
  IO.latency io s =
  Z.of_N (max_over (fun p => Port.private_latency_max (Session.port s p)
                               (Direction_eqb (IO._direction io) Output))
                   (PortSet.all (IO.ports io))).
Proof.
  unfold IO.latency.
  rewrite (max_loop (fun p => Port.private_latency_max (Session.port s p)
                                (Direction_eqb (IO._direction io) Output)))
    by lia.
  lia.
Qed.

(** C3.  [connected_latency (for_playback)] is, when some port of the
    IO is connected, the maximum over all its ports of the upper bound
    of the connected latency range (no private latency enters the
    value); when no port is connected it is the maximum over all ports
    of the upper bound of the private latency range, which is what
    [latency ()] returns when [for_playback] is the side of the IO;
    for an IO without ports it is 0. *)
Theorem connected_latency_spec (for_playback : bool) (io : IO.t) (s : Session.t) :
  IO.connected_latency for_playback io s =
    Z.of_N (if any_connected s (PortSet.all (IO.ports io))
            then max_over (fun p => Port.connected_latency_max (Session.port s p) for_playback)
                          (PortSet.all (IO.ports io))
            else max_over (fun p => Port.private_latency_max (Session.port s p) for_playback)
                          (PortSet.all (IO.ports io))) /\
  (any_connected s (PortSet.all (IO.ports io)) = false ->
   for_playback = Direction_eqb (IO._direction io) Output ->
   IO.connected_latency for_playback io s = IO.latency io s) /\
  (PortSet.all (IO.ports io) = [] -> IO.connected_latency for_playback io s = 0%Z).
Proof.
  assert (Hmain :
    IO.connected_latency for_playback io s =
    Z.of_N (if any_connected s (PortSet.all (IO.ports io))
            then max_over (fun p => Port.connected_latency_max (Session.port s p) for_playback)
                          (PortSet.all (IO.ports io))
            else max_over (fun p => Port.private_latency_max (Session.port s p) for_playback)
                          (PortSet.all (IO.ports io)))).
  { unfold IO.connected_latency.
    destruct (any_connected s (PortSet.all (IO.ports io))) eqn:Hc.
    - rewrite private_scan_connected by exact Hc.
      rewrite (max_loop (fun p => Port.connected_latency_max (Session.port s p) for_playback))
        by lia.
      lia.
    - rewrite private_scan_unconnected; [lia | lia | exact Hc]. }
  split; [exact Hmain|]. split.
  - intros Hc ->. rewrite Hmain, Hc. symmetry. apply latency_is_max.
  - intros Hnil. rewrite Hmain, Hnil. reflexivity.
Qed.

(** ** The bundle after a structural change *)

Lemma fmt_d_of_N (n : N) : fmt_d (Z.of_N n) = fmt_u n.
Proof.
  unfold fmt_d, fmt_u. destruct n as [|p]; simpl; [reflexivity|].
  unfold NilZero.string_of_uint.
  pose proof (DecimalPos.Unsigned.to_uint_nonnil p) as H.
  destruct (Pos.to_uint p); congruence.
Qed.

Lemma to_int_small (z : Z) : (0 <= z < 2147483648)%Z -> to_int z = z.
Proof.
  intros H. unfold to_int.
  rewrite Z.mod_small by lia. lia.
Qed.

Lemma u32_incr_small (n : N) : (n < 4294967295)%N -> u32_incr n = (n + 1)%N.
Proof. intros H. unfold u32_incr. apply N.mod_small. lia. Qed.

Lemma set_nth_last (l : list Bundle.Channel) c f :
  Bundle.set_nth (l ++ [c]) (length l) f = l ++ [f c].
Proof. induction l; simpl; congruence. Qed.

Lemma setup_channel_spec io s ty n b j :
  IO.setup_channel io s ty n (length (Bundle.channel b), b) j =
  (S (length (Bundle.channel b)),
   Bundle.mk (Bundle.name b) (Bundle.ports_are_inputs b)
             (Bundle.channel b ++ [channel_of_port io s ty n j])
             (Bundle.signals_suspended b) (Bundle.changes_emitted b)).
Proof.
  unfold IO.setup_channel, channel_of_port.
  destruct (PortSet.port_of_type (IO.ports io) ty j) as [p|]; simpl.
  - unfold Bundle.set_port, Bundle.add_channel; simpl.
    now rewrite set_nth_last.
  - unfold Bundle.add_channel. reflexivity.
Qed.

Lemma setup_channel_loop io s ty n js : forall b,
  fold_left (IO.setup_channel io s ty n) js (length (Bundle.channel b), b) =
  (length (Bundle.channel b) + length js,
   Bundle.mk (Bundle.name b) (Bundle.ports_are_inputs b)
             (Bundle.channel b ++ map (channel_of_port io s ty n) js)
             (Bundle.signals_suspended b) (Bundle.changes_emitted b)).
Proof.
  induction js as [|j js IH]; intros b; cbn [fold_left map length].
  - rewrite app_nil_r, Nat.add_0_r. now destruct b.
  - rewrite setup_channel_spec.
    set (b1 := Bundle.mk _ _ _ _ _).
    replace (S (length (Bundle.channel b))) with (length (Bundle.channel b1))
      by (subst b1; simpl; rewrite length_app; simpl; lia).
    rewrite IH. subst b1; simpl. rewrite length_app, <- app_assoc. simpl.
    f_equal. lia.
Qed.

Lemma setup_channels_spec io s ty b :
  IO.setup_channels io s (length (Bundle.channel b), b) ty =
  (length (Bundle.channel b) + length (channels_of_type io s ty),
   Bundle.mk (Bundle.name b) (Bundle.ports_are_inputs b)
             (Bundle.channel b ++ channels_of_type io s ty)
             (Bundle.signals_suspended b) (Bundle.changes_emitted b)).
Proof.
  unfold IO.setup_channels. rewrite setup_channel_loop.
  unfold channels_of_type. now rewrite length_map.
Qed.

Lemma setup_bundle_channels io s :
  exists b, IO._bundle (IO.setup_bundle io s) = Some b /\
    Bundle.channel b =
      channels_of_type io s DataType.AUDIO ++ channels_of_type io s DataType.MIDI.
Proof.
  unfold IO.setup_bundle.
  set (b3 := Bundle.set_name _ _).
  assert (H3 : Bundle.channel b3 = []) by reflexivity.
  unfold DataType.all. cbn [fold_left].
  change 0%nat with (@length Bundle.Channel []). rewrite <- H3.
  rewrite setup_channels_spec.
  set (b4 := Bundle.mk _ _ _ _ _).
  replace (length (Bundle.channel b3) + length (channels_of_type io s DataType.AUDIO))
    with (length (Bundle.channel b4))
    by (subst b4; cbn [Bundle.channel]; rewrite length_app; reflexivity).
  rewrite setup_channels_spec.
  eexists. split; [reflexivity|].
  subst b4. cbn [Bundle.channel Bundle.resume_signals]. now rewrite H3.
Qed.

Lemma seq_0_N_of_nat (n : nat) : seq 0 (N.to_nat (N.of_nat n)) = seq 0 n.
Proof. now rewrite Nat2N.id. Qed.

Lemma numeric_channel_name (c : N) :
  (c < 2147483647)%N ->
  fmt_d (to_int (Z.of_N (u32_incr c))) = fmt_u (c + 1)%N.
Proof.
  intros H. rewrite u32_incr_small by lia.
  rewrite to_int_small by lia. apply fmt_d_of_N.
Qed.

Lemma audio_channel_names_default io s :
  IO._audio_channel_names io = [] ->
  (N.of_nat (length (PortSet.audio (IO.ports io))) < 2147483648)%N ->
  map Bundle.ch_name (channels_of_type io s DataType.AUDIO) =
  display_names (length (PortSet.audio (IO.ports io))).
Proof.
  intros Hnames Hsmall. unfold channels_of_type.
  cbn [ChanCount.get PortSet.count ChanCount.n_audio].
  rewrite seq_0_N_of_nat, map_map.
  cbn [channel_of_port Bundle.ch_name].
  generalize dependent (length (PortSet.audio (IO.ports io))).
  intros [|[|[|len]]] Hsmall.
  - reflexivity.
  - cbn [seq map]. unfold IO.bundle_channel_name. rewrite Hnames. reflexivity.
  - cbn [seq map]. unfold IO.bundle_channel_name. rewrite Hnames. reflexivity.
  - unfold display_names, numeric_names.
    apply map_ext_in. intros j Hj. apply in_seq in Hj.
    unfold IO.bundle_channel_name. rewrite Hnames.
    cbn [length].
    replace (N.of_nat (S (S (S len))) =? N.of_nat 0)%N with false
      by (symmetry; apply N.eqb_neq; lia).
    replace (N.of_nat (S (S (S len))) =? 1)%N with false by (symmetry; apply N.eqb_neq; lia).
    replace (N.of_nat (S (S (S len))) =? 2)%N with false by (symmetry; apply N.eqb_neq; lia).
    cbn [andb].
    rewrite numeric_channel_name by lia.
    f_equal. lia.
Qed.

Lemma midi_channel_names io s :
  (N.of_nat (length (PortSet.midi (IO.ports io))) < 2147483648)%N ->
  map Bundle.ch_name (channels_of_type io s DataType.MIDI) =
  numeric_names (length (PortSet.midi (IO.ports io))).
Proof.
  intros Hsmall. unfold channels_of_type.
  cbn [ChanCount.get PortSet.count ChanCount.n_midi].
  rewrite seq_0_N_of_nat, map_map.
  cbn [channel_of_port Bundle.ch_name].
  unfold numeric_names. apply map_ext_in. intros j Hj. apply in_seq in Hj.
  cbn [IO.bundle_channel_name].
  rewrite numeric_channel_name by lia.
  f_equal. lia.
Qed.

Lemma channels_of_type_length io s ty :
  length (channels_of_type io s ty) = length (PortSet.of_type (IO.ports io) ty).
Proof.
  unfold channels_of_type. rewrite length_map, length_seq.
  destruct ty; simpl; now rewrite ?Nat2N.id.
Qed.

Lemma setup_bundle_describes io s : bundle_describes_ports (IO.setup_bundle io s).
Proof.
  destruct (setup_bundle_channels io s) as (b & Hb & Hch).
  exists b. split; [exact Hb|].
  assert (Hports : IO.ports (IO.setup_bundle io s) = IO.ports io).
  { unfold IO.setup_bundle. destruct (fold_left _ _ _). reflexivity. }
  assert (Hnames : IO._audio_channel_names (IO.setup_bundle io s) = IO._audio_channel_names io).
  { unfold IO.setup_bundle. destruct (fold_left _ _ _). reflexivity. }
  rewrite Hports, Hnames. split.
  - unfold Bundle.nchannels. rewrite Hch, length_app, !channels_of_type_length.
    unfold PortSet.num_ports, ChanCount.n_total, PortSet.count. simpl. lia.
  - intros Hempty Hsmall. rewrite Hch, map_app.
    unfold PortSet.num_ports, ChanCount.n_total, PortSet.count in Hsmall. simpl in Hsmall.
    rewrite audio_channel_names_default by (assumption || lia).
    rewrite midi_channel_names by lia. reflexivity.
Qed.

(** *** [changed] tells whether the port set was touched *)




Lemma ports_setup_bundle io s : IO.ports (IO.setup_bundle io s) = IO.ports io.
Proof. unfold IO.setup_bundle. destruct (fold_left _ _ _). reflexivity. Qed.




(** ** ensure_ports reaches the requested count *)

(** *** Removing the last port of a type *)

Lemma remove_first_absent x l : ~ In x l -> PortSet.remove_first x l = None.
Proof.
  induction l as [|a l IH]; simpl; intros H; [reflexivity|].
  destruct (Nat.eqb_spec x a) as [->|_]; [tauto|].
  rewrite IH by tauto. reflexivity.
Qed.

Lemma remove_first_last x l : ~ In x l -> PortSet.remove_first x (l ++ [x]) = Some l.
Proof.
  induction l as [|a l IH]; simpl; intros H.
  - now rewrite Nat.eqb_refl.
  - destruct (Nat.eqb_spec x a) as [->|_]; [tauto|].
    rewrite IH by tauto. reflexivity.
Qed.

Lemma remove_last_of_type ps ty l x :
  ty <> DataType.NIL ->
  NoDup (PortSet.all ps) ->
  PortSet.of_type ps ty = l ++ [x] ->
  PortSet.remove ps x = (true, with_type ps ty l).
Proof.
  intros Hty Hnd Hl. destruct ps as [a m]. unfold PortSet.all in Hnd. simpl in *.
  destruct ty; simpl in *; [| |congruence]; subst; unfold PortSet.remove; simpl.
  - rewrite remove_first_last; [reflexivity|].
    apply NoDup_app_remove_r in Hnd. apply NoDup_remove_2 in Hnd.
    now rewrite app_nil_r in Hnd.
  - rewrite remove_first_absent.
    + rewrite remove_first_last; [reflexivity|].
      apply NoDup_app_remove_l in Hnd. apply NoDup_remove_2 in Hnd.
      now rewrite app_nil_r in Hnd.
    + intros Hin. rewrite app_assoc in Hnd. apply NoDup_remove_2 in Hnd.
      apply Hnd. rewrite app_nil_r. apply in_or_app. now left.
Qed.

Lemma of_type_with_type ps ty l : ty <> DataType.NIL -> PortSet.of_type (with_type ps ty l) ty = l.
Proof. destruct ty; simpl; congruence. Qed.

Lemma of_type_with_type_other ps ty ty' l :
  ty' <> ty -> PortSet.of_type (with_type ps ty l) ty' = PortSet.of_type ps ty'.
Proof. destruct ty, ty'; simpl; congruence. Qed.

Lemma with_type_same ps ty : with_type ps ty (PortSet.of_type ps ty) = ps.
Proof. destruct ps, ty; reflexivity. Qed.

Lemma with_type_twice ps ty l l' : with_type (with_type ps ty l) ty l' = with_type ps ty l'.
Proof. destruct ty; reflexivity. Qed.

Lemma NoDup_app_inv (A : Type) (l1 l2 : list A) :
  NoDup (l1 ++ l2) ->
  NoDup l1 /\ NoDup l2 /\ (forall a, In a l1 -> ~ In a l2).
Proof.
  induction l1 as [|x l1 IH]; simpl; intros H.
  - repeat split; [constructor | exact H | tauto].
  - inversion H as [|? ? Hx Hnd]; subst.
    destruct (IH Hnd) as (H1 & H2 & H3).
    repeat split; auto.
    + constructor; auto. intros Hin. apply Hx. apply in_or_app. now left.
    + intros a [<-|Ha] Hin.
      * apply Hx. apply in_or_app. now right.
      * exact (H3 a Ha Hin).
Qed.

Lemma all_with_type_prefix ps ty l :
  ty <> DataType.NIL ->
  forall l', PortSet.of_type ps ty = l ++ l' ->
  NoDup (PortSet.all ps) ->
  NoDup (PortSet.all (with_type ps ty l)) /\ incl (PortSet.all (with_type ps ty l)) (PortSet.all ps).
Proof.
  intros Hty l' Hl Hnd. destruct ps as [a m]. unfold PortSet.all in *.
  destruct ty; simpl in *; [| |congruence]; subst.
  - split.
    + rewrite <- app_assoc in Hnd.
      apply NoDup_app_inv in Hnd. destruct Hnd as (Hl & Hr & Hd).
      apply NoDup_app_inv in Hr. destruct Hr as (Hl' & Hm & Hd').
      apply NoDup_app; auto.
      intros x Hx Hm'. apply (Hd x Hx). apply in_or_app. now right.
    + intros x Hx. apply in_app_or in Hx. apply in_or_app.
      destruct Hx; [left; apply in_or_app; now left | now right].
  - split.
    + rewrite app_assoc in Hnd. now apply NoDup_app_remove_r in Hnd.
    + intros x Hx. apply in_app_or in Hx. apply in_or_app.
      destruct Hx; [now left | right; apply in_or_app; now left].
Qed.

(** *** What the operations keep of the session *)

Lemma engine_kept_refl s : engine_kept s s.
Proof. split; auto. Qed.

Lemma engine_kept_trans s1 s2 s3 : engine_kept s1 s2 -> engine_kept s2 s3 -> engine_kept s1 s3.
Proof. intros [H1 H2] [H3 H4]. split; [congruence | lia]. Qed.

Lemma grants_all_kept s s' : engine_kept s s' -> grants_all s -> grants_all s'.
Proof. intros [H _] Hg ty nm. rewrite H. apply Hg. Qed.

Lemma Forall_lt_le (l : list nat) a b : a <= b -> Forall (fun p => p < a) l -> Forall (fun p => p < b) l.
Proof. intros Hab. apply Forall_impl. intros; lia. Qed.

Lemma ports_wf_kept ps s s' : engine_kept s s' -> ports_wf ps s -> ports_wf ps s'.
Proof. intros [_ H] [Hnd Hlt]. split; [exact Hnd|]. eapply Forall_lt_le; eauto. Qed.

Lemma disconnect_all_loop_kept l : forall s,
  engine_kept s (fold_left (fun acc q => Session.port_disconnect_all q acc) l s).
Proof.
  induction l as [|q l IH]; intros s; simpl; [apply engine_kept_refl|].
  eapply engine_kept_trans; [|apply IH]. split; simpl; auto.
Qed.

(** *** The two loops of [ensure_ports_locked] *)

Lemma count_of_type ps ty :
  ty <> DataType.NIL ->
  ChanCount.get (PortSet.count ps) ty = N.of_nat (length (PortSet.of_type ps ty)).
Proof. destruct ty; simpl; congruence. Qed.

Lemma nth_error_last (A : Type) (l : list A) (x : A) : nth_error (l ++ [x]) (length l) = Some x.
Proof. induction l; simpl; auto. Qed.

Lemma remove_unused_spec ty n :
  ty <> DataType.NIL ->
  forall i ps s ch,
    NoDup (PortSet.all ps) ->
    length (PortSet.of_type ps ty) = i ->
    exists s' ch',
      IO.remove_unused ty i n ps s ch =
        Some (with_type ps ty (firstn (N.to_nat n) (PortSet.of_type ps ty)), s', ch') /\
      engine_kept s s'.
Proof.
  intros Hty. induction i as [|i IH]; intros ps s ch Hnd Hlen.
  - exists s, ch. split; [|apply engine_kept_refl]. simpl.
    apply length_zero_iff_nil in Hlen. rewrite Hlen, firstn_nil, <- Hlen.
    now rewrite with_type_same.
  - cbn [IO.remove_unused].
    destruct (N.ltb_spec n (N.of_nat (S i))) as [Hlt|Hge].
    + destruct (@exists_last _ (PortSet.of_type ps ty)) as (l0 & x & Hl).
      { intros Hnil. rewrite Hnil in Hlen. discriminate. }
      assert (Hl0 : length l0 = i).
      { rewrite Hl, length_app in Hlen. simpl in Hlen. lia. }
      unfold PortSet.port_of_type. rewrite Hl, <- Hl0, nth_error_last.
      rewrite (remove_last_of_type ps ty l0 x Hty Hnd Hl). cbn [snd].
      destruct (all_with_type_prefix ps ty l0 Hty [x] Hl Hnd) as (Hnd1 & _).
      destruct (IH (with_type ps ty l0) (Session.unregister_port x s) true Hnd1)
        as (s' & ch' & Heq & Hk).
      { now rewrite of_type_with_type. }
      exists s', ch'. split.
      * rewrite Hl0, Heq, of_type_with_type, with_type_twice by assumption.
        rewrite firstn_app. replace (N.to_nat n - length l0) with 0 by lia.
        now rewrite firstn_O, app_nil_r.
      * eapply engine_kept_trans; [|exact Hk]. split; simpl; auto.
    + exists s, ch. split; [|apply engine_kept_refl].
      rewrite firstn_all2 by lia. now rewrite with_type_same.
Qed.

Lemma build_legal_port_name_some io s ps ty :
  ty <> DataType.NIL -> exists portname, IO.build_legal_port_name io s ps ty = Some portname.
Proof.
  intros Hty. unfold IO.build_legal_port_name.
  destruct ty; simpl; [eexists; reflexivity | eexists; reflexivity | congruence].
Qed.

Lemma register_for_granted io s ty portname :
  grants_all s ->
  exists s1,
    IO.register_for io ty portname s = Some (Some (Session.next_port s), s1) /\
    Port.type (Session.port s1 (Session.next_port s)) = ty /\
    Session.backend_register s1 = Session.backend_register s /\
    Session.next_port s1 = S (Session.next_port s).
Proof.
  intros Hg. unfold IO.register_for, Session.register_port.
  rewrite Hg.
  destruct (IO._direction io); eexists; (split; [reflexivity|]); simpl;
    rewrite Nat.eqb_refl; auto.
Qed.

Lemma add_of_type ps ty x :
  PortSet.add ps ty x = with_type ps ty (PortSet.of_type ps ty ++ [x]).
Proof. destruct ty, ps; reflexivity. Qed.

Lemma ports_wf_add ps s s1 ty :
  ty <> DataType.NIL ->
  ports_wf ps s ->
  Session.next_port s1 = S (Session.next_port s) ->
  ports_wf (with_type ps ty (PortSet.of_type ps ty ++ [Session.next_port s])) s1.
Proof.
  intros Hty [Hnd Hlt] Hnext. destruct ps as [a m]. unfold ports_wf, PortSet.all in *.
  rewrite Hnext.
  assert (Hfresh : ~ In (Session.next_port s) (a ++ m)).
  { intros Hin. rewrite Forall_forall in Hlt. apply Hlt in Hin. lia. }
  assert (Hlt' : Forall (fun p => p < S (Session.next_port s)) (a ++ m)).
  { eapply Forall_lt_le; [|exact Hlt]. lia. }
  destruct ty; simpl in *; [| |congruence].
  - split.
    + rewrite <- app_assoc. simpl.
      apply NoDup_app_inv in Hnd. destruct Hnd as (Ha & Hm & Hd).
      apply NoDup_app; auto.
      * constructor; auto. intros Hin. apply Hfresh. apply in_or_app. now right.
      * intros x Hx [<-|Hin]; [apply Hfresh; apply in_or_app; now left|].
        exact (Hd x Hx Hin).
    + apply Forall_app in Hlt'. destruct Hlt' as [H1 H2].
      apply Forall_app. split; auto. apply Forall_app. split; auto.
  - split.
    + rewrite app_assoc.
      apply NoDup_app; auto.
      * constructor; [tauto | constructor].
      * intros x Hx [<-|[]]. exact (Hfresh Hx).
    + rewrite app_assoc. apply Forall_app. split; auto.
Qed.

Lemma create_new_spec io ty n :
  ty <> DataType.NIL ->
  forall fuel ps s ch,
    grants_all s ->
    ports_wf ps s ->
    N.to_nat n - length (PortSet.of_type ps ty) <= fuel ->
    exists ps' s' ch',
      IO.create_new io fuel ty n ps s ch = Some (None, ps', s', ch') /\
      length (PortSet.of_type ps' ty) = Nat.max (length (PortSet.of_type ps ty)) (N.to_nat n) /\
      (forall ty', ty' <> ty -> PortSet.of_type ps' ty' = PortSet.of_type ps ty') /\
      engine_kept s s' /\ ports_wf ps' s'.
Proof.
  intros Hty. induction fuel as [|fuel IH]; intros ps s ch Hg Hwf Hfuel.
  - cbn [IO.create_new]. rewrite count_of_type by assumption.
    destruct (N.ltb_spec (N.of_nat (length (PortSet.of_type ps ty))) n); [lia|].
    exists ps, s, ch. repeat split; auto; try apply engine_kept_refl; try apply Hwf. lia.
  - cbn [IO.create_new]. rewrite count_of_type by assumption.
    destruct (N.ltb_spec (N.of_nat (length (PortSet.of_type ps ty))) n) as [Hlt|Hge].
    + destruct (build_legal_port_name_some io s ps ty Hty) as (portname & ->).
      destruct (register_for_granted io s ty portname Hg) as (s1 & -> & Htype & Hbr & Hnext).
      rewrite Htype, add_of_type.
      set (ps1 := with_type ps ty (PortSet.of_type ps ty ++ [Session.next_port s])).
      assert (Hk1 : engine_kept s s1) by (split; [exact Hbr | lia]).
      destruct (IH ps1 s1 true) as (ps' & s' & ch' & Heq & Hlen & Hother & Hk & Hwf').
      * eapply grants_all_kept; eauto.
      * apply ports_wf_add; auto.
      * subst ps1. rewrite of_type_with_type, length_app by assumption. simpl. lia.
      * exists ps', s', ch'. split; [exact Heq|].
        split; [|split; [|split; [|exact Hwf']]].
        -- rewrite Hlen. subst ps1. rewrite of_type_with_type, length_app by assumption.
           simpl. lia.
        -- intros ty' Hne. rewrite (Hother ty' Hne). subst ps1.
           now apply of_type_with_type_other.
        -- eapply engine_kept_trans; eauto.
    + exists ps, s, ch. repeat split; auto; try apply engine_kept_refl; try apply Hwf. lia.
Qed.

Lemma ensure_type_spec io ty count rest ps s ch :
  ty <> DataType.NIL -> grants_all s -> ports_wf ps s ->
  exists ps2 s2 ch2,
    IO.ensure_types io (ty :: rest) count ps s ch = IO.ensure_types io rest count ps2 s2 ch2 /\
    length (PortSet.of_type ps2 ty) = N.to_nat (ChanCount.get count ty) /\
    (forall ty', ty' <> ty -> PortSet.of_type ps2 ty' = PortSet.of_type ps ty') /\
    engine_kept s s2 /\ ports_wf ps2 s2.
Proof.
  intros Hty Hg [Hnd Hlt]. cbn [IO.ensure_types].
  set (n := ChanCount.get count ty).
  set (l := PortSet.of_type ps ty).
  destruct (remove_unused_spec ty n Hty (N.to_nat (ChanCount.get (PortSet.count ps) ty))
              ps s ch Hnd) as (s1 & ch1 & -> & Hk1).
  { rewrite count_of_type by assumption. now rewrite Nat2N.id. }
  fold l. set (ps1 := with_type ps ty (firstn (N.to_nat n) l)).
  destruct (all_with_type_prefix ps ty (firstn (N.to_nat n) l) Hty (skipn (N.to_nat n) l))
    as (Hnd1 & Hincl); [now rewrite firstn_skipn | exact Hnd |].
  assert (Hwf1 : ports_wf ps1 s1).
  { split; [exact Hnd1|]. apply Forall_forall. intros x Hx.
    rewrite Forall_forall in Hlt. apply Hincl, Hlt in Hx. destruct Hk1. lia. }
  destruct (create_new_spec io ty n Hty (N.to_nat n) ps1 s1 ch1)
    as (ps2 & s2 & ch2 & -> & Hlen & Hother & Hk2 & Hwf2); [| exact Hwf1 | lia |].
  { eapply grants_all_kept; eauto. }
  exists ps2, s2, ch2. split; [reflexivity|].
  split; [|split; [|split; [|exact Hwf2]]].
  - rewrite Hlen. subst ps1. rewrite of_type_with_type by assumption.
    rewrite length_firstn. lia.
  - intros ty' Hne. rewrite (Hother ty' Hne). subst ps1.
    now apply of_type_with_type_other.
  - eapply engine_kept_trans; eauto.
Qed.

Lemma ensure_types_spec io count ps s :
  grants_all s -> ports_wf ps s ->
  exists ps' s' ch',
    IO.ensure_types io DataType.all count ps s false = Some (None, ps', s', ch') /\
    PortSet.count ps' = count /\ engine_kept s s' /\ ports_wf ps' s'.
Proof.
  intros Hg Hwf. unfold DataType.all.
  destruct (ensure_type_spec io DataType.AUDIO count [DataType.MIDI] ps s false)
    as (ps1 & s1 & ch1 & -> & Hlen1 & Hother1 & Hk1 & Hwf1); [discriminate | assumption..|].
  destruct (ensure_type_spec io DataType.MIDI count [] ps1 s1 ch1)
    as (ps2 & s2 & ch2 & -> & Hlen2 & Hother2 & Hk2 & Hwf2);
    [discriminate | eapply grants_all_kept; eauto | assumption |].
  exists ps2, s2, ch2. split; [reflexivity|].
  split; [|split; [eapply engine_kept_trans; eauto | exact Hwf2]].
  apply ChanCount_ext; rewrite count_of_type by discriminate.
  - rewrite (Hother2 DataType.AUDIO) by discriminate. rewrite Hlen1. apply N2Nat.id.
  - rewrite Hlen2. apply N2Nat.id.
Qed.

Lemma ensure_ports_locked_spec count clear io s :
  grants_all s -> ports_wf (IO.ports io) s ->
  exists changed io' s',
    IO.ensure_ports_locked count clear io s = Some (0%Z, changed, io', s') /\
    IO.n_ports io' = count /\ engine_kept s s' /\ ports_wf (IO.ports io') s'.
Proof.
  intros Hg Hwf. unfold IO.ensure_ports_locked.
  destruct (ensure_types_spec io count (IO.ports io) s Hg Hwf)
    as (ps' & s1 & ch & -> & Hcount & Hk & Hwf').
  set (io1 := IO.commit io ps').
  set (out := if ch then _ else _).
  assert (Hout : IO.ports (fst out) = ps' /\ engine_kept s1 (snd out)).
  { subst out. destruct ch; split; try reflexivity.
    - split; simpl; auto.
    - apply engine_kept_refl. }
  destruct out as [io2 s2]. destruct Hout as [Hports Hk2]. cbn [fst snd] in Hports, Hk2.
  set (s3 := if clear then _ else s2).
  assert (Hk3 : engine_kept s2 s3).
  { subst s3. destruct clear; [apply disconnect_all_loop_kept | apply engine_kept_refl]. }
  assert (Hk' : engine_kept s s3) by (do 2 (eapply engine_kept_trans; eauto)).
  exists ch, io2, s3. split; [reflexivity|].
  unfold IO.n_ports. rewrite Hports.
  split; [exact Hcount|]. split; [exact Hk'|].
  eapply ports_wf_kept; [|exact Hwf'].
  eapply engine_kept_trans; eauto.
Qed.

Lemma ensure_ports_spec count clear src io s :
  grants_all s -> ports_wf (IO.ports io) s ->
  exists io' s',
    IO.ensure_ports count clear src io s = Some (0%Z, io', s') /\
    IO.n_ports io' = count /\ grants_all s' /\ ports_wf (IO.ports io') s'.
Proof.
  intros Hg Hwf. unfold IO.ensure_ports.
  destruct (ChanCount.eqb count (IO.n_ports io) && negb clear) eqn:Hfast.
  - apply andb_true_iff in Hfast. destruct Hfast as [Heq _].
    apply ChanCount_eqb_eq in Heq. exists io, s. auto.
  - destruct (ensure_ports_locked_spec count clear io s Hg Hwf)
      as (changed & io1 & s1 & -> & Hcount & Hk & Hwf1).
    cbn [Z.eqb negb].
    destruct changed; eexists _, _; (split; [reflexivity|]).
    + rewrite ports_setup_bundle. unfold IO.n_ports. rewrite ports_setup_bundle.
      split; [exact Hcount|]. split.
      * eapply grants_all_kept; [|exact Hg].
        eapply engine_kept_trans; [exact Hk|]. split; simpl; auto.
      * eapply ports_wf_kept; [|exact Hwf1]. split; simpl; auto.
    + split; [exact Hcount|]. split; [eapply grants_all_kept; eauto | exact Hwf1].
Qed.

(** C1.  For every sequence of [ensure_ports] calls on an IO, when the
    backend grants every registration (and the IO holds no port twice,
    all of them handed out by the engine): each call returns 0, and
    after each call the port count of the IO, per data type, is the
    count requested by that call. *)
Theorem ensure_ports_count_is_requested (calls : list (ChanCount.t * bool * nat))
    (io : IO.t) (s : Session.t) :
  grants_all s ->
  ports_wf (IO.ports io) s ->
  ensure_ports_run calls io s =
  map (fun call => Some (0%Z, fst (fst call))) calls.
Proof.
  revert io s. induction calls as [|[[count clear] src] calls IH]; intros io s Hg Hwf.
  - reflexivity.
  - cbn [ensure_ports_run map fst].
    destruct (ensure_ports_spec count clear src io s Hg Hwf)
      as (io' & s' & -> & Hcount & Hg' & Hwf').
    rewrite Hcount. f_equal. now apply IH.
Qed.

Lemma ensure_ports_count_is_requested_witness :
  ensure_ports_run
    [(ChanCount.mk 2 1, false, 0); (ChanCount.mk 0 0, true, 0); (ChanCount.mk 1 0, false, 0)]
    Example.stereo_io Example.stereo_session =
  [Some (0%Z, ChanCount.mk 2 1); Some (0%Z, ChanCount.mk 0 0); Some (0%Z, ChanCount.mk 1 0)].
Proof.
  apply (ensure_ports_count_is_requested
           [(ChanCount.mk 2 1, false, 0); (ChanCount.mk 0 0, true, 0);
            (ChanCount.mk 1 0, false, 0)]
           Example.stereo_io Example.stereo_session).
  - intros ty portname. reflexivity.
  - split.
    + repeat constructor; simpl; intuition discriminate.
    + repeat constructor.
Defined.

(** ** The bundle follows the ports *)





(** The scenario of the specification: two audio ports give the
    channels "L" and "R", bound to the two ports in order. *)
Example stereo_bundle_channels :
  option_map Bundle.channel (IO._bundle Example.stereo_io) =
  Some [Bundle.mkChannel "L" DataType.AUDIO ["ardour:Audio 1/audio_in 1"];
        Bundle.mkChannel "R" DataType.AUDIO ["ardour:Audio 1/audio_in 2"]].
Proof. reflexivity. Qed.

(** ** The pre-check of add_port and remove_port *)

Lemma combiner_loop (l : list Z) (r : Z) :
  fold_left (fun r x => if (x >? 0)%Z then 1%Z else r) l r =
  if existsb (fun x => (x >? 0)%Z) l then 1%Z else r.
Proof.
  revert r. induction l as [|x l IH]; intros r; simpl; [reflexivity|].
  rewrite IH. destruct (x >? 0)%Z; simpl; [|reflexivity].
  now destruct (existsb _ l).
Qed.

(** The combiner answers 1 exactly when some observer answered a
    positive number, and 0 otherwise. *)
Lemma IntBoolCombiner_spec (results : list Z) :
  IntBoolCombiner results =
  if existsb (fun x => (x >? 0)%Z) results then 1%Z else 0%Z.
Proof. apply combiner_loop. Qed.

Lemma positive_answer_vetoes (io : IO.t) (after : ChanCount.t) :
  (exists slot, In slot (IO.PortCountChanging io) /\ (slot after > 0)%Z) ->
  IO.PortCountChanging_emit io after = 1%Z.
Proof.
  intros (slot & Hin & Hpos). unfold IO.PortCountChanging_emit.
  rewrite IntBoolCombiner_spec.
  replace (existsb _ _) with true; [reflexivity|].
  symmetry. apply existsb_exists. exists (slot after). split.
  - apply in_map_iff. now exists slot.
  - apply Z.gtb_lt. lia.
Qed.

(** An observer that answers a positive number stops [add_port]: -1
    is returned and nothing has happened. *)
Lemma positive_veto_stops_add_port destination src ty (io : IO.t) (s : Session.t) :
  (forall after, exists slot, In slot (IO.PortCountChanging io) /\ (slot after > 0)%Z) ->
  IO.add_port destination src ty io s = Some ((-1)%Z, io, s).
Proof.
  intros Hveto. unfold IO.add_port.
  destruct (negb (IO.can_add_port io _)); [reflexivity|].
  rewrite positive_answer_vetoes by apply Hveto. reflexivity.
Qed.

(** The same for [remove_port]. *)
Lemma positive_veto_stops_remove_port port src (io : IO.t) (s : Session.t) :
  (forall after, exists slot, In slot (IO.PortCountChanging io) /\ (slot after > 0)%Z) ->
  IO.remove_port port src io s = ((-1)%Z, io, s).
Proof.
  intros Hveto. unfold IO.remove_port.
  rewrite positive_answer_vetoes by apply Hveto. reflexivity.
Qed.

(** C7.  An observer of [PortCountChanging] that answers -1 (a non-zero
    answer, which io.h documents as the way to prevent the change) does
    not stop the operation: the combiner reduces the answers to 0,
    [add_port] registers a port with the backend, adds it and returns
    0, and [remove_port] unregisters the port, removes it and returns
    0. *)
Theorem negative_answer_does_not_veto :
  IO.PortCountChanging_emit (Example.objecting Example.io) (ChanCount.mk 1 0) = 0%Z /\
  (exists io' s',
     IO.add_port "" 0 DataType.AUDIO (Example.objecting Example.io) Example.session
       = Some (0%Z, io', s') /\
     IO.n_ports io' = ChanCount.mk 1 0 /\
     Session.trace s' =
       [EvRegister Input DataType.AUDIO "Audio 1/audio_in 1";
        EvPortCountChanged (ChanCount.mk 1 0);
        EvChanged (IOChange.mk IOChange.ConfigurationChanged
                               (ChanCount.mk 0 0) (ChanCount.mk 1 0)) 0]) /\
  (exists io' s',
     IO.remove_port 1 0 (Example.objecting Example.stereo_io)
                    (Session.mk 256 "ardour" (fun _ _ => Granted) (fun _ _ => true)
                       (fun _ _ => true) (fun _ => None) (fun _ => 0%Z) false false
                       (Session.port Example.stereo_session) 2 false [])
       = (0%Z, io', s') /\
     IO.n_ports io' = ChanCount.mk 1 0 /\
     Session.trace s' =
       [EvUnregister 1;
        EvPortCountChanged (ChanCount.mk 1 0);
        EvChanged (IOChange.mk IOChange.ConfigurationChanged
                               (ChanCount.mk 2 0) (ChanCount.mk 1 0)) 0]).
Proof.
  split; [reflexivity|]. split.
  - eexists _, _. split; [vm_compute; reflexivity|]. split; reflexivity.
  - eexists _, _. split; [vm_compute; reflexivity|]. split; reflexivity.
Qed.

(** ** Decoding the legacy connection strings *)

(** *** Searching in strings *)

Lemma length_append (a b : string) : String.length (a ++ b) = String.length a + String.length b.
Proof. induction a; simpl; auto. Qed.

Lemma append_assoc (a b c : string) : ((a ++ b) ++ c = a ++ (b ++ c))%string.
Proof. induction a; simpl; congruence. Qed.

Lemma append_empty_r (a : string) : (a ++ "")%string = a.
Proof. induction a; simpl; congruence. Qed.

Lemma find_char_shift c (pre rest : string) k :
  Str.find_char_from c (String.length pre + k) (pre ++ rest) =
  option_map (Nat.add (String.length pre)) (Str.find_char_from c k rest).
Proof.
  induction pre as [|a pre IH]; simpl.
  - now destruct (Str.find_char_from c k rest).
  - rewrite IH. now destruct (Str.find_char_from c k rest).
Qed.

Lemma find_char_lacks c (x : string) : forall k,
  lacks c x = true -> Str.find_char_from c k x = None.
Proof.
  induction x as [|a x IH]; intros k H; simpl in *; [reflexivity|].
  apply andb_true_iff in H. destruct H as [Ha Hx].
  apply negb_true_iff in Ha. rewrite Ha.
  destruct k; rewrite IH by assumption; reflexivity.
Qed.

Lemma find_char_first c (x rest : string) :
  lacks c x = true ->
  Str.find_char_from c 0 (x ++ String c rest) = Some (String.length x).
Proof.
  induction x as [|a x IH]; intros H; simpl in *.
  - now rewrite Ascii.eqb_refl.
  - apply andb_true_iff in H. destruct H as [Ha Hx].
    apply negb_true_iff in Ha. rewrite Ha, IH by assumption. reflexivity.
Qed.

Lemma substring_shift (pre rest : string) n :
  substring (String.length pre) n (pre ++ rest) = substring 0 n rest.
Proof. induction pre; simpl; auto. Qed.

Lemma substring_prefix (m rest : string) :
  substring 0 (String.length m) (m ++ rest) = m.
Proof.
  induction m as [|a m IH]; simpl.
  - now destruct rest.
  - now rewrite IH.
Qed.

Lemma substring_all (m : string) : substring 0 (String.length m) m = m.
Proof. rewrite <- (append_empty_r m) at 2. apply substring_prefix. Qed.

(** *** parse_io_string *)

Lemma concat_cons2 (x y : string) (r : list string) :
  String.concat "," (x :: y :: r) = (x ++ "," ++ String.concat "," (y :: r))%string.
Proof. reflexivity. Qed.

Lemma split_commas_spec : forall (g : list string) (x : string) (pre : string)
    (acc : list string) (fuel : nat),
  Forall plain_name (x :: g) ->
  length g < fuel ->
  IO.split_commas fuel (pre ++ String.concat "," (x :: g)) (String.length pre) acc =
  (String.length (pre ++ String.concat "," (x :: g)) - String.length (last (x :: g) ""),
   acc ++ removelast (x :: g)).
Proof.
  induction g as [|y g IH]; intros x pre acc fuel Hplain Hfuel.
  - destruct fuel as [|fuel]; [simpl in Hfuel; lia|].
    inversion Hplain as [|? ? (Hne & Hcomma & _) _]; subst.
    cbn [IO.split_commas String.concat last removelast].
    rewrite <- (Nat.add_0_r (String.length pre)) at 1.
    rewrite find_char_shift, find_char_lacks by assumption. cbn [option_map].
    rewrite length_append, app_nil_r. f_equal. lia.
  - destruct fuel as [|fuel]; [simpl in Hfuel; lia|].
    inversion Hplain as [|? ? (Hne & Hcomma & _) Hrest]; subst.
    cbn [IO.split_commas]. rewrite concat_cons2.
    rewrite <- (Nat.add_0_r (String.length pre)) at 1.
    rewrite find_char_shift. cbn [append].
    rewrite find_char_first by assumption. cbn [option_map].
    unfold Str.substr.
    replace (String.length pre + String.length x - String.length pre)
      with (String.length x) by lia.
    rewrite substring_shift, substring_prefix.
    replace (pre ++ x ++ String "," (String.concat "," (y :: g)))%string
      with ((pre ++ x ++ ",") ++ String.concat "," (y :: g))%string
      by (rewrite !append_assoc; reflexivity).
    replace (String.length pre + String.length x + 1)
      with (String.length (pre ++ x ++ ","))
      by (rewrite !length_append; simpl; lia).
    rewrite IH by (assumption || (simpl in Hfuel; lia)).
    f_equal. change (removelast (x :: y :: g)) with (x :: removelast (y :: g)).
    now rewrite <- app_assoc.
Qed.

Lemma concat_length_ge (g : list string) :
  Forall plain_name g -> length g <= String.length (String.concat "," g).
Proof.
  induction g as [|x g IH]; intros H; [simpl; lia|].
  inversion H as [|? ? (Hne & _) Hrest]; subst.
  destruct g as [|y g].
  - simpl. destruct x; [congruence | simpl; lia].
  - rewrite concat_cons2, !length_append. specialize (IH Hrest). simpl in *. lia.
Qed.

Lemma last_plain_nonempty (x : string) (g : list string) :
  Forall plain_name (x :: g) -> 0 < String.length (last (x :: g) "").
Proof.
  intros H. assert (Hin : In (last (x :: g) "") (x :: g)).
  { clear H. revert x. induction g as [|y g IH]; intros x; [now left|].
    right. apply IH. }
  rewrite Forall_forall in H. destruct (H _ Hin) as (Hne & _).
  destruct (last (x :: g) ""); [congruence | simpl; lia].
Qed.

Lemma last_suffix (x : string) (g : list string) :
  exists pre, String.concat "," (x :: g) = (pre ++ last (x :: g) "")%string.
Proof.
  revert x. induction g as [|y g IH]; intros x.
  - exists "". reflexivity.
  - destruct (IH y) as (pre & Hpre). exists (x ++ "," ++ pre)%string.
    rewrite concat_cons2, Hpre, !append_assoc. reflexivity.
Qed.

Lemma parse_io_string_spec (g : list string) (ports : list string) :
  Forall plain_name g ->
  IO.parse_io_string (String.concat "," g) ports =
  match g with
  | [] => (0%Z, ports)
  | _ => (Z.of_nat (length g), g)
  end.
Proof.
  intros Hplain. destruct g as [|x g]; [reflexivity|].
  unfold IO.parse_io_string.
  pose proof (concat_length_ge _ Hplain) as Hlen.
  cbn [length] in Hlen.
  destruct (Nat.eqb_spec (String.length (String.concat "," (x :: g))) 0) as [H0|_].
  { lia. }
  pose proof (split_commas_spec g x "" [] (S (String.length (String.concat "," (x :: g))))
                Hplain) as Hsplit.
  cbn [append String.length app] in Hsplit. rewrite Hsplit by lia.
  pose proof (last_plain_nonempty x g Hplain) as Hlast.
  destruct (last_suffix x g) as (pre & Hpre).
  assert (Hl : String.length (String.concat "," (x :: g)) =
               String.length pre + String.length (last (x :: g) "")).
  { rewrite Hpre at 1. apply length_append. }
  destruct (Nat.ltb_spec (String.length (String.concat "," (x :: g))
                          - String.length (last (x :: g) ""))
                         (String.length (String.concat "," (x :: g)))) as [_|Hge]; [|lia].
  assert (Hsub : Str.substr_from (String.length (String.concat "," (x :: g))
                                  - String.length (last (x :: g) ""))
                                 (String.concat "," (x :: g)) = last (x :: g) "").
  { unfold Str.substr_from. rewrite Hl.
    replace (String.length pre + String.length (last (x :: g) "") -
             String.length (last (x :: g) "")) with (String.length pre) by lia.
    replace (String.length pre + String.length (last (x :: g) "") - String.length pre)
      with (String.length (last (x :: g) "")) by lia.
    rewrite Hpre at 1. rewrite substring_shift. apply substring_all. }
  rewrite Hsub, <- app_removelast_last by discriminate. reflexivity.
Qed.

(** *** The loop over the groups *)

Lemma render_groups_pairs (g : list string) (rest : list (list string)) :
  render_groups (g :: rest) = render_pairs (("", g) :: map (fun g' => (",", g')) rest).
Proof.
  unfold render_groups. revert g. induction rest as [|g' rest IH]; intros g.
  - simpl. now rewrite append_empty_r.
  - cbn [map]. rewrite concat_cons2. cbn [map] in IH. rewrite IH.
    cbn [render_pairs append]. reflexivity.
Qed.

Lemma lacks_append c (a b : string) :
  lacks c (a ++ b) = lacks c a && lacks c b.
Proof. induction a as [|x a IH]; simpl; [reflexivity|]. now rewrite IH, andb_assoc. Qed.

Lemma lacks_concat_brace (g : list string) :
  Forall plain_name g -> lacks "}" (String.concat "," g) = true.
Proof.
  induction g as [|x g IH]; intros H; [reflexivity|].
  inversion H as [|? ? (_ & _ & Hx) Hrest]; subst.
  destruct g as [|y g]; [exact Hx|].
  rewrite concat_cons2, !lacks_append, Hx, IH by assumption. reflexivity.
Qed.

Section Groups.
Variable io : IO.t.
Variables what pat rep : string.

Lemma connect_groups_spec : forall (pairs : list (string * list string)) (pre : string)
    (i : N) (ports : list string) (s : Session.t) (fuel : nat),
  Forall (fun jg => lacks "{" (fst jg) = true /\ Forall plain_name (snd jg)) pairs ->
  length pairs < fuel ->
  IO.connect_groups fuel io what pat rep (pre ++ render_pairs pairs)
                    (String.length pre) i ports s =
  (0%Z, connect_all io pat rep i (map snd pairs) s).
Proof.
  induction pairs as [|[junk g] pairs IH]; intros pre i ports s fuel Hok Hfuel;
    (destruct fuel as [|fuel]; [simpl in Hfuel; lia|]); cbn [IO.connect_groups].
  - cbn [render_pairs]. rewrite <- (Nat.add_0_r (String.length pre)) at 1.
    rewrite find_char_shift. reflexivity.
  - inversion Hok as [|? ? (Hjunk & Hplain) Hrest]; subst. cbn [fst snd] in *.
    cbn [render_pairs]. unfold render_group.
    set (cs := String.concat "," g).
    set (R := render_pairs pairs).
    (* the opening brace *)
    rewrite <- (Nat.add_0_r (String.length pre)) at 1.
    rewrite find_char_shift. cbn [append].
    rewrite find_char_first by assumption. cbn [option_map].
    (* the closing brace *)
    set (P := (pre ++ junk ++ "{")%string).
    assert (HP : String.length P = String.length pre + String.length junk + 1).
    { subst P. rewrite !length_append. simpl. lia. }
    replace (pre ++ junk ++ String "{" ((cs ++ "}") ++ R))%string
      with (P ++ cs ++ String "}" R)%string
      by (subst P; rewrite !append_assoc; reflexivity).
    rewrite <- HP. rewrite <- (Nat.add_0_r (String.length P)) at 1.
    rewrite find_char_shift, find_char_first by (apply lacks_concat_brace; assumption).
    cbn [option_map].
    (* the names of the group *)
    unfold Str.substr.
    replace (String.length P + String.length cs - String.length P)
      with (String.length cs) by lia.
    rewrite substring_shift, substring_prefix.
    subst cs. rewrite parse_io_string_spec by assumption.
    replace (P ++ String.concat "," g ++ String "}" R)%string
      with ((P ++ String.concat "," g ++ "}") ++ R)%string
      by (rewrite !append_assoc; reflexivity).
    replace (String.length P + String.length (String.concat "," g) + 1)
      with (String.length (P ++ String.concat "," g ++ "}"))
      by (rewrite !length_append; simpl; lia).
    cbn [map connect_all].
    destruct g as [|x g].
    + cbn [Z.ltb Z.gtb Z.compare map fold_left].
      apply IH; [assumption | simpl in Hfuel; lia].
    + replace (Z.of_nat (length (x :: g)) <? 0)%Z with false
        by (symmetry; apply Z.ltb_ge; lia).
      replace (Z.of_nat (length (x :: g)) >? 0)%Z with true
        by (symmetry; apply Z.gtb_lt; simpl; lia).
      apply IH; [assumption | simpl in Hfuel; lia].
Qed.
End Groups.

Lemma render_groups_length (groups : list (list string)) :
  length groups <= String.length (render_groups groups).
Proof.
  unfold render_groups. induction groups as [|g groups IH]; [simpl; lia|].
  destruct groups as [|g' groups].
  - simpl. lia.
  - cbn [map]. rewrite concat_cons2, !length_append. cbn [map] in IH.
    simpl String.length at 2. simpl length in *. lia.
Qed.

Lemma legacy_groups_connect_in_order (node : XML.node) (version : Z) (io : IO.t)
    (s : Session.t) (groups : list (list string)) :
  XML.property node "inputs" = Some (render_groups groups) ->
  Forall (Forall plain_name) groups ->
  IO.set_port_state_2X node version true io s =
  (0%Z, connect_all io "/out" "/audio_out" 0 groups s).
Proof.
  intros Hin Hplain. unfold IO.set_port_state_2X. rewrite Hin.
  assert (Hloop :
    IO.connect_groups (S (String.length (render_groups groups))) io "inputs" "/out"
                      "/audio_out" (render_groups groups) 0 0 [] s =
    (0%Z, connect_all io "/out" "/audio_out" 0 groups s)).
  { pose proof (render_groups_length groups) as Hlen.
    destruct groups as [|g rest].
    - reflexivity.
    - rewrite render_groups_pairs in *.
      pose proof (connect_groups_spec io "inputs" "/out" "/audio_out"
                    (("", g) :: map (fun g' => (",", g')) rest) "" 0 [] s
                    (S (String.length
                          (render_pairs (("", g) :: map (fun g' => (",", g')) rest)))))
        as Hspec.
      cbn [append String.length] in Hspec. rewrite Hspec.
      + cbn [map snd]. now rewrite map_map, map_id.
      + inversion Hplain as [|? ? Hg Hrest]; subst. constructor.
        * split; [reflexivity | exact Hg].
        * apply Forall_map. eapply Forall_impl; [|exact Hrest].
          intros a Ha. split; [reflexivity | exact Ha].
      + cbn [length] in *. rewrite length_map. lia. }
  rewrite Hloop. cbn [Z.eqb negb].
  destruct (XML.property node "outputs"); reflexivity.
Qed.

(** *** What Port::connect leaves behind *)

Lemma port_connect_trace p other s :
  Session.trace (snd (Session.port_connect p other s)) =
  Session.trace s ++ [EvConnect p other].
Proof.
  unfold Session.port_connect.
  destruct (Session.backend_connect s (Session.port_name s p) other); reflexivity.
Qed.

Lemma port_connect_backend p other s :
  Session.backend_connect (snd (Session.port_connect p other s)) = Session.backend_connect s.
Proof.
  unfold Session.port_connect.
  destruct (Session.backend_connect s (Session.port_name s p) other); reflexivity.
Qed.

Lemma insert_connection_in c cs : In c (Session.insert_connection c cs).
Proof.
  unfold Session.insert_connection.
  destruct (existsb (String.eqb c) cs) eqn:E.
  - apply existsb_exists in E. destruct E as (x & Hx & Heq).
    apply String.eqb_eq in Heq. now subst.
  - apply in_or_app. right. now left.
Qed.

Lemma insert_connection_keeps c c' cs : In c cs -> In c (Session.insert_connection c' cs).
Proof.
  intros H. unfold Session.insert_connection.
  destruct (existsb (String.eqb c') cs); [exact H|].
  apply in_or_app. now left.
Qed.

Lemma port_connect_connected p other s :
  Session.backend_connect s (Session.port_name s p) other = true ->
  In other (Port.connections (Session.port (snd (Session.port_connect p other s)) p)).
Proof.
  intros H. unfold Session.port_connect. rewrite H. simpl.
  rewrite Nat.eqb_refl. simpl. apply insert_connection_in.
Qed.

Lemma port_connect_keeps p other s q c :
  In c (Port.connections (Session.port s q)) ->
  In c (Port.connections (Session.port (snd (Session.port_connect p other s)) q)).
Proof.
  intros H. unfold Session.port_connect.
  destruct (Session.backend_connect s (Session.port_name s p) other); simpl; [|exact H].
  destruct (Nat.eqb q p) eqn:E; [|exact H].
  apply Nat.eqb_eq in E. subst q. simpl. now apply insert_connection_keeps.
Qed.

(** C9.  Decoding the legacy [inputs] attribute: group [i] of the
    attribute goes to port [i], and every name of the group is
    connected to that port, in order (a name that contains "/out" is
    connected as "/audio_out").  For the attribute "{p1},{p2,p3}" on
    an IO with ports 0 and 1: [Port::connect] is called for port 0 with
    p1, then for port 1 with p2 and with p3, and for nothing else; the
    method returns 0, and when the backend makes the links, p1 is
    among the connections of port 0, p2 and p3 among those of
    port 1. *)
Theorem set_port_state_2X_inputs (node : XML.node) (version : Z) (io : IO.t)
    (s : Session.t) :
  (forall groups,
     XML.property node "inputs" = Some (render_groups groups) ->
     Forall (Forall plain_name) groups ->
     IO.set_port_state_2X node version true io s =
     (0%Z, connect_all io "/out" "/audio_out" 0 groups s)) /\
  (forall p0 p1,
     XML.property node "inputs" = Some "{p1},{p2,p3}" ->
     IO.nth io 0 = Some p0 ->
     IO.nth io 1 = Some p1 ->
     exists s',
       IO.set_port_state_2X node version true io s = (0%Z, s') /\
       Session.trace s' =
         Session.trace s ++ [EvConnect p0 "p1"; EvConnect p1 "p2"; EvConnect p1 "p3"] /\
       ((forall a b, Session.backend_connect s a b = true) ->
        In "p1" (Port.connections (Session.port s' p0)) /\
        In "p2" (Port.connections (Session.port s' p1)) /\
        In "p3" (Port.connections (Session.port s' p1)))).
Proof.
  split.
  - intros groups. apply legacy_groups_connect_in_order.
  - intros p0 p1 Hin H0 H1.
    rewrite (legacy_groups_connect_in_order node version io s [["p1"]; ["p2"; "p3"]] Hin)
      by (repeat constructor; discriminate).
    eexists. split; [reflexivity|].
    cbn [connect_all map fold_left]. unfold IO.connect_nth.
    change (0 + 1)%N with 1%N. rewrite H0, H1.
    change (IO.legacy_port_name "/out" "/audio_out" "p1") with "p1".
    change (IO.legacy_port_name "/out" "/audio_out" "p2") with "p2".
    change (IO.legacy_port_name "/out" "/audio_out" "p3") with "p3".
    split.
    + rewrite !port_connect_trace, <- !app_assoc. reflexivity.
    + intros Hall. repeat split.
      * do 2 apply port_connect_keeps. apply port_connect_connected, Hall.
      * apply port_connect_keeps. apply port_connect_connected.
        rewrite port_connect_backend. apply Hall.
      * apply port_connect_connected. rewrite !port_connect_backend. apply Hall.
Qed.

(** The whole legacy decoder on an IO without ports: [create_ports]
    makes one audio port per brace group, and the groups are connected
    to them in order. *)
Example legacy_node_decoded :
  option_map
    (fun r : Z * IO.t * Session.t =>
       let '(result, io', s') := r in
       (result, IO.n_ports io',
        map (fun p => Port.connections (Session.port s' p)) (PortSet.all (IO.ports io'))))
    (IO.set_state_2X Example.legacy_node 2000 true Example.io Example.session)
  = Some (0%Z, ChanCount.mk 2 0, [["p1"]; ["p2"; "p3"]]).
Proof. vm_compute. reflexivity. Qed.

(** ** Port names *)

(** *** Decimal numbers *)

Lemma fmt_u_inj (n m : N) : fmt_u n = fmt_u m -> n = m.
Proof.
  unfold fmt_u. intros H. apply DecimalN.Unsigned.to_uint_inj.
  assert (Hs : Some (N.to_uint n) = Some (N.to_uint m)).
  { rewrite <- !NilEmpty.usu. now rewrite H. }
  now injection Hs.
Qed.

Lemma all_from_spec (f : N -> bool) : forall fuel n,
  all_from fuel n f = true ->
  forall m, (n <= m < n + N.of_nat fuel)%N -> f m = true.
Proof.
  induction fuel as [|fuel IH]; intros n H m Hm; [lia|].
  cbn [all_from] in H. apply andb_true_iff in H. destruct H as [Hn Hrest].
  destruct (N.eq_dec m n) as [->|Hne]; [exact Hn|].
  apply (IH (n + 1)%N Hrest). lia.
Qed.

Lemma four_digits_below_10000 : all_from (N.to_nat 10000) 0 four_digits = true.
Proof. vm_compute. reflexivity. Qed.

Lemma fmt_u_length (n : N) : (n <= 9999)%N -> String.length (fmt_u n) <= 4.
Proof.
  intros H. apply Nat.leb_le.
  apply (all_from_spec four_digits (N.to_nat 10000) 0 four_digits_below_10000). lia.
Qed.

(** *** snprintf *)

Lemma substring_length_le (n : nat) : forall (x : string),
  String.length (substring 0 n x) <= n.
Proof.
  induction n as [|n IH]; intros x; destruct x; simpl; try lia.
  specialize (IH x). lia.
Qed.

Lemma substring_whole (n : nat) : forall (x : string),
  String.length x <= n -> substring 0 n x = x.
Proof.
  induction n as [|n IH]; intros x H; destruct x; simpl in *; try reflexivity; try lia.
  rewrite IH by lia. reflexivity.
Qed.

Lemma snprintf_length (size : N) (text : string) :
  String.length (Str.snprintf size text) <= N.to_nat size - 1.
Proof. apply substring_length_le. Qed.

Lemma snprintf_fits (size : N) (text : string) :
  String.length text <= N.to_nat size - 1 -> Str.snprintf size text = text.
Proof. apply substring_whole. Qed.

Lemma append_inj_l (a b c : string) : (a ++ b = a ++ c)%string -> b = c.
Proof. induction a; simpl; intros H; [exact H|]. injection H. auto. Qed.

(** When nothing is cut off, different numbers give different
    candidates. *)
Lemma candidate_inj (size : N) (base : string) (n m : N) :
  String.length base + 5 <= N.to_nat size - 1 ->
  (n <= 9999)%N -> (m <= 9999)%N ->
  candidate size base n = candidate size base m -> n = m.
Proof.
  intros Hroom Hn Hm. unfold candidate.
  pose proof (fmt_u_length n Hn) as Hln. pose proof (fmt_u_length m Hm) as Hlm.
  rewrite !snprintf_fits by (rewrite !length_append; simpl; lia).
  intros H. apply append_inj_l in H. apply append_inj_l in H. now apply fmt_u_inj.
Qed.

(** *** find_port_hole *)

Lemma find_port_hole_from_spec (names : list string) (size : N) (base : string) :
  forall fuel n,
    let r := IO.find_port_hole_from fuel n names size base in
    (n <= r <= n + N.of_nat fuel)%N /\
    (forall m, (n <= m < r)%N -> In (candidate size base m) names) /\
    ((r < n + N.of_nat fuel)%N -> ~ In (candidate size base r) names).
Proof.
  induction fuel as [|fuel IH]; intros n; cbn [IO.find_port_hole_from].
  - cbv zeta. split; [lia|]. split; intros; lia.
  - fold (candidate size base n).
    destruct (existsb (String.eqb (candidate size base n)) names) eqn:E.
    + specialize (IH (n + 1)%N). cbv zeta in IH |- *.
      destruct IH as (Hr & Htaken & Hfree). split; [lia|]. split.
      * intros m Hm. destruct (N.eq_dec m n) as [->|Hne].
        -- apply existsb_exists in E. destruct E as (x & Hx & Heq).
           apply String.eqb_eq in Heq. now subst.
        -- apply Htaken. lia.
      * intros Hlt. apply Hfree. lia.
    + cbv zeta. split; [lia|]. split; [intros; lia|].
      intros _ Hin.
      assert (existsb (String.eqb (candidate size base n)) names = true); [|congruence].
      apply existsb_exists. exists (candidate size base n). split; [exact Hin|].
      apply String.eqb_refl.
Qed.

(** *** build_legal_port_name *)

Lemma build_legal_port_name_shape io s ps ty name :
  IO.build_legal_port_name io s ps ty = Some name ->
  exists sfx,
    IO.port_suffix io ty = Some sfx /\
    name = Str.snprintf (u32_incr (Session.port_name_size s))
             (name_base io s (full_suffix io sfx) ++ " "
              ++ fmt_d (IO.find_port_hole s ps (name_base io s (full_suffix io sfx)))).
Proof.
  unfold IO.build_legal_port_name.
  destruct (IO.port_suffix io ty) as [sfx|]; [|discriminate].
  intros H. injection H as <-. exists sfx. split; reflexivity.
Qed.

(** The number: between 1 and 9999, every smaller number taken, and
    free unless it is 9999. *)
Lemma find_port_hole_spec s ps base :
  exists n : N,
    IO.find_port_hole s ps base = Z.of_N n /\
    (1 <= n <= 9999)%N /\
    (PortSet.empty ps = true -> n = 1%N) /\
    (forall m, (1 <= m < n)%N ->
       In (candidate (u32_incr (Session.port_name_size s)) base m) (Session.names s ps)) /\
    ((n < 9999)%N ->
     ~ In (candidate (u32_incr (Session.port_name_size s)) base n) (Session.names s ps)).
Proof.
  unfold IO.find_port_hole. destruct (PortSet.empty ps) eqn:Hempty.
  - exists 1%N. split; [reflexivity|]. split; [lia|]. split; [reflexivity|].
    split; [intros; lia|]. intros _.
    unfold Session.names. unfold PortSet.empty in Hempty.
    destruct (PortSet.all ps); [simpl; tauto | discriminate].
  - pose proof (find_port_hole_from_spec (Session.names s ps)
                  (u32_incr (Session.port_name_size s)) base
                  (N.to_nat (IO.port_number_limit - 1)) 1) as Hspec.
    cbv zeta in Hspec. destruct Hspec as (Hr & Htaken & Hfree).
    eexists. split; [reflexivity|].
    change (N.of_nat (N.to_nat (IO.port_number_limit - 1))) with 9998%N in *.
    split; [lia|]. split; [discriminate|]. split; [exact Htaken|].
    intros Hlt. apply Hfree. lia.
Qed.

Lemma snprintf_length_text (size : N) (text : string) :
  String.length (Str.snprintf size text) <= String.length text.
Proof.
  unfold Str.snprintf. generalize (N.to_nat size - 1). intros n. revert text.
  induction n as [|n IH]; intros x; destruct x; simpl; try lia.
  specialize (IH x). lia.
Qed.

Lemma role_suffix_length io : String.length (IO.role_suffix io) <= 7.
Proof.
  unfold IO.role_suffix. destruct (IO._sendish io), (IO._direction io); simpl; lia.
Qed.

Lemma port_suffix_length io ty sfx :
  IO.port_suffix io ty = Some sfx -> String.length (full_suffix io sfx) <= 12.
Proof.
  intros H. unfold full_suffix. rewrite length_append.
  pose proof (role_suffix_length io).
  destruct ty; simpl in H; try discriminate; injection H as <-; simpl; lia.
Qed.

(** With room, the text before the number leaves five characters for
    a blank and the number. *)
Lemma name_base_length io s ty sfx :
  roomy s -> IO.port_suffix io ty = Some sfx ->
  String.length (name_base io s (full_suffix io sfx)) + 5
  <= N.to_nat (u32_incr (Session.port_name_size s)) - 1.
Proof.
  intros (Hmy & Hsize) Hsfx.
  pose proof (port_suffix_length io ty sfx Hsfx) as Hlen.
  rewrite u32_incr_small by lia.
  unfold name_base.
  eapply Nat.le_trans; [apply Nat.add_le_mono_r, snprintf_length_text|].
  rewrite !length_append. unfold name_limit. rewrite to_int_small by lia.
  unfold Str.fmt_prec_s.
  destruct (Z.ltb_spec (Z.of_N (Session.port_name_size s)
                        - Z.of_nat (String.length (Session.my_name s))
                        - (Z.of_nat (String.length (full_suffix io sfx)) + 5)) 0); [lia|].
  pose proof (substring_length_le
                (Z.to_nat (Z.of_N (Session.port_name_size s)
                           - Z.of_nat (String.length (Session.my_name s))
                           - (Z.of_nat (String.length (full_suffix io sfx)) + 5)))
                (legalize_io_name (IO._name io))) as Hsub.
  change (String.length "/") with 1. lia.
Qed.

(** C2, freshness: with room and fewer than 9998 ports, the name is
    not the name of a port of the set. *)
Lemma build_legal_port_name_fresh io s ps ty name :
  roomy s ->
  (PortSet.num_ports ps < 9998)%N ->
  IO.build_legal_port_name io s ps ty = Some name ->
  ~ In name (Session.names s ps).
Proof.
  intros Hroom Hfew Hbuild.
  destruct (build_legal_port_name_shape io s ps ty name Hbuild) as (sfx & Hsfx & ->).
  set (base := name_base io s (full_suffix io sfx)).
  set (size := u32_incr (Session.port_name_size s)).
  destruct (find_port_hole_spec s ps base) as (n & -> & Hn & _ & Htaken & Hfree).
  rewrite fmt_d_of_N. fold (candidate size base n).
  destruct (N.lt_ge_cases n 9999) as [Hlt|Hge]; [exact (Hfree Hlt)|].
  exfalso. assert (n = 9999%N) by lia. subst n.
  pose proof (name_base_length io s ty sfx Hroom Hsfx) as Hbase. fold base size in Hbase.
  set (cands := map (fun i => candidate size base (N.of_nat i)) (seq 1 (N.to_nat 9998))).
  assert (Hnd : NoDup cands).
  { apply NoDup_map_NoDup_ForallPairs; [|apply seq_NoDup].
    intros i j Hi Hj Heq. apply in_seq in Hi, Hj.
    apply candidate_inj in Heq; [lia | exact Hbase | lia | lia]. }
  assert (Hincl : incl cands (Session.names s ps)).
  { intros c Hc. apply in_map_iff in Hc. destruct Hc as (i & <- & Hi).
    apply in_seq in Hi. apply Htaken. lia. }
  pose proof (NoDup_incl_length Hnd Hincl) as Hlen.
  subst cands. rewrite length_map, length_seq in Hlen.
  unfold Session.names in Hlen. rewrite length_map in Hlen.
  unfold PortSet.num_ports, ChanCount.n_total, PortSet.count in Hfew. simpl in Hfew.
  unfold PortSet.all in Hlen. rewrite length_app in Hlen. lia.
Qed.

(** *** The length of the name *)

Lemma build_legal_port_name_length io s ps ty name :
  IO.build_legal_port_name io s ps ty = Some name ->
  (N.of_nat (String.length name) <= Session.port_name_size s)%N.
Proof.
  intros H. destruct (build_legal_port_name_shape io s ps ty name H) as (sfx & _ & ->).
  pose proof (snprintf_length (u32_incr (Session.port_name_size s))
                (name_base io s (full_suffix io sfx) ++ " "
                 ++ fmt_d (IO.find_port_hole s ps (name_base io s (full_suffix io sfx)))))
    as Hlen.
  assert (Hsize : (u32_incr (Session.port_name_size s) <= Session.port_name_size s + 1)%N).
  { unfold u32_incr. apply N.Div0.mod_le. }
  lia.
Qed.

(** *** The name depends on the set of names only *)

Lemma existsb_same_members (f : string -> bool) (l l' : list string) :
  (forall x, In x l <-> In x l') -> existsb f l = existsb f l'.
Proof.
  intros H. destruct (existsb f l) eqn:E; symmetry.
  - apply existsb_exists in E. destruct E as (x & Hx & Hf).
    apply existsb_exists. exists x. split; [now apply H | exact Hf].
  - destruct (existsb f l') eqn:E'; [|reflexivity].
    apply existsb_exists in E'. destruct E' as (x & Hx & Hf).
    assert (existsb f l = true); [|congruence].
    apply existsb_exists. exists x. split; [now apply H | exact Hf].
Qed.

Lemma find_port_hole_from_same_members (names names' : list string) size base :
  (forall x, In x names <-> In x names') ->
  forall fuel n,
    IO.find_port_hole_from fuel n names size base =
    IO.find_port_hole_from fuel n names' size base.
Proof.
  intros H. induction fuel as [|fuel IH]; intros n; cbn [IO.find_port_hole_from];
    [reflexivity|].
  rewrite (existsb_same_members _ names names' H), IH. reflexivity.
Qed.

Lemma names_empty s ps : PortSet.empty ps = true <-> Session.names s ps = [].
Proof.
  unfold PortSet.empty, Session.names.
  destruct (PortSet.all ps); simpl; split; intros; congruence.
Qed.

Lemma build_legal_port_name_same_names io s s' ps ps' ty :
  Session.port_name_size s = Session.port_name_size s' ->
  Session.my_name s = Session.my_name s' ->
  (forall x, In x (Session.names s ps) <-> In x (Session.names s' ps')) ->
  IO.build_legal_port_name io s ps ty = IO.build_legal_port_name io s' ps' ty.
Proof.
  intros Hsize Hmy Hnames. unfold IO.build_legal_port_name.
  destruct (IO.port_suffix io ty) as [sfx|]; [|reflexivity].
  rewrite <- Hsize, <- Hmy. cbv zeta. do 3 f_equal.
  unfold IO.find_port_hole. rewrite <- Hsize.
  assert (Hempty : PortSet.empty ps = PortSet.empty ps').
  { destruct (PortSet.empty ps) eqn:E; symmetry.
    - apply (names_empty s') . apply (names_empty s) in E.
      destruct (Session.names s' ps') as [|x l]; [reflexivity|].
      exfalso. rewrite E in Hnames. apply (Hnames x). now left.
    - destruct (PortSet.empty ps') eqn:E'; [|reflexivity].
      apply (names_empty s') in E'.
      assert (Session.names s ps = []) as Hnil.
      { destruct (Session.names s ps) as [|x l]; [reflexivity|].
        exfalso. rewrite E' in Hnames. apply (Hnames x). now left. }
      apply (names_empty s) in Hnil. congruence. }
  rewrite Hempty. destruct (PortSet.empty ps'); [reflexivity|].
  now rewrite (find_port_hole_from_same_members _ _ _ _ Hnames).
Qed.

(** *** Allocations in a row *)

Lemma register_for_granted_port io s ty portname :
  grants_all s ->
  exists s1,
    IO.register_for io ty portname s = Some (Some (Session.next_port s), s1) /\
    Port.type (Session.port s1 (Session.next_port s)) = ty /\
    Session.port_name s1 (Session.next_port s) = portname /\
    (forall q, q <> Session.next_port s -> Session.port s1 q = Session.port s q) /\
    Session.port_name_size s1 = Session.port_name_size s /\
    Session.my_name s1 = Session.my_name s /\
    Session.backend_register s1 = Session.backend_register s /\
    Session.next_port s1 = S (Session.next_port s).
Proof.
  intros Hg. unfold IO.register_for, Session.register_port. rewrite Hg.
  destruct (IO._direction io); eexists; (split; [reflexivity|]);
    unfold Session.port_name; simpl; rewrite Nat.eqb_refl; repeat split; auto;
    intros q Hq; apply Nat.eqb_neq in Hq; now rewrite Hq.
Qed.

Lemma names_after_add s s1 ps ty portname :
  ty <> DataType.NIL ->
  ports_wf ps s ->
  Session.port_name s1 (Session.next_port s) = portname ->
  (forall q, q <> Session.next_port s -> Session.port s1 q = Session.port s q) ->
  forall x,
    In x (Session.names s1 (with_type ps ty (PortSet.of_type ps ty ++ [Session.next_port s])))
    <-> x = portname \/ In x (Session.names s ps).
Proof.
  intros Hty [_ Hlt] Hname Hsame x.
  assert (Hold : forall l, Forall (fun p => p < Session.next_port s) l ->
                 map (Session.port_name s1) l = map (Session.port_name s) l).
  { intros l Hl. apply map_ext_in. intros q Hq. rewrite Forall_forall in Hl.
    unfold Session.port_name. rewrite Hsame; [reflexivity|]. specialize (Hl q Hq). lia. }
  destruct ps as [a m]. unfold Session.names, PortSet.all in *.
  apply Forall_app in Hlt. destruct Hlt as [Ha Hm].
  destruct ty; simpl in *; [| |congruence];
    rewrite !map_app, (Hold a Ha), (Hold m Hm); simpl; rewrite Hname, !in_app_iff; simpl;
    rewrite ?in_app_iff; intuition congruence.
Qed.

Lemma num_ports_add ps ty x :
  ty <> DataType.NIL ->
  PortSet.num_ports (with_type ps ty (PortSet.of_type ps ty ++ [x])) =
  (PortSet.num_ports ps + 1)%N.
Proof.
  intros Hty. destruct ps as [a m].
  unfold PortSet.num_ports, ChanCount.n_total, PortSet.count.
  destruct ty; simpl; [| |congruence]; rewrite length_app; simpl; lia.
Qed.

Lemma allocations_distinct io ty :
  ty <> DataType.NIL ->
  forall k ps s,
    roomy s -> grants_all s -> ports_wf ps s ->
    (PortSet.num_ports ps + N.of_nat k <= 9998)%N ->
    length (allocations io ty k ps s) = k /\
    NoDup (allocations io ty k ps s) /\
    (forall x, In x (allocations io ty k ps s) -> ~ In x (Session.names s ps)).
Proof.
  intros Hty. induction k as [|k IH]; intros ps s Hroom Hg Hwf Hfew.
  - simpl. split; [reflexivity|]. split; [constructor | tauto].
  - cbn [allocations].
    destruct (build_legal_port_name_some io s ps ty Hty) as (portname & Hbuild).
    rewrite Hbuild.
    pose proof (build_legal_port_name_fresh io s ps ty portname Hroom ltac:(lia) Hbuild)
      as Hfresh.
    destruct (register_for_granted_port io s ty portname Hg)
      as (s1 & -> & Htype & Hname & Hsame & Hsize & Hmy & Hbr & Hnext).
    rewrite Htype, add_of_type.
    set (ps1 := with_type ps ty (PortSet.of_type ps ty ++ [Session.next_port s])).
    destruct (IH ps1 s1) as (Hlen & Hnd & Hnew).
    + destruct Hroom as [H1 H2]. split; rewrite ?Hmy, ?Hsize; assumption.
    + intros ty' nm. rewrite Hbr. apply Hg.
    + apply ports_wf_add; assumption.
    + subst ps1. rewrite num_ports_add by assumption. lia.
    + pose proof (names_after_add s s1 ps ty portname Hty Hwf Hname Hsame) as Hnames.
      fold ps1 in Hnames.
      split; [simpl; now rewrite Hlen|]. split.
      * constructor; [|exact Hnd]. intros Hin. apply (Hnew _ Hin).
        apply Hnames. now left.
      * intros x [<-|Hin]; [exact Hfresh|]. intros Hold. apply (Hnew _ Hin).
        apply Hnames. now right.
Qed.

(** *** PortSets whose names are numbered without gaps *)

Lemma numbered_names s base (count : N) :
  (forall p, p < N.to_nat count ->
     Session.port_name s p = (base ++ " " ++ fmt_u (N.of_nat (S p)))%string) ->
  forall x, In x (Session.names s (numbered_ports count)) <->
            exists m, (1 <= m <= count)%N /\ x = (base ++ " " ++ fmt_u m)%string.
Proof.
  intros Hname x. unfold Session.names, numbered_ports, PortSet.all. cbn [PortSet.audio PortSet.midi].
  rewrite app_nil_r, in_map_iff. split.
  - intros (p & <- & Hp). apply in_seq in Hp. exists (N.of_nat (S p)).
    split; [lia|]. apply Hname. lia.
  - intros (m & Hm & ->). exists (N.to_nat m - 1). split.
    + rewrite Hname by lia. do 3 f_equal. lia.
    + apply in_seq. lia.
Qed.

Lemma find_port_hole_numbered s ps base (count : N) :
  PortSet.empty ps = false ->
  String.length base + 5 <= N.to_nat (u32_incr (Session.port_name_size s)) - 1 ->
  (count <= 9999)%N ->
  (forall x, In x (Session.names s ps) <->
             exists m, (1 <= m <= count)%N /\ x = (base ++ " " ++ fmt_u m)%string) ->
  IO.find_port_hole s ps base = Z.of_N (N.min (count + 1) 9999).
Proof.
  intros Hempty Hroom Hcount Hnames.
  destruct (find_port_hole_spec s ps base) as (n & -> & Hn & _ & Htaken & Hfree).
  f_equal.
  assert (Hcand : forall m, (m <= 9999)%N ->
            candidate (u32_incr (Session.port_name_size s)) base m
            = (base ++ " " ++ fmt_u m)%string).
  { intros m Hm. unfold candidate. apply snprintf_fits.
    pose proof (fmt_u_length m Hm). rewrite !length_append. simpl. lia. }
  destruct (N.lt_trichotomy n (N.min (count + 1) 9999)) as [Hlt | [Heq | Hgt]];
    [exfalso | exact Heq | exfalso].
  - apply Hfree; [lia|]. rewrite Hcand by lia. apply Hnames. exists n. split; [lia | reflexivity].
  - assert (Hin : In (candidate (u32_incr (Session.port_name_size s)) base (count + 1))
                     (Session.names s ps)) by (apply Htaken; lia).
    apply Hnames in Hin. destruct Hin as (m & Hm & Heq).
    rewrite Hcand in Heq by lia.
    apply append_inj_l in Heq. apply append_inj_l in Heq. apply fmt_u_inj in Heq. lia.
Qed.

Lemma build_legal_port_name_numbered io s ps ty sfx (count : N) :
  IO.port_suffix io ty = Some sfx ->
  PortSet.empty ps = false ->
  String.length (name_base io s (full_suffix io sfx)) + 5
    <= N.to_nat (u32_incr (Session.port_name_size s)) - 1 ->
  (count <= 9999)%N ->
  (forall x, In x (Session.names s ps) <->
             exists m, (1 <= m <= count)%N /\
                       x = (name_base io s (full_suffix io sfx) ++ " " ++ fmt_u m)%string) ->
  IO.build_legal_port_name io s ps ty =
  Some (name_base io s (full_suffix io sfx) ++ " " ++ fmt_u (N.min (count + 1) 9999))%string.
Proof.
  intros Hsfx Hempty Hroom Hcount Hnames.
  destruct (build_legal_port_name_some io s ps ty) as (name & Hbuild).
  { intros ->. discriminate. }
  rewrite Hbuild. f_equal.
  destruct (build_legal_port_name_shape io s ps ty name Hbuild) as (sfx' & Hsfx' & ->).
  rewrite Hsfx in Hsfx'. injection Hsfx' as <-.
  rewrite (find_port_hole_numbered s ps _ count Hempty Hroom Hcount Hnames).
  rewrite fmt_d_of_N. apply snprintf_fits.
  pose proof (fmt_u_length (N.min (count + 1) 9999) ltac:(lia)).
  rewrite !length_append. simpl. lia.
Qed.

Lemma numbered_ports_not_empty (count : N) :
  (1 <= count)%N -> PortSet.empty (numbered_ports count) = false.
Proof.
  intros H. unfold PortSet.empty, numbered_ports, PortSet.all. cbn [PortSet.audio PortSet.midi].
  destruct (N.to_nat count) eqn:E; [lia | reflexivity].
Qed.

Lemma numbered_ports_succ (count : N) :
  PortSet.add (numbered_ports count) DataType.AUDIO (N.to_nat count)
  = numbered_ports (count + 1).
Proof.
  unfold numbered_ports, PortSet.add. cbn [PortSet.audio PortSet.midi]. f_equal.
  replace (N.to_nat (count + 1)) with (S (N.to_nat count)) by lia.
  now rewrite seq_S.
Qed.

(** Against the ports "x/audio_in 1" to "x/audio_in 9998", two
    allocations in a row give the same name. *)
Lemma crowded_allocations :
  allocations crowded_io DataType.AUDIO 2 (numbered_ports 9998)
              (numbered_session "x/audio_in" 9998)
  = ["x/audio_in 9999"; "x/audio_in 9999"].
Proof.
  assert (Hbase : forall s, Session.port_name_size s = 256%N -> Session.my_name s = "ardour" ->
            name_base crowded_io s (full_suffix crowded_io "audio") = "x/audio_in").
  { intros s Hsize Hmy. unfold name_base, name_limit. rewrite Hsize, Hmy. reflexivity. }
  assert (Hstep : forall s (count : N),
            Session.port_name_size s = 256%N -> Session.my_name s = "ardour" ->
            (9998 <= count <= 9999)%N ->
            (forall p, p < N.to_nat count ->
               Session.port_name s p = ("x/audio_in" ++ " " ++ fmt_u (N.of_nat (S p)))%string) ->
            IO.build_legal_port_name crowded_io s (numbered_ports count) DataType.AUDIO
            = Some "x/audio_in 9999").
  { intros s count Hsize Hmy Hcount Hname.
    rewrite (build_legal_port_name_numbered crowded_io s (numbered_ports count)
               DataType.AUDIO "audio" count eq_refl).
    - rewrite (Hbase s Hsize Hmy). replace (N.min (count + 1) 9999) with 9999%N by lia.
      reflexivity.
    - apply numbered_ports_not_empty. lia.
    - rewrite (Hbase s Hsize Hmy), Hsize. vm_compute. lia.
    - lia.
    - rewrite (Hbase s Hsize Hmy). now apply numbered_names. }
  cbn [allocations].
  rewrite (Hstep (numbered_session "x/audio_in" 9998) 9998%N eq_refl eq_refl)
    by (lia || (intros; reflexivity)).
  unfold IO.register_for. change (IO._direction crowded_io) with Input. cbv iota.
  unfold Session.register_port.
  change (Session.backend_register (numbered_session "x/audio_in" 9998) DataType.AUDIO
            "x/audio_in 9999") with Granted. cbv iota zeta.
  change (Session.next_port (numbered_session "x/audio_in" 9998)) with (N.to_nat 9998).
  set (s1 := Session.with_ports _ _ _).
  assert (Htype : Port.type (Session.port s1 (N.to_nat 9998)) = DataType.AUDIO).
  { subst s1. cbn [Session.port Session.with_ports]. now rewrite Nat.eqb_refl. }
  rewrite Htype, numbered_ports_succ.
  rewrite (Hstep s1 (9998 + 1)%N eq_refl eq_refl); [reflexivity | lia |].
  intros p Hp. subst s1. unfold Session.port_name. cbn [Session.port Session.with_ports Session.log].
  destruct (Nat.eqb_spec p (N.to_nat 9998)) as [->|Hne]; [|reflexivity].
  vm_compute. reflexivity.
Qed.

(** Against the ports [long_base 1] to [long_base 999] of an IO with a
    long name, the name that is built has 251 characters, one more
    than the port-name size of the backend less the length of the
    client name. *)
Lemma long_name_allocation :
  IO.build_legal_port_name long_io (numbered_session long_base 999) (numbered_ports 999)
                           DataType.AUDIO
  = Some (long_base ++ " 1000")%string.
Proof.
  assert (Hbase : name_base long_io (numbered_session long_base 999)
                            (full_suffix long_io "audio") = long_base)
    by (vm_compute; reflexivity).
  rewrite (build_legal_port_name_numbered long_io (numbered_session long_base 999)
             (numbered_ports 999) DataType.AUDIO "audio" 999 eq_refl).
  - rewrite Hbase. reflexivity.
  - apply numbered_ports_not_empty. lia.
  - rewrite Hbase. vm_compute. lia.
  - lia.
  - rewrite Hbase. apply numbered_names. intros p _. reflexivity.
Qed.

(** C2 as stated fails twice: allocations in a row are not always
    pairwise distinct (the number stops at 9999), and a name can be
    longer than the port-name size less the length of the client name
    (a number of four digits after a name cut to the limit). *)
Lemma allocated_names_repeat_and_overshoot :
  ~ NoDup (allocations crowded_io DataType.AUDIO 2 (numbered_ports 9998)
                       (numbered_session "x/audio_in" 9998)) /\
  (exists name,
     IO.build_legal_port_name long_io (numbered_session long_base 999) (numbered_ports 999)
                              DataType.AUDIO = Some name /\
     (Z.of_N (Session.port_name_size (numbered_session long_base 999))
      - Z.of_nat (String.length (Session.my_name (numbered_session long_base 999)))
      < Z.of_nat (String.length name))%Z).
Proof.
  split.
  - rewrite crowded_allocations. intros H.
    inversion H as [|? ? Hnotin _]; subst. apply Hnotin. now left.
  - exists (long_base ++ " 1000")%string. split; [apply long_name_allocation|].
    vm_compute. reflexivity.
Qed.

(** C2, as the code has it.  A name that [build_legal_port_name]
    returns is the text before the number, a blank and a number [n]
    from 1 to 9999, cut to the port-name size of the backend, where
    every number below [n] gives the name of a port of the set; unless
    [n] is 9999 the name is not in the set.  The name is never longer
    than the port-name size of the backend.  When the backend leaves
    room (a client name that is not empty, and a port-name size of at
    least the length of the client name plus 17) and the set has fewer
    than 9998 ports, the name is not in the set; so [k] allocations in
    a row against a set of [p] ports are pairwise distinct, and
    distinct from the names in the set, as long as [p + k <= 9998].
    The name is determined by the IO, the type, the limits of the
    backend and the set of names of the ports. *)
Theorem build_legal_port_name_spec (io : IO.t) (s : Session.t) (ps : PortSet.t)
    (ty : DataType.t) (name : string) :
  IO.build_legal_port_name io s ps ty = Some name ->
  (exists sfx n,
     IO.port_suffix io ty = Some sfx /\ (1 <= n <= 9999)%N /\
     name = candidate (u32_incr (Session.port_name_size s))
                      (name_base io s (full_suffix io sfx)) n /\
     (forall m, (1 <= m < n)%N ->
        In (candidate (u32_incr (Session.port_name_size s))
                      (name_base io s (full_suffix io sfx)) m) (Session.names s ps)) /\
     ((n < 9999)%N -> ~ In name (Session.names s ps))) /\
  (N.of_nat (String.length name) <= Session.port_name_size s)%N /\
  (roomy s -> (PortSet.num_ports ps < 9998)%N -> ~ In name (Session.names s ps)) /\
  (forall k,
     roomy s -> grants_all s -> ports_wf ps s ->
     (PortSet.num_ports ps + N.of_nat k <= 9998)%N ->
     length (allocations io ty k ps s) = k /\
     NoDup (allocations io ty k ps s) /\
     (forall x, In x (allocations io ty k ps s) -> ~ In x (Session.names s ps))) /\
  (forall s' ps',
     Session.port_name_size s = Session.port_name_size s' ->
     Session.my_name s = Session.my_name s' ->
     (forall x, In x (Session.names s ps) <-> In x (Session.names s' ps')) ->
     IO.build_legal_port_name io s' ps' ty = Some name).
Proof.
  intros Hbuild.
  assert (Hty : ty <> DataType.NIL).
  { intros ->. unfold IO.build_legal_port_name in Hbuild. simpl in Hbuild. discriminate. }
  split; [|split; [|split; [|split]]].
  - destruct (build_legal_port_name_shape io s ps ty name Hbuild) as (sfx & Hsfx & Hname).
    destruct (find_port_hole_spec s ps (name_base io s (full_suffix io sfx)))
      as (n & Hn & Hrange & _ & Htaken & Hfree).
    rewrite Hn, fmt_d_of_N in Hname.
    exists sfx, n. split; [exact Hsfx|]. split; [exact Hrange|].
    split; [exact Hname|]. split; [exact Htaken|].
    intros Hlt. rewrite Hname. now apply Hfree.
  - now apply (build_legal_port_name_length io s ps ty).
  - intros Hroom Hfew. now apply (build_legal_port_name_fresh io s ps ty).
  - intros k Hroom Hg Hwf Hfew. now apply allocations_distinct.
  - intros s' ps' Hsize Hmy Hnames. rewrite <- Hbuild. symmetry.
    now apply build_legal_port_name_same_names.
Qed.

Lemma build_legal_port_name_spec_witness :
  (N.of_nat (String.length "Audio 1/audio_in 3")
   <= Session.port_name_size Example.stereo_session)%N /\
  ~ In "Audio 1/audio_in 3" (Session.names Example.stereo_session (IO.ports Example.stereo_io)) /\
  NoDup (allocations Example.stereo_io DataType.AUDIO 3 (IO.ports Example.stereo_io)
                     Example.stereo_session).
Proof.
  destruct (build_legal_port_name_spec Example.stereo_io Example.stereo_session
              (IO.ports Example.stereo_io) DataType.AUDIO "Audio 1/audio_in 3" eq_refl)
    as (_ & Hlen & Hfresh & Halloc & _).
  assert (Hroom : roomy Example.stereo_session) by (unfold roomy; cbn; lia).
  split; [exact Hlen|]. split.
  - apply Hfresh; [exact Hroom | reflexivity].
  - apply (Halloc 3).
    + exact Hroom.
    + intros ty nm. reflexivity.
    + split; [repeat constructor; simpl; intuition discriminate | repeat constructor].
    + vm_compute. discriminate.
Defined.

(** ** The round trip of the persisted state *)

(** *** The node that [state] makes *)

Lemma add_children_loop (f : Port.ptr -> XML.node) (l : list Port.ptr) : forall node,
  fold_left (fun nd p => XML.add_child_nocopy nd (f p)) l node =
  XML.Node (XML.name node) (XML.props node) (XML.children node ++ map f l).
Proof.
  induction l as [|p l IH]; intros node; simpl.
  - rewrite app_nil_r. now destruct node.
  - rewrite IH. unfold XML.add_child_nocopy. simpl. now rewrite <- app_assoc.
Qed.

Lemma state_node io s :
  IO.state io s =
  XML.Node "IO"
    ([("name", IO._name io); ("id", IO.id io);
      ("direction", IO.Direction_to_string (IO._direction io));
      ("default-type", DataType.to_string (IO._default_type io))]
     ++ (if String.eqb (IO._pretty_name_prefix io) "" then []
         else [("pretty-name", IO._pretty_name_prefix io)]))
    (map (fun p => Port.get_state (Session.port s p)) (PortSet.all (IO.ports io))).
Proof.
  unfold IO.state. rewrite add_children_loop.
  destruct (String.eqb (IO._pretty_name_prefix io) ""); reflexivity.
Qed.

(** *** Counting the ports of the node *)

Lemma count_children_ports io s (n : ChanCount.t) : forall (l : list Port.t) (na nm : N),
  Forall (fun p => Port.type p <> DataType.NIL) l ->
  (na + count_type DataType.AUDIO l < 4294967296)%N ->
  (nm + count_type DataType.MIDI l < 4294967296)%N ->
  IO.count_children io s (map Port.get_state l) n na nm (ChanCount.mk na nm) =
  Some (0%Z, ChanCount.max n (ChanCount.mk (na + count_type DataType.AUDIO l)
                                           (nm + count_type DataType.MIDI l)), s).
Proof.
  induction l as [|p l IH]; intros na nm Hty Ha Hm.
  - unfold count_type. simpl. now rewrite !N.add_0_r.
  - inversion Hty as [|? ? Hp Hl]; subst.
    unfold count_type in *. cbn [map IO.count_children].
    change (XML.name (Port.get_state p)) with "Port".
    change (String.eqb "Port" "Bundle") with false.
    change (String.eqb "Port" "Port") with true. cbv iota.
    change (XML.property (Port.get_state p) "type")
      with (Some (DataType.to_string (Port.type p))). cbv iota.
    cbn [filter] in *.
    destruct (Port.type p) eqn:Hpt; [| |congruence]; rewrite ?Hpt in Ha, Hm;
      cbn [DataType.eqb DataType.to_string] in *.
    + change (String.eqb "audio" "audio") with true. cbv iota.
      cbn [length] in Ha. rewrite u32_incr_small by lia.
      unfold ChanCount.set_audio, ChanCount.set. cbn [ChanCount.n_midi].
      rewrite IH by (assumption || lia). do 4 f_equal. f_equal; cbn [length]; lia.
    + change (String.eqb "midi" "audio") with false.
      change (String.eqb "midi" "midi") with true. cbv iota.
      cbn [length] in Hm. rewrite u32_incr_small by lia.
      unfold ChanCount.set_midi, ChanCount.set. cbn [ChanCount.n_audio].
      rewrite IH by (assumption || lia). do 4 f_equal. f_equal; cbn [length]; lia.
Qed.

Lemma filter_all (A : Type) (f : A -> bool) (l : list A) :
  Forall (fun x => f x = true) l -> filter f l = l.
Proof.
  induction l as [|x l IH]; intros H; [reflexivity|].
  inversion H; subst. simpl. rewrite H2, IH by assumption. reflexivity.
Qed.

Lemma filter_none (A : Type) (f : A -> bool) (l : list A) :
  Forall (fun x => f x = false) l -> filter f l = [].
Proof.
  induction l as [|x l IH]; intros H; [reflexivity|].
  inversion H; subst. simpl. rewrite H2, IH by assumption. reflexivity.
Qed.

Lemma count_type_ports ps s :
  ports_typed ps s ->
  count_type DataType.AUDIO (map (Session.port s) (PortSet.all ps))
    = ChanCount.n_audio (PortSet.count ps) /\
  count_type DataType.MIDI (map (Session.port s) (PortSet.all ps))
    = ChanCount.n_midi (PortSet.count ps) /\
  Forall (fun p => Port.type p <> DataType.NIL) (map (Session.port s) (PortSet.all ps)).
Proof.
  intros [Ha Hm]. destruct ps as [a m]. unfold PortSet.all, count_type. simpl in *.
  rewrite map_app, !filter_app, !length_app.
  rewrite (filter_all _ (fun p => DataType.eqb (Port.type p) DataType.AUDIO) (map (Session.port s) a)),
          (filter_none _ (fun p => DataType.eqb (Port.type p) DataType.AUDIO) (map (Session.port s) m)),
          (filter_none _ (fun p => DataType.eqb (Port.type p) DataType.MIDI) (map (Session.port s) a)),
          (filter_all _ (fun p => DataType.eqb (Port.type p) DataType.MIDI) (map (Session.port s) m)).
  - rewrite !length_map. simpl. split; [f_equal; lia|]. split; [reflexivity|].
    apply Forall_app. split; apply Forall_map.
    + eapply Forall_impl; [|exact Ha]. simpl. intros p ->. discriminate.
    + eapply Forall_impl; [|exact Hm]. simpl. intros p ->. discriminate.
  - apply Forall_map. eapply Forall_impl; [|exact Hm]. simpl. now intros p ->.
  - apply Forall_map. eapply Forall_impl; [|exact Ha]. simpl. now intros p ->.
  - apply Forall_map. eapply Forall_impl; [|exact Hm]. simpl. now intros p ->.
  - apply Forall_map. eapply Forall_impl; [|exact Ha]. simpl. now intros p ->.
Qed.

Lemma state_properties io s :
  XML.name (IO.state io s) = "IO" /\
  XML.property (IO.state io s) "ignore-name" = None /\
  XML.property (IO.state io s) "name" = Some (IO._name io) /\
  XML.property (IO.state io s) "default-type"
    = Some (DataType.to_string (IO._default_type io)) /\
  XML.property (IO.state io s) "id" = Some (IO.id io) /\
  XML.property (IO.state io s) "direction"
    = Some (IO.Direction_to_string (IO._direction io)) /\
  XML.property (IO.state io s) "connection" = None /\
  XML.property (IO.state io s) "pretty-name"
    = (if String.eqb (IO._pretty_name_prefix io) "" then None
       else Some (IO._pretty_name_prefix io)) /\
  XML.children (IO.state io s)
    = map Port.get_state (map (Session.port s) (PortSet.all (IO.ports io))).
Proof.
  rewrite state_node, map_map.
  destruct (String.eqb (IO._pretty_name_prefix io) ""); repeat split; reflexivity.
Qed.

(** *** What the steps of [set_state] keep *)

Lemma setup_bundle_keeps io s :
  IO.ports (IO.setup_bundle io s) = IO.ports io /\
  IO._direction (IO.setup_bundle io s) = IO._direction io /\
  IO._pretty_name_prefix (IO.setup_bundle io s) = IO._pretty_name_prefix io /\
  IO._sendish (IO.setup_bundle io s) = IO._sendish io.
Proof. unfold IO.setup_bundle. destruct (fold_left _ _ _). repeat split. Qed.

Lemma set_name_without_ports name io s :
  PortSet.all (IO.ports io) = [] ->
  exists io1,
    IO.set_name name io s = Some (true, io1, s) /\
    IO.ports io1 = IO.ports io /\
    IO._pretty_name_prefix io1 = IO._pretty_name_prefix io.
Proof.
  intros Hnil. unfold IO.set_name.
  destruct (String.eqb (IO._name io) name); [exists io; auto|].
  rewrite Hnil. cbn [fold_left]. eexists. split; [reflexivity|].
  destruct (setup_bundle_keeps (IO.with_name io (legalize_io_name name)) s)
    as (Hp & _ & Hpretty & _).
  rewrite Hp, Hpretty. split; reflexivity.
Qed.

Lemma ensure_ports_keeps count clear src io s r io' s' :
  IO.ensure_ports count clear src io s = Some (r, io', s') ->
  IO._direction io' = IO._direction io /\
  IO._pretty_name_prefix io' = IO._pretty_name_prefix io /\
  IO._sendish io' = IO._sendish io.
Proof.
  unfold IO.ensure_ports.
  destruct (ChanCount.eqb count (IO.n_ports io) && negb clear).
  { intros H; injection H as <- <- <-. auto. }
  destruct (IO.ensure_ports_locked count clear io s) as [[[[r1 changed] io1] s1]|] eqn:Hl;
    [|discriminate].
  assert (Hio1 : IO._direction io1 = IO._direction io /\
                 IO._pretty_name_prefix io1 = IO._pretty_name_prefix io /\
                 IO._sendish io1 = IO._sendish io).
  { unfold IO.ensure_ports_locked in Hl.
    destruct (IO.ensure_types io DataType.all count (IO.ports io) s false)
      as [[[[[r'|] p] s2] ch]|]; [| |discriminate].
    - injection Hl as <- <- <- <-. auto.
    - destruct ch; injection Hl as <- <- <- <-; auto. }
  destruct (negb (r1 =? 0)%Z).
  { intros H; injection H as <- <- <-. exact Hio1. }
  destruct changed; intros H; injection H as <- <- <-; [|exact Hio1].
  destruct (setup_bundle_keeps (IO.attach_buffers io1)
              (Session.log (EvChanged (IOChange.mk IOChange.ConfigurationChanged
                                         (PortSet.count (IO.ports io))
                                         (PortSet.count (IO.ports io1))) src) s1))
    as (_ & Hd & Hp & Hs).
  rewrite Hd, Hp, Hs. exact Hio1.
Qed.

Lemma of_string_to_string ty : ty <> DataType.NIL -> DataType.of_string (DataType.to_string ty) = ty.
Proof. destruct ty; intros H; [reflexivity | reflexivity | congruence]. Qed.

Lemma Direction_of_to_string d : IO.Direction_of_string (IO.Direction_to_string d) = Some d.
Proof. now destruct d. Qed.

(** *** The round trip *)

Lemma get_port_counts_of_state io s io0 s0 version :
  (3000 <= version)%Z ->
  ports_typed (IO.ports io) s ->
  (PortSet.num_ports (IO.ports io) < 4294967296)%N ->
  IO.n_ports io0 = ChanCount.ZERO ->
  IO.get_port_counts io0 s0 (IO.state io s) version ChanCount.ZERO
  = Some (0%Z, IO.n_ports io, s0).
Proof.
  intros Hv Htyped Hsmall Hzero. unfold IO.get_port_counts.
  destruct (Z.ltb_spec version 3000) as [|_]; [lia|].
  destruct (state_properties io s) as (_ & _ & _ & _ & _ & _ & -> & _ & ->).
  destruct (count_type_ports (IO.ports io) s Htyped) as (Ha & Hm & Hnil).
  unfold PortSet.num_ports, ChanCount.n_total in Hsmall.
  change ChanCount.ZERO with (ChanCount.mk 0 0).
  rewrite count_children_ports by (assumption || (rewrite ?Ha, ?Hm; lia)).
  rewrite Ha, Hm, Hzero. unfold IO.n_ports.
  destruct (PortSet.count (IO.ports io)) as [na nm]. unfold ChanCount.max. simpl.
  do 4 f_equal; lia.
Qed.

(** C5, as the code has it.  The state of an IO (whose default type
    is audio or MIDI, as [set_state] asserts, and whose ports are kept
    under their own type), given to the constructor from a node with a
    current version, yields an IO with the same port count per type,
    the same direction and the same pretty name, provided the backend
    grants every registration that the constructor asks for. *)
Theorem state_round_trip (io : IO.t) (s : Session.t) (addr : nat) (new_id : string)
    (s' : Session.t) (dt : DataType.t) (sendish : bool) (version : Z) :
  (3000 <= version)%Z ->
  IO._default_type io <> DataType.NIL ->
  ports_typed (IO.ports io) s ->
  (PortSet.num_ports (IO.ports io) < 4294967296)%N ->
  grants_all s' ->
  exists io' s'',
    IO.create_from_state addr new_id s' (IO.state io s) dt sendish version = Some (io', s'') /\
    IO.n_ports io' = IO.n_ports io /\
    IO._direction io' = IO._direction io /\
    IO._pretty_name_prefix io' = IO._pretty_name_prefix io.
Proof.
  intros Hv Hdt Htyped Hsmall Hg.
  unfold IO.create_from_state.
  set (io0 := IO.mk addr "unnamed io" new_id Input dt true sendish RCU.init [] None [] "" [] []).
  unfold IO.set_state.
  destruct (Z.ltb_spec version 3000) as [|_]; [lia|].
  destruct (state_properties io s)
    as (Hname & Hignore & Hnm & Hdty & Hid & Hdir & Hconn & Hpretty & Hchildren).
  rewrite Hname, Hignore, Hnm, Hdty. cbn [String.eqb Ascii.eqb Bool.eqb negb IO.state_node_name].
  change (IO.state_node_name) with "IO". cbn [String.eqb Ascii.eqb Bool.eqb negb].
  destruct (set_name_without_ports (IO._name io) io0 s' eq_refl) as (io1 & -> & Hp1 & Hpn1).
  cbn [option_map fst snd].
  rewrite (of_string_to_string _ Hdt).
  match goal with
  | |- context [match IO._default_type io with
                | DataType.AUDIO => ?a | DataType.MIDI => ?b | DataType.NIL => ?c end] =>
      assert (Hio2 : exists io2,
                match IO._default_type io with
                | DataType.AUDIO => a | DataType.MIDI => b | DataType.NIL => c end
                = Some io2 /\ IO.ports io2 = IO.ports io1 /\
                IO._pretty_name_prefix io2 = IO._pretty_name_prefix io1 /\
                IO._direction io2 = IO._direction io1)
  end.
  { destruct (IO._default_type io) eqn:E; [eexists; repeat split.. | exfalso; congruence]. }
  destruct Hio2 as (io2 & -> & Hp2 & Hpn2 & Hd2).
  unfold IO.set_id. rewrite Hid, Hdir, Direction_of_to_string. cbn [option_map].
  set (io4 := IO.with_header _ _ _ _).
  assert (Hp4 : IO.ports io4 = PortSet.empty_set).
  { transitivity (IO.ports io2); [reflexivity|]. rewrite Hp2, Hp1. reflexivity. }
  assert (Hpn4 : IO._pretty_name_prefix io4 = "").
  { transitivity (IO._pretty_name_prefix io2); [reflexivity|]. rewrite Hpn2, Hpn1.
    reflexivity. }
  assert (Hd4 : IO._direction io4 = IO._direction io) by reflexivity.
  unfold IO.create_ports.
  rewrite (get_port_counts_of_state io s io4 s' version Hv Htyped Hsmall)
    by (unfold IO.n_ports; now rewrite Hp4).
  destruct (ensure_ports_spec (IO.n_ports io)
              (negb (Session.inital_connect_or_deletion_in_progress s')) (IO.this io4)
              io4 s' Hg) as (io5 & s2 & Hens & Hcount & _ & _).
  { rewrite Hp4. split; constructor. }
  rewrite Hens. cbn [Z.eqb negb].
  destruct (ensure_ports_keeps _ _ _ _ _ _ _ _ Hens) as (Hd5 & Hpn5 & _).
  set (node1 := if IO._sendish io5 && Direction_eqb (IO._direction io5) Output then _ else _).
  assert (Hpretty1 : XML.property node1 "pretty-name" = XML.property (IO.state io s) "pretty-name").
  { subst node1. destruct (IO._sendish io5 && Direction_eqb (IO._direction io5) Output);
      reflexivity. }
  rewrite Hpretty1, Hpretty.
  assert (Hfinal : exists io6 s3,
            match (if String.eqb (IO._pretty_name_prefix io) "" then None
                   else Some (IO._pretty_name_prefix io)) with
            | Some name => IO.set_pretty_name name io5 s2
            | None => (io5, s2)
            end = (io6, s3) /\
            IO.ports io6 = IO.ports io5 /\ IO._direction io6 = IO._direction io5 /\
            IO._pretty_name_prefix io6 = IO._pretty_name_prefix io).
  { destruct (String.eqb (IO._pretty_name_prefix io) "") eqn:Hempty.
    - exists io5, s2. repeat split. apply String.eqb_eq in Hempty. congruence.
    - unfold IO.set_pretty_name.
      destruct (String.eqb (IO._pretty_name_prefix io5) (IO._pretty_name_prefix io)) eqn:Heq.
      + exists io5, s2. repeat split. now apply String.eqb_eq in Heq.
      + eexists _, _. repeat split. }
  destruct Hfinal as (io6 & s3 & -> & Hp6 & Hd6 & Hpn6).
  eexists _, _. split; [reflexivity|].
  destruct (setup_bundle_keeps io6
              (fold_left (IO.apply_port_state io6) (XML.children node1) s3))
    as (Hpb & Hdb & Hpnb & _).
  unfold IO.n_ports. rewrite Hpb, Hdb, Hpnb, Hp6, Hd6, Hd5, Hd4.
  split; [exact Hcount|]. split; [reflexivity | exact Hpn6].
Qed.

Lemma state_round_trip_witness :
  exists io' s'',
    IO.create_from_state 9 "45" Example.session
      (IO.state Example.with_midi_io Example.with_midi_session) DataType.AUDIO false 7000
    = Some (io', s'') /\
    IO.n_ports io' = IO.n_ports Example.with_midi_io /\
    IO._direction io' = IO._direction Example.with_midi_io /\
    IO._pretty_name_prefix io' = IO._pretty_name_prefix Example.with_midi_io.
Proof.
  apply (state_round_trip Example.with_midi_io Example.with_midi_session 9 "45"
           Example.session DataType.AUDIO false 7000).
  - lia.
  - discriminate.
  - split; repeat constructor.
  - reflexivity.
  - intros ty portname. reflexivity.
Defined.

(** C5 as stated fails: built from the state of an IO with two audio
    ports while the backend refuses the names of those ports, the new
    IO has no port. *)
Lemma state_round_trip_needs_the_backend :
  exists io' s'',
    IO.create_from_state 9 "45" occupied_session
      (IO.state Example.stereo_io Example.stereo_session) DataType.AUDIO false 7000
    = Some (io', s'') /\
    IO.n_ports Example.stereo_io = ChanCount.mk 2 0 /\
    IO.n_ports io' = ChanCount.mk 0 0.
Proof.
  eexists _, _. split; [vm_compute; reflexivity|]. split; reflexivity.
Qed.

(** ** Witnesses on concrete IOs *)

Lemma connected_latency_spec_witness :
  IO.connected_latency false Example.stereo_io Example.latent_session = 128%Z /\
  IO.connected_latency false Example.stereo_io Example.latent_session =
    IO.latency Example.stereo_io Example.latent_session /\
  IO.connected_latency true Example.io Example.session = 0%Z.
Proof.
  split; [|split].
  - rewrite (proj1 (connected_latency_spec false Example.stereo_io Example.latent_session)).
    reflexivity.
  - apply (proj1 (proj2 (connected_latency_spec false Example.stereo_io
                           Example.latent_session)));
      reflexivity.
  - apply (proj2 (proj2 (connected_latency_spec true Example.io Example.session))).
    reflexivity.
Defined.

Lemma add_port_midi_cap_witness :
  IO.add_port "" 0 DataType.MIDI Example.with_midi_io Example.with_midi_session =
  Some ((-1)%Z, Example.with_midi_io, Example.with_midi_session).
Proof.
  apply (add_port_midi_cap "" 0 Example.with_midi_io Example.with_midi_session).
  vm_compute. discriminate.
Defined.

Lemma connect_disconnect_guards_witness :
  IO.connect (Some 7) "system:capture_1" 0 Example.stereo_io Example.stereo_session =
    ((-1)%Z, Example.stereo_io, Example.stereo_session) /\
  IO.disconnect None "system:capture_1" 0 Example.stereo_io Example.stereo_session =
    (0%Z, Example.stereo_io, Example.stereo_session).
Proof.
  split.
  - apply (proj2 (connect_disconnect_guards (Some 7) "system:capture_1" 0
                    Example.stereo_io Example.stereo_session) 7).
    + reflexivity.
    + discriminate.
    + reflexivity.
  - apply (proj1 (connect_disconnect_guards None "system:capture_1" 0
                    Example.stereo_io Example.stereo_session)).
    now right.
Defined.

Lemma set_port_state_2X_inputs_witness :
  exists s',
    IO.set_port_state_2X (XML.Node "IO" [("inputs", "{p1},{p2,p3}")] []) 2000 true
                         Example.stereo_io Example.stereo_session = (0%Z, s') /\
    Session.trace s' =
      Session.trace Example.stereo_session
      ++ [EvConnect 0 "p1"; EvConnect 1 "p2"; EvConnect 1 "p3"] /\
    ((forall a b, Session.backend_connect Example.stereo_session a b = true) ->
     In "p1" (Port.connections (Session.port s' 0)) /\
     In "p2" (Port.connections (Session.port s' 1)) /\
     In "p3" (Port.connections (Session.port s' 1))).
Proof.
  apply (proj2 (set_port_state_2X_inputs
                  (XML.Node "IO" [("inputs", "{p1},{p2,p3}")] []) 2000
                  Example.stereo_io Example.stereo_session) 0 1);
    reflexivity.
Defined.

(* ================================================================== *)
(** * Further properties of the class *)

(** ** add_port and remove_port, beyond their guards *)

Lemma no_objection_emit io after :
  no_objection io -> IO.PortCountChanging_emit io after = 0%Z.
Proof.
  intros Hno. unfold IO.PortCountChanging_emit. rewrite IntBoolCombiner_spec.
  replace (existsb _ _) with false; [reflexivity|].
  symmetry. apply not_true_is_false. intros H.
  apply existsb_exists in H. destruct H as (x & Hin & Hpos).
  apply in_map_iff in Hin. destruct Hin as (slot & <- & Hin).
  apply Z.gtb_lt in Hpos. specialize (Hno slot after Hin). lia.
Qed.

Lemma contains_in ps p : PortSet.contains ps p = true <-> In p (PortSet.all ps).
Proof.
  unfold PortSet.contains. rewrite existsb_exists. split.
  - intros (x & Hin & Heq). apply Nat.eqb_eq in Heq. now subst.
  - intros Hin. exists p. split; [exact Hin | apply Nat.eqb_refl].
Qed.

Lemma remove_first_present x l :
  In x l -> exists l', PortSet.remove_first x l = Some l' /\ length l = S (length l').
Proof.
  induction l as [|q l IH]; simpl; [tauto|].
  intros Hin. destruct (Nat.eqb x q) eqn:E.
  - eexists. split; [reflexivity|reflexivity].
  - destruct Hin as [->|Hin]; [rewrite Nat.eqb_refl in E; discriminate|].
    destruct (IH Hin) as (l' & -> & Hlen). simpl. eexists. split; [reflexivity|].
    simpl. lia.
Qed.

Lemma remove_present ps p :
  In p (PortSet.all ps) ->
  fst (PortSet.remove ps p) = true /\
  (PortSet.num_ports (snd (PortSet.remove ps p)) + 1 = PortSet.num_ports ps)%N.
Proof.
  unfold PortSet.all, PortSet.remove, PortSet.num_ports, PortSet.count, ChanCount.n_total.
  intros Hin. destruct (PortSet.remove_first p (PortSet.audio ps)) as [a|] eqn:Ea.
  - split; [reflexivity|]. simpl.
    destruct (in_dec Nat.eq_dec p (PortSet.audio ps)) as [Hi|Hn].
    + destruct (remove_first_present _ _ Hi) as (l' & Hl' & Hlen).
      rewrite Ea in Hl'. injection Hl' as <-. rewrite Hlen. lia.
    + rewrite (remove_first_absent _ _ Hn) in Ea. discriminate.
  - assert (Hm : In p (PortSet.midi ps)).
    { apply in_app_or in Hin. destruct Hin as [Hi|Hi]; [|exact Hi].
      destruct (remove_first_present _ _ Hi) as (l' & Hl' & _). congruence. }
    destruct (remove_first_present _ _ Hm) as (l' & -> & Hlen).
    split; [reflexivity|]. simpl. rewrite Hlen. lia.
Qed.

Lemma remove_absent ps p :
  ~ In p (PortSet.all ps) -> PortSet.remove ps p = (false, ps).
Proof.
  unfold PortSet.all, PortSet.remove. intros Hn.
  rewrite !remove_first_absent; [reflexivity| |]; intros H; apply Hn, in_or_app; auto.
Qed.

(** X1.  [remove_port] of a port of the IO, when no observer objects,
    returns 0: the PortSet is the old one without that port, one port
    fewer; the engine is asked to unregister the port;
    [PortCountChanged] and [changed] are emitted, the latter with
    ConnectionsChanged as well when the port was connected; the
    session is dirty and the bundle describes the new ports. *)
Theorem remove_port_of_own_port (port : Port.ptr) (src : nat) (io : IO.t) (s : Session.t) :
  no_objection io ->
  IO.has_port io port = true ->
  exists io' s',
    IO.remove_port port src io s = (0%Z, io', s') /\
    IO.ports io' = snd (PortSet.remove (IO.ports io) port) /\
    (PortSet.num_ports (IO.ports io') + 1 = PortSet.num_ports (IO.ports io))%N /\
    Session.trace s' =
      Session.trace s ++
      [EvUnregister port; EvPortCountChanged (IO.n_ports io');
       EvChanged (IOChange.mk
                    (if Port.connected (Session.port s port)
                     then N.lor IOChange.ConfigurationChanged IOChange.ConnectionsChanged
                     else IOChange.ConfigurationChanged)
                    (IO.n_ports io) (IO.n_ports io')) src] /\
    Session.dirty s' = true /\
    bundle_describes_ports io'.
Proof.
  intros Hno Hhas. apply contains_in in Hhas.
  destruct (remove_present _ _ Hhas) as (Hrem & Hnum).
  unfold IO.remove_port. rewrite no_objection_emit by exact Hno. cbn [Z.eqb negb].
  destruct (PortSet.remove (IO.ports io) port) as [removed p1] eqn:Hr.
  cbn [fst snd] in Hrem, Hnum. subst removed.
  assert (Hty : IOChange.type
            (IOChange.mk
               (N.lor (N.lor IOChange.NoChange IOChange.ConfigurationChanged)
                  (if Port.connected (Session.port s port)
                   then IOChange.ConnectionsChanged else 0%N))
               (PortSet.count (IO.ports io)) (PortSet.count p1)) =
          (if Port.connected (Session.port s port) then 3%N else 1%N)).
  { destruct (Port.connected (Session.port s port)); reflexivity. }
  set (change := IOChange.mk _ _ _) in *.
  assert (Hne : (IOChange.type change =? IOChange.NoChange)%N = false).
  { rewrite Hty. destruct (Port.connected (Session.port s port)); reflexivity. }
  assert (Hcfg : (N.land (IOChange.type change) IOChange.ConfigurationChanged =? 0)%N = false).
  { rewrite Hty. destruct (Port.connected (Session.port s port)); reflexivity. }
  rewrite Hne, Hcfg. cbn [negb].
  eexists _, _. split; [reflexivity|].
  rewrite ports_setup_bundle.
  split; [reflexivity|]. split; [exact Hnum|]. split.
  - cbn. rewrite <- !app_assoc. cbn. unfold IO.n_ports. rewrite ports_setup_bundle.
    subst change. cbn. destruct (Port.connected (Session.port s port)); reflexivity.
  - split; [reflexivity | apply setup_bundle_describes].
Qed.

(** X2.  [remove_port] of a port that the IO does not have returns -1
    and leaves PortSet and bundle as they were, and [changed] is not
    emitted; yet the engine is asked to unregister the port and
    [PortCountChanged] is emitted with the unchanged count. *)
Theorem remove_port_of_foreign_port (port : Port.ptr) (src : nat) (io : IO.t) (s : Session.t) :
  no_objection io ->
  IO.has_port io port = false ->
  exists io' s',
    IO.remove_port port src io s = ((-1)%Z, io', s') /\
    IO.ports io' = IO.ports io /\
    IO._bundle io' = IO._bundle io /\
    Session.trace s' =
      Session.trace s ++ [EvUnregister port; EvPortCountChanged (IO.n_ports io)] /\
    Session.dirty s' = Session.dirty s.
Proof.
  intros Hno Hhas.
  assert (Hnot : ~ In port (PortSet.all (IO.ports io))).
  { intros Hin. apply contains_in in Hin. unfold IO.has_port in Hhas. congruence. }
  unfold IO.remove_port. rewrite no_objection_emit by exact Hno. cbn [Z.eqb negb].
  rewrite (remove_absent _ _ Hnot).
  eexists _, _. split; [reflexivity|].
  split; [reflexivity|]. split; [reflexivity|]. split; [|reflexivity].
  cbn. rewrite <- app_assoc. reflexivity.
Qed.

Lemma requested_type_not_nil io ty :
  IO.can_add_port io (requested_type io ty) = true -> requested_type io ty <> DataType.NIL.
Proof. intros H E. rewrite E in H. discriminate. Qed.

Lemma apply_pretty_name_loop_kept (f : N -> Port.t -> Port.t) (l : list Port.ptr) :
  (forall n o, Port.name (f n o) = Port.name o /\ Port.type (f n o) = Port.type o /\
               Port.connections (f n o) = Port.connections o) ->
  forall pn s,
    let s' := snd (fold_left
                     (fun (acc : N * Session.t) p =>
                        let '(pn, s0) := acc in
                        (u32_incr pn, Session.update_port p (f pn) s0)) l (pn, s)) in
    (forall q, Port.name (Session.port s' q) = Port.name (Session.port s q) /\
               Port.type (Session.port s' q) = Port.type (Session.port s q) /\
               Port.connections (Session.port s' q) = Port.connections (Session.port s q)) /\
    Session.trace s' = Session.trace s /\ Session.dirty s' = Session.dirty s /\
    Session.next_port s' = Session.next_port s.
Proof.
  intros Hf. induction l as [|p l IH]; intros pn s; cbn [fold_left].
  - cbn. repeat split.
  - specialize (IH (u32_incr pn) (Session.update_port p (f pn) s)).
    cbn zeta in IH. destruct IH as (Hq & Ht & Hd & Hn).
    cbn zeta. split; [|split; [|split]].
    + intros q. destruct (Hq q) as (H1 & H2 & H3). rewrite H1, H2, H3.
      unfold Session.update_port, Session.with_ports. cbn.
      destruct (Nat.eqb q p); [apply Hf | repeat split].
    + rewrite Ht. reflexivity.
    + rewrite Hd. reflexivity.
    + rewrite Hn. reflexivity.
Qed.

Lemma apply_pretty_name_kept io s :
  (forall q, Port.name (Session.port (IO.apply_pretty_name io s) q) = Port.name (Session.port s q) /\
             Port.type (Session.port (IO.apply_pretty_name io s) q) = Port.type (Session.port s q) /\
             Port.connections (Session.port (IO.apply_pretty_name io s) q)
             = Port.connections (Session.port s q)) /\
  Session.trace (IO.apply_pretty_name io s) = Session.trace s /\
  Session.dirty (IO.apply_pretty_name io s) = Session.dirty s /\
  Session.next_port (IO.apply_pretty_name io s) = Session.next_port s.
Proof.
  unfold IO.apply_pretty_name.
  destruct (String.eqb (IO._pretty_name_prefix io) ""); [repeat split|].
  apply (apply_pretty_name_loop_kept
           (fun pn o => Port.set_pretty_name o
              (IO._pretty_name_prefix io ++ "/" ++
               (if Direction_eqb (IO._direction io) Output then "Out" else "In")
               ++ " " ++ fmt_u pn))).
  intros n o. repeat split.
Qed.

Lemma register_for_granted_full io s ty portname :
  grants_all s ->
  IO.register_for io ty portname s =
  Some (Some (Session.next_port s),
        Session.with_ports (Session.log (EvRegister (IO._direction io) ty portname) s)
          (fun q => if Nat.eqb q (Session.next_port s)
                    then Port.fresh portname ty (IO._direction io) else Session.port s q)
          (S (Session.next_port s))).
Proof.
  intros Hg. unfold IO.register_for, Session.register_port. rewrite Hg.
  destruct (IO._direction io); reflexivity.
Qed.

Lemma count_add ps ty p :
  ty <> DataType.NIL ->
  PortSet.count (PortSet.add ps ty p) =
  ChanCount.set (PortSet.count ps) ty (ChanCount.get (PortSet.count ps) ty + 1)%N.
Proof.
  intros Hty. destruct ty; try congruence; unfold PortSet.add, PortSet.count; cbn;
    rewrite length_app; cbn; f_equal; lia.
Qed.

(** X3.  [add_port], when the backend grants the registration, no
    observer objects, the type may be added and the destination (if
    any) can be connected, returns 0: the new port comes last among
    the ports of its type (the default type of the IO for NIL), under
    the name that [build_legal_port_name] gives, connected to the
    destination only; the count of that type is one higher, the
    session is dirty and the bundle describes the new ports. *)
Theorem add_port_adds_one_port (destination : string) (src : nat) (ty : DataType.t)
    (io : IO.t) (s : Session.t) :
  grants_all s ->
  no_objection io ->
  IO.can_add_port io (requested_type io ty) = true ->
  (destination = "" \/ forall a, Session.backend_connect s a destination = true) ->
  exists portname io' s',
    IO.build_legal_port_name io s (IO.ports io) (requested_type io ty) = Some portname /\
    IO.add_port destination src ty io s = Some (0%Z, io', s') /\
    IO.ports io' = PortSet.add (IO.ports io) (requested_type io ty) (Session.next_port s) /\
    IO.n_ports io' =
      ChanCount.set (IO.n_ports io) (requested_type io ty)
                    (ChanCount.get (IO.n_ports io) (requested_type io ty) + 1)%N /\
    Port.name (Session.port s' (Session.next_port s)) = portname /\
    Port.type (Session.port s' (Session.next_port s)) = requested_type io ty /\
    Port.connections (Session.port s' (Session.next_port s)) =
      (if String.eqb destination "" then [] else [destination]) /\
    Session.dirty s' = true /\
    bundle_describes_ports io'.
Proof.
  intros Hg Hno Hcan Hdest.
  pose proof (requested_type_not_nil io ty Hcan) as Hty.
  destruct (build_legal_port_name_some io s (IO.ports io) _ Hty) as (portname & Hname).
  exists portname. unfold IO.add_port. fold (requested_type io ty).
  rewrite Hcan. cbn [negb]. rewrite no_objection_emit by exact Hno. cbn [Z.eqb negb].
  rewrite Hname, (register_for_granted_full io s _ portname Hg).
  set (s1 := Session.with_ports _ _ _).
  assert (Hp1 : Session.port s1 (Session.next_port s)
                = Port.fresh portname (requested_type io ty) (IO._direction io)).
  { subst s1. cbn. now rewrite Nat.eqb_refl. }
  rewrite Hp1. cbn [Port.type Port.fresh].
  set (p1 := PortSet.add _ _ _).
  set (io2 := IO.attach_buffers _).
  set (s3 := Session.log (EvChanged _ _) _).
  assert (Hp3 : Session.port s3 (Session.next_port s)
                = Port.fresh portname (requested_type io ty) (IO._direction io)) by exact Hp1.
  destruct (String.eqb destination "") eqn:Hempty.
  - cbn [Z.eqb negb].
    destruct (apply_pretty_name_kept io2 s3) as (Hq & _).
    destruct (Hq (Session.next_port s)) as (Hn & Ht & Hc).
    eexists _, _. split; [reflexivity|]. split; [reflexivity|].
    rewrite ports_setup_bundle. unfold IO.n_ports. rewrite ports_setup_bundle.
    split; [reflexivity|]. split; [apply count_add, Hty|].
    cbn [Session.port Session.set_dirty]. rewrite Hn, Ht, Hc, Hp3.
    repeat split. apply setup_bundle_describes.
  - destruct Hdest as [->|Hall]; [discriminate|].
    unfold Session.port_connect.
    replace (Session.backend_connect s3) with (Session.backend_connect s) by reflexivity.
    rewrite Hall. cbn [Z.eqb negb].
    set (s4 := Session.update_port _ _ _).
    destruct (apply_pretty_name_kept io2 s4) as (Hq & _).
    destruct (Hq (Session.next_port s)) as (Hn & Ht & Hc).
    eexists _, _. split; [reflexivity|]. split; [reflexivity|].
    rewrite ports_setup_bundle. unfold IO.n_ports. rewrite ports_setup_bundle.
    split; [reflexivity|]. split; [apply count_add, Hty|].
    cbn [Session.port Session.set_dirty]. rewrite Hn, Ht, Hc.
    subst s4. unfold Session.update_port, Session.with_ports. cbn [Session.port].
    rewrite Nat.eqb_refl.
    replace (Session.port (Session.log (EvConnect (Session.next_port s) destination) s3)
               (Session.next_port s))
      with (Port.fresh portname (requested_type io ty) (IO._direction io)) by (symmetry; exact Hp3).
    repeat split. apply setup_bundle_describes.
Qed.

(** X4.  When the backend answers the registration of [add_port]
    with a null pointer, [add_port] returns -1: the registration was
    attempted and the failure reported, and nothing else happened (same
    ports, same bundle, no port handed out, session not dirtied). *)
Theorem add_port_refused_by_backend (destination : string) (src : nat) (ty : DataType.t)
    (io : IO.t) (s : Session.t) (portname : string) :
  no_objection io ->
  IO.can_add_port io (requested_type io ty) = true ->
  IO.build_legal_port_name io s (IO.ports io) (requested_type io ty) = Some portname ->
  Session.backend_register s (requested_type io ty) portname = Refused ->
  exists io' s',
    IO.add_port destination src ty io s = Some ((-1)%Z, io', s') /\
    IO.ports io' = IO.ports io /\
    IO._bundle io' = IO._bundle io /\
    Session.trace s' =
      Session.trace s ++
      [EvRegister (IO._direction io) (requested_type io ty) portname;
       IO.cannot_register io portname] /\
    Session.next_port s' = Session.next_port s /\
    Session.dirty s' = Session.dirty s.
Proof.
  intros Hno Hcan Hname Href.
  unfold IO.add_port. fold (requested_type io ty).
  rewrite Hcan. cbn [negb]. rewrite no_objection_emit by exact Hno. cbn [Z.eqb negb].
  rewrite Hname.
  assert (Hreg : IO.register_for io (requested_type io ty) portname s =
                 Some (None, Session.log (EvRegister (IO._direction io)
                                            (requested_type io ty) portname) s)).
  { unfold IO.register_for, Session.register_port. rewrite Href.
    destruct (IO._direction io); reflexivity. }
  rewrite Hreg.
  eexists _, _. split; [reflexivity|]. repeat split.
  cbn. now rewrite <- app_assoc.
Qed.

(** X5.  When the new port of [add_port] cannot be connected to the
    destination, [add_port] returns -1 but the port stays: it is in
    the PortSet and both notifications were emitted, while the bundle
    is not rebuilt and the session is not marked dirty. *)
Theorem add_port_keeps_port_when_connect_fails (destination : string) (src : nat)
    (ty : DataType.t) (io : IO.t) (s : Session.t) (portname : string) :
  grants_all s ->
  no_objection io ->
  IO.can_add_port io (requested_type io ty) = true ->
  IO.build_legal_port_name io s (IO.ports io) (requested_type io ty) = Some portname ->
  destination <> "" ->
  Session.backend_connect s portname destination = false ->
  exists io' s',
    IO.add_port destination src ty io s = Some ((-1)%Z, io', s') /\
    IO.ports io' = PortSet.add (IO.ports io) (requested_type io ty) (Session.next_port s) /\
    IO._bundle io' = IO._bundle io /\
    Session.dirty s' = Session.dirty s /\
    Session.trace s' =
      Session.trace s ++
      [EvRegister (IO._direction io) (requested_type io ty) portname;
       EvPortCountChanged (PortSet.count (IO.ports io'));
       EvChanged (IOChange.mk IOChange.ConfigurationChanged
                              (IO.n_ports io) (PortSet.count (IO.ports io'))) src;
       EvConnect (Session.next_port s) destination].
Proof.
  intros Hg Hno Hcan Hname Hne Hfail.
  unfold IO.add_port. fold (requested_type io ty).
  rewrite Hcan. cbn [negb]. rewrite no_objection_emit by exact Hno. cbn [Z.eqb negb].
  rewrite Hname, (register_for_granted_full io s _ portname Hg).
  set (s1 := Session.with_ports _ _ _).
  assert (Hp1 : Session.port s1 (Session.next_port s)
                = Port.fresh portname (requested_type io ty) (IO._direction io)).
  { subst s1. cbn. now rewrite Nat.eqb_refl. }
  rewrite Hp1. cbn [Port.type Port.fresh].
  destruct (String.eqb destination "") eqn:Hempty.
  { apply String.eqb_eq in Hempty. contradiction. }
  unfold Session.port_connect.
  set (s3 := Session.log (EvChanged _ _) _).
  assert (Hpn : Session.port_name s3 (Session.next_port s) = portname).
  { unfold Session.port_name. subst s3. cbn [Session.port Session.log].
    rewrite Hp1. reflexivity. }
  rewrite Hpn.
  replace (Session.backend_connect s3) with (Session.backend_connect s) by reflexivity.
  rewrite Hfail. cbn [Z.eqb negb].
  eexists _, _. split; [reflexivity|]. repeat split.
  cbn. rewrite <- !app_assoc. reflexivity.
Qed.

Lemma existsb_of_map (A B : Type) (f : A -> B) (g : B -> bool) (l : list A) :
  existsb g (map f l) = existsb (fun a => g (f a)) l.
Proof. induction l as [|a l IH]; simpl; [reflexivity | now rewrite IH]. Qed.

(** X6.  The pre-check combines the observers' answers to 1 when one
    of them is positive and to 0 otherwise; an observer that answers
    with a positive number stops [add_port] and [remove_port], which
    return -1 with the IO and the session untouched. *)
Theorem positive_answer_vetoes_mutation (destination : string) (src : nat)
    (ty : DataType.t) (port : Port.ptr) (io : IO.t) (s : Session.t) :
  (forall after,
     IO.PortCountChanging_emit io after =
     if existsb (fun slot => (slot after >? 0)%Z) (IO.PortCountChanging io)
     then 1%Z else 0%Z) /\
  ((exists slot, In slot (IO.PortCountChanging io) /\ forall after, (slot after > 0)%Z) ->
   IO.add_port destination src ty io s = Some ((-1)%Z, io, s) /\
   IO.remove_port port src io s = ((-1)%Z, io, s)).
Proof.
  split.
  - intros after. unfold IO.PortCountChanging_emit. rewrite IntBoolCombiner_spec.
    now rewrite existsb_of_map.
  - intros (slot & Hin & Hpos).
    assert (Hall : forall after, exists slot0,
               In slot0 (IO.PortCountChanging io) /\ (slot0 after > 0)%Z).
    { intros after. exists slot. split; [exact Hin | apply Hpos]. }
    split.
    + now apply positive_veto_stops_add_port.
    + now apply positive_veto_stops_remove_port.
Qed.

(** ** Clearing and disconnecting *)

Lemma remove_unused_enough ty i n p s ch :
  (N.of_nat i <= n)%N -> IO.remove_unused ty i n p s ch = Some (p, s, ch).
Proof.
  intros Hle. destruct i as [|i]; [reflexivity|]. cbn [IO.remove_unused].
  destruct (N.ltb_spec n (N.of_nat (S i))); [lia | reflexivity].
Qed.




Lemma any_port_connected_existsb s l :
  IO.any_port_connected s l = any_connected s l.
Proof.
  induction l as [|p l IH]; cbn; [reflexivity|].
  rewrite IH. now destruct (Port.connected (Session.port s p)).
Qed.





(** ** What ensure_ports does to the ports and to the session *)

Lemma only_engine_events_refl s : only_engine_events s s.
Proof. exists []. now rewrite app_nil_r. Qed.

Lemma only_engine_events_trans s1 s2 s3 :
  only_engine_events s1 s2 -> only_engine_events s2 s3 -> only_engine_events s1 s3.
Proof.
  intros (e1 & H1 & F1) (e2 & H2 & F2). exists (e1 ++ e2).
  rewrite H2, H1, app_assoc, forallb_app, F1, F2. auto.
Qed.

Lemma register_for_direction io ty portname s :
  IO.register_for io ty portname s = Session.register_port (IO._direction io) ty portname s.
Proof. unfold IO.register_for. now destruct (IO._direction io). Qed.

Lemma remove_unused_quiet ty n : forall i ps s ch ps' s' ch',
  IO.remove_unused ty i n ps s ch = Some (ps', s', ch') ->
  only_engine_events s s' /\ Session.dirty s' = Session.dirty s /\
  Session.next_port s' = Session.next_port s.
Proof.
  induction i as [|i IH]; intros ps s ch ps' s' ch' H; cbn [IO.remove_unused] in H.
  - injection H as <- <- <-. split; [apply only_engine_events_refl | auto].
  - destruct (n <? N.of_nat (S i))%N.
    + destruct (PortSet.port_of_type ps ty i) as [port|]; [|discriminate].
      apply IH in H. destruct H as (Hq & Hd & Hn).
      split; [|split; [exact Hd | exact Hn]].
      eapply only_engine_events_trans; [|exact Hq].
      exists [EvUnregister port]. split; reflexivity.
    + injection H as <- <- <-. split; [apply only_engine_events_refl | auto].
Qed.

Lemma create_new_appends io ty n :
  ty <> DataType.NIL ->
  forall fuel ps s ch r ps' s' ch',
    IO.create_new io fuel ty n ps s ch = Some (r, ps', s', ch') ->
    (exists extra,
       ps' = with_type ps ty (PortSet.of_type ps ty ++ extra) /\
       Forall (fun p => Session.next_port s <= p) extra) /\
    only_engine_events s s' /\ Session.dirty s' = Session.dirty s /\
    Session.next_port s <= Session.next_port s' /\
    (r = None \/ r = Some (-1)%Z).
Proof.
  intros Hty. induction fuel as [|fuel IH]; intros ps s ch r ps' s' ch' H;
    cbn [IO.create_new] in H.
  - destruct (ChanCount.get (PortSet.count ps) ty <? n)%N; [discriminate|].
    injection H as <- <- <- <-.
    split; [exists []; rewrite app_nil_r, with_type_same; auto|].
    split; [apply only_engine_events_refl | auto].
  - destruct (ChanCount.get (PortSet.count ps) ty <? n)%N.
    + destruct (IO.build_legal_port_name io s ps ty) as [portname|]; [|discriminate].
      rewrite register_for_direction in H. unfold Session.register_port in H.
      destruct (Session.backend_register s ty portname); [| |discriminate].
      * cbn [Session.port Session.with_ports] in H. rewrite Nat.eqb_refl in H.
        cbn [Port.type Port.fresh] in H. rewrite add_of_type in H.
        apply IH in H. destruct H as ((extra & -> & Hfresh) & Hq & Hd & Hn & Hr).
        cbn [Session.next_port Session.with_ports] in Hfresh, Hn.
        split; [|split; [|split; [exact Hd | split; [lia | exact Hr]]]].
        -- exists (Session.next_port s :: extra).
           rewrite of_type_with_type, with_type_twice, <- app_assoc by assumption.
           split; [reflexivity|]. constructor; [lia|].
           eapply Forall_impl; [|exact Hfresh]. intros; cbn beta in *; lia.
        -- eapply only_engine_events_trans; [|exact Hq].
           exists [EvRegister (IO._direction io) ty portname]. split; reflexivity.
      * injection H as <- <- <- <-.
        split; [exists []; rewrite app_nil_r, with_type_same; auto|].
        split; [|auto].
        exists [EvRegister (IO._direction io) ty portname; IO.cannot_register io portname].
        split; [cbn; now rewrite <- app_assoc | reflexivity].
    + injection H as <- <- <- <-.
      split; [exists []; rewrite app_nil_r, with_type_same; auto|].
      split; [apply only_engine_events_refl | auto].
Qed.

Lemma ensure_types_quiet io count : forall tys ps s ch r ps' s' ch',
  Forall (fun ty => ty <> DataType.NIL) tys ->
  IO.ensure_types io tys count ps s ch = Some (r, ps', s', ch') ->
  only_engine_events s s' /\ Session.dirty s' = Session.dirty s /\
  (r = None \/ r = Some (-1)%Z).
Proof.
  induction tys as [|ty tys IH]; intros ps s ch r ps' s' ch' Htys H; cbn [IO.ensure_types] in H.
  - injection H as <- <- <- <-. split; [apply only_engine_events_refl | auto].
  - inversion Htys as [|? ? Hty Htys']; subst.
    destruct (IO.remove_unused _ _ _ _ _ _) as [[[p1 s1] ch1]|] eqn:Hrem; [|discriminate].
    apply remove_unused_quiet in Hrem. destruct Hrem as (Hq1 & Hd1 & _).
    destruct (IO.create_new _ _ _ _ _ _ _) as [[[[r2 p2] s2] ch2]|] eqn:Hnew; [|discriminate].
    apply (create_new_appends io ty _ Hty) in Hnew.
    destruct Hnew as (_ & Hq2 & Hd2 & _ & Hr2).
    destruct r2 as [r2|].
    + injection H as <- <- <- <-.
      split; [eapply only_engine_events_trans; eauto|]. split; [congruence | exact Hr2].
    + apply IH in H; [|exact Htys']. destruct H as (Hq3 & Hd3 & Hr3).
      split; [|split; [congruence | exact Hr3]].
      eapply only_engine_events_trans; [|exact Hq3].
      eapply only_engine_events_trans; eauto.
Qed.

Lemma create_new_answers io ty n :
  ty <> DataType.NIL ->
  forall fuel ps s ch,
    answers_all s ->
    ports_wf ps s ->
    N.to_nat n - length (PortSet.of_type ps ty) <= fuel ->
    exists r ps' s' ch',
      IO.create_new io fuel ty n ps s ch = Some (r, ps', s', ch') /\
      answers_all s' /\ ports_wf ps' s'.
Proof.
  intros Hty. induction fuel as [|fuel IH]; intros ps s ch Ha Hwf Hfuel;
    cbn [IO.create_new]; rewrite count_of_type by assumption;
    destruct (N.ltb_spec (N.of_nat (length (PortSet.of_type ps ty))) n) as [Hlt|Hge];
    try lia; try (eexists _, _, _, _; split; [reflexivity | split; assumption]).
  destruct (build_legal_port_name_some io s ps ty Hty) as (portname & ->).
  rewrite register_for_direction. unfold Session.register_port.
  pose proof (Ha ty portname) as Hans.
  destruct (Session.backend_register s ty portname) eqn:Hreg; [| |congruence].
  - cbn [Session.port Session.with_ports]. rewrite Nat.eqb_refl. cbn [Port.type Port.fresh].
    rewrite add_of_type.
    set (s1 := Session.with_ports _ _ _).
    destruct (IH (with_type ps ty (PortSet.of_type ps ty ++ [Session.next_port s])) s1 true)
      as (r & ps' & s' & ch' & -> & Ha' & Hwf').
    + intros ty0 nm0. apply Ha.
    + now apply ports_wf_add.
    + rewrite of_type_with_type, length_app by assumption. cbn. lia.
    + eexists _, _, _, _. split; [reflexivity | split; assumption].
  - eexists _, _, _, _. split; [reflexivity|]. split; [exact Ha|].
    destruct Hwf as [Hnd Hlt']. split; assumption.
Qed.

Lemma ensure_type_answers io ty count rest ps s ch :
  ty <> DataType.NIL -> answers_all s -> ports_wf ps s ->
  exists r ps2 s2 ch2,
    IO.ensure_types io (ty :: rest) count ps s ch =
      match r with
      | Some v => Some (Some v, ps2, s2, ch2)
      | None => IO.ensure_types io rest count ps2 s2 ch2
      end /\
    answers_all s2 /\ ports_wf ps2 s2.
Proof.
  intros Hty Ha [Hnd Hlt]. cbn [IO.ensure_types].
  set (n := ChanCount.get count ty).
  set (l := PortSet.of_type ps ty).
  destruct (remove_unused_spec ty n Hty (N.to_nat (ChanCount.get (PortSet.count ps) ty))
              ps s ch Hnd) as (s1 & ch1 & -> & Hk1).
  { rewrite count_of_type by assumption. now rewrite Nat2N.id. }
  fold l. set (ps1 := with_type ps ty (firstn (N.to_nat n) l)).
  destruct (all_with_type_prefix ps ty (firstn (N.to_nat n) l) Hty (skipn (N.to_nat n) l))
    as (Hnd1 & Hincl); [now rewrite firstn_skipn | exact Hnd |].
  assert (Hwf1 : ports_wf ps1 s1).
  { split; [exact Hnd1|]. apply Forall_forall. intros x Hx.
    rewrite Forall_forall in Hlt. apply Hincl, Hlt in Hx. destruct Hk1. lia. }
  assert (Ha1 : answers_all s1).
  { intros ty0 nm0. destruct Hk1 as [-> _]. apply Ha. }
  destruct (create_new_answers io ty n Hty (N.to_nat n) ps1 s1 ch1 Ha1 Hwf1)
    as (r & ps2 & s2 & ch2 & -> & Ha2 & Hwf2); [lia|].
  exists r, ps2, s2, ch2. split; [now destruct r|]. split; assumption.
Qed.

Lemma ensure_ports_returns count clear src io s :
  answers_all s -> ports_wf (IO.ports io) s ->
  exists r io' s', IO.ensure_ports count clear src io s = Some (r, io', s').
Proof.
  intros Ha Hwf. unfold IO.ensure_ports.
  destruct (ChanCount.eqb count (IO.n_ports io) && negb clear);
    [eexists _, _, _; reflexivity|].
  unfold IO.ensure_ports_locked, DataType.all.
  destruct (ensure_type_answers io DataType.AUDIO count [DataType.MIDI] (IO.ports io) s false)
    as (r1 & ps1 & s1 & ch1 & -> & Ha1 & Hwf1); [discriminate | assumption..|].
  destruct r1 as [v1|].
  { destruct (negb (v1 =? 0)%Z), ch1; eexists _, _, _; reflexivity. }
  destruct (ensure_type_answers io DataType.MIDI count [] ps1 s1 ch1)
    as (r2 & ps2 & s2 & ch2 & -> & _); [discriminate | assumption..|].
  destruct r2 as [v2|].
  { destruct (negb (v2 =? 0)%Z), ch2; eexists _, _, _; reflexivity. }
  cbn [IO.ensure_types].
  destruct ch2; cbn [Z.eqb negb]; eexists _, _, _; reflexivity.
Qed.

(** X9.  With a backend that answers every registration (granting
    it or not), [ensure_ports] returns; and whenever it returns, it
    returns 0 or -1.  When it returns -1 (the
    backend refused a registration), all it has done to the session is
    registering and unregistering ports and reporting the failure: no
    [changed], no [PortCountChanged], no disconnection, the session is
    not dirtied and the bundle is not rebuilt. *)
Theorem ensure_ports_failure_is_silent (count : ChanCount.t) (clear : bool) (src : nat)
    (io : IO.t) (s : Session.t) :
  (answers_all s -> ports_wf (IO.ports io) s ->
   exists r io' s', IO.ensure_ports count clear src io s = Some (r, io', s')) /\
  (forall r io' s',
     IO.ensure_ports count clear src io s = Some (r, io', s') ->
     r = 0%Z \/
     (r = (-1)%Z /\ only_engine_events s s' /\
      IO._bundle io' = IO._bundle io /\ Session.dirty s' = Session.dirty s)).
Proof.
  split; [apply ensure_ports_returns|].
  intros r io' s'.
  unfold IO.ensure_ports. intros H.
  destruct (ChanCount.eqb count (IO.n_ports io) && negb clear).
  { injection H as <- _ _. now left. }
  unfold IO.ensure_ports_locked in H.
  destruct (IO.ensure_types _ _ _ _ _ _) as [[[[r1 p1] s1] ch1]|] eqn:Hty; [|discriminate].
  apply ensure_types_quiet in Hty; [|repeat constructor; discriminate].
  destruct Hty as (Hq & Hd & Hr).
  destruct r1 as [r1|].
  - destruct Hr as [Hr|Hr]; [discriminate|]. injection Hr as ->.
    cbn [Z.eqb negb] in H. injection H as <- <- <-.
    right. repeat split; assumption.
  - cbn [Z.eqb negb] in H.
    destruct ch1; destruct clear; injection H as <- _ _; now left.
Qed.

Lemma ensure_type_shape io ty count rest ps s ch :
  ty <> DataType.NIL -> grants_all s -> ports_wf ps s ->
  exists ps2 s2 ch2,
    IO.ensure_types io (ty :: rest) count ps s ch = IO.ensure_types io rest count ps2 s2 ch2 /\
    leading_ports_kept (ChanCount.get count ty) ty ps ps2 s /\
    (forall ty', ty' <> ty -> PortSet.of_type ps2 ty' = PortSet.of_type ps ty') /\
    engine_kept s s2 /\ ports_wf ps2 s2.
Proof.
  intros Hty Hg [Hnd Hlt]. cbn [IO.ensure_types].
  set (n := ChanCount.get count ty).
  set (l := PortSet.of_type ps ty).
  destruct (remove_unused_spec ty n Hty (N.to_nat (ChanCount.get (PortSet.count ps) ty))
              ps s ch Hnd) as (s1 & ch1 & Hrem & Hk1).
  { rewrite count_of_type by assumption. now rewrite Nat2N.id. }
  pose proof (remove_unused_quiet _ _ _ _ _ _ _ _ _ Hrem) as (_ & _ & Hn1).
  rewrite Hrem. fold l. set (ps1 := with_type ps ty (firstn (N.to_nat n) l)).
  destruct (all_with_type_prefix ps ty (firstn (N.to_nat n) l) Hty (skipn (N.to_nat n) l))
    as (Hnd1 & Hincl); [now rewrite firstn_skipn | exact Hnd |].
  assert (Hwf1 : ports_wf ps1 s1).
  { split; [exact Hnd1|]. apply Forall_forall. intros x Hx.
    rewrite Forall_forall in Hlt. apply Hincl, Hlt in Hx. destruct Hk1. lia. }
  destruct (create_new_spec io ty n Hty (N.to_nat n) ps1 s1 ch1)
    as (ps2 & s2 & ch2 & Hnew & Hlen & Hother & Hk2 & Hwf2); [| exact Hwf1 | lia |].
  { eapply grants_all_kept; eauto. }
  pose proof (create_new_appends io ty n Hty _ _ _ _ _ _ _ _ Hnew)
    as ((extra & Hps2 & Hfresh) & _).
  rewrite Hnew.
  exists ps2, s2, ch2. split; [reflexivity|].
  split; [|split; [|split; [|exact Hwf2]]].
  - exists extra. split.
    + rewrite Hps2. subst ps1. now rewrite !of_type_with_type by assumption.
    + rewrite Hn1 in Hfresh. exact Hfresh.
  - intros ty' Hne. rewrite (Hother ty' Hne). subst ps1.
    now apply of_type_with_type_other.
  - eapply engine_kept_trans; eauto.
Qed.

Lemma leading_ports_kept_weaken n ty ps ps' s0 s :
  Session.next_port s0 <= Session.next_port s ->
  leading_ports_kept n ty ps ps' s -> leading_ports_kept n ty ps ps' s0.
Proof.
  intros Hle (extra & Heq & Hfresh). exists extra. split; [exact Heq|].
  eapply Forall_impl; [|exact Hfresh]. intros; cbn beta in *; lia.
Qed.

(** X10.  [ensure_ports] never replaces a port that stays: with a
    granting backend, the ports of each type afterwards are the first
    ones of before, as many as requested, in place, followed only by
    ports that the engine handed out during the call. *)
Theorem ensure_ports_keeps_leading_ports (count : ChanCount.t) (clear : bool) (src : nat)
    (io : IO.t) (s : Session.t) :
  grants_all s ->
  ports_wf (IO.ports io) s ->
  exists io' s',
    IO.ensure_ports count clear src io s = Some (0%Z, io', s') /\
    leading_ports_kept (ChanCount.n_audio count) DataType.AUDIO (IO.ports io) (IO.ports io') s /\
    leading_ports_kept (ChanCount.n_midi count) DataType.MIDI (IO.ports io) (IO.ports io') s.
Proof.
  intros Hg Hwf. unfold IO.ensure_ports.
  destruct (ChanCount.eqb count (IO.n_ports io) && negb clear) eqn:Hfast.
  - apply andb_true_iff in Hfast. destruct Hfast as [Heq _].
    apply ChanCount_eqb_eq in Heq. exists io, s. split; [reflexivity|].
    subst count. unfold IO.n_ports. cbn [ChanCount.n_audio ChanCount.n_midi PortSet.count].
    split; exists []; rewrite app_nil_r, Nat2N.id, firstn_all; auto.
  - unfold IO.ensure_ports_locked, DataType.all.
    destruct (ensure_type_shape io DataType.AUDIO count [DataType.MIDI] (IO.ports io) s false)
      as (ps1 & s1 & ch1 & -> & Hlead1 & Hother1 & Hk1 & Hwf1);
      [discriminate | assumption..|].
    destruct (ensure_type_shape io DataType.MIDI count [] ps1 s1 ch1)
      as (ps2 & s2 & ch2 & -> & Hlead2 & Hother2 & Hk2 & Hwf2);
      [discriminate | eapply grants_all_kept; eauto | assumption |].
    cbn [IO.ensure_types].
    assert (Hshape : leading_ports_kept (ChanCount.n_audio count) DataType.AUDIO
                       (IO.ports io) ps2 s /\
                     leading_ports_kept (ChanCount.n_midi count) DataType.MIDI
                       (IO.ports io) ps2 s).
    { split.
      - destruct Hlead1 as (extra & Heq & Hfresh). exists extra.
        rewrite (Hother2 DataType.AUDIO) by discriminate. split; assumption.
      - apply (leading_ports_kept_weaken _ _ _ _ s s1); [apply Hk1|].
        destruct Hlead2 as (extra & Heq & Hfresh). exists extra.
        rewrite <- (Hother1 DataType.MIDI) by discriminate. split; assumption. }
    set (out := if ch2 then _ else _).
    assert (Hout : IO.ports (fst out) = ps2).
    { subst out. destruct ch2; reflexivity. }
    destruct out as [io2 s3]. cbn [fst] in Hout. cbn [Z.eqb negb].
    destruct ch2; eexists _, _; (split; [reflexivity|]);
      rewrite ?ports_setup_bundle; cbn [IO.ports IO.attach_buffers IO.with_buffers];
      try (change (IO.ports (IO.attach_buffers io2)) with (IO.ports io2));
      rewrite Hout; exact Hshape.
Qed.

(** ** connect and disconnect of a port of the IO *)

(** X11.  For a port of the IO and a target name, [connect] returns
    0 when the backend makes the link, and then the target is among
    the port's connections, [changed (ConnectionsChanged)] is emitted
    and the session is dirty; it returns -1 when the backend does not,
    and then no port has changed, nothing is emitted and the session is
    not dirtied.  The IO itself is the same in both cases. *)
Theorem connect_reports_the_backend (p : Port.ptr) (other : string) (src : nat)
    (io : IO.t) (s : Session.t) :
  other <> "" ->
  IO.has_port io p = true ->
  (Session.backend_connect s (Session.port_name s p) other = true ->
   exists s',
     IO.connect (Some p) other src io s = (0%Z, io, s') /\
     In other (Port.connections (Session.port s' p)) /\
     Session.trace s' =
       Session.trace s ++
       [EvConnect p other; EvChanged (IOChange.of_type IOChange.ConnectionsChanged) src] /\
     Session.dirty s' = true) /\
  (Session.backend_connect s (Session.port_name s p) other = false ->
   exists s',
     IO.connect (Some p) other src io s = ((-1)%Z, io, s') /\
     Session.port s' = Session.port s /\
     Session.trace s' = Session.trace s ++ [EvConnect p other] /\
     Session.dirty s' = Session.dirty s).
Proof.
  intros Hne Hhas. unfold IO.has_port in Hhas.
  assert (Hlen : (String.length other =? 0)%nat = false).
  { apply not_true_is_false. intros H. apply length_zero_iff_empty in H. contradiction. }
  unfold IO.connect. rewrite Hlen, Hhas. cbn [orb IO.is_null negb].
  split; intros Hb.
  - pose proof (port_connect_connected p other s Hb) as Hin.
    pose proof (port_connect_trace p other s) as Ht.
    unfold Session.port_connect in *. rewrite Hb in *. cbn [snd] in Hin, Ht.
    cbn [Z.eqb negb]. eexists. split; [reflexivity|].
    split; [exact Hin|]. split; [|reflexivity].
    cbn [Session.trace Session.set_dirty Session.log]. cbn [Session.trace] in Ht.
    rewrite Ht, <- app_assoc. reflexivity.
  - unfold Session.port_connect. rewrite Hb. cbn [Z.eqb negb].
    eexists. split; [reflexivity|]. repeat split.
Qed.


(** ** The port counts of a state node *)

Lemma ChanCount_max_zero n : ChanCount.max n ChanCount.ZERO = n.
Proof. destruct n as [a m]. unfold ChanCount.max. cbn. now rewrite !N.max_0_r. Qed.

(** X13.  [get_port_counts_2X] looks at the attributes of the node
    once per child node: for a node without children the count is left
    as it was, whatever the attributes say; otherwise the audio count
    is raised to the number of opening braces of inputs (outputs for
    an output), or to 1 for an input-connection, 2 for an
    output-connection. *)
Theorem get_port_counts_2X_needs_a_child (io : IO.t) (node : XML.node)
    (n : ChanCount.t) :
  (XML.children node = [] -> IO.get_port_counts_2X io node n = (0%Z, n)) /\
  (XML.children node <> [] ->
   IO.get_port_counts_2X io node n =
   (0%Z, ChanCount.max n (ChanCount.mk (legacy_audio_count (IO._direction io) node) 0))).
Proof.
  unfold IO.get_port_counts_2X. split.
  - intros ->. cbn [fold_left]. now rewrite <- (ChanCount_max_zero n) at 2.
  - intros Hne. destruct (XML.children node) as [|c rest]; [congruence|].
    do 2 f_equal. unfold ChanCount.set_audio. cbn [ChanCount.n_midi ChanCount.ZERO].
    f_equal. clear Hne.
    assert (Hstep : forall l a,
      fold_left
        (fun (n_audio : N) (_ : XML.node) =>
           match XML.property node "inputs", IO._direction io with
           | Some v, Input => Str.count_char "{" v
           | _, _ =>
               match XML.property node "input-connection", IO._direction io with
               | Some _, Input => 1%N
               | _, _ =>
                   match XML.property node "outputs", IO._direction io with
                   | Some v, Output => Str.count_char "{" v
                   | _, _ =>
                       match XML.property node "output-connection", IO._direction io with
                       | Some _, Output => 2%N
                       | _, _ => n_audio
                       end
                   end
               end
           end) l a =
      match l with
      | [] => a
      | _ :: _ =>
          match IO._direction io with
          | Input =>
              match XML.property node "inputs", XML.property node "input-connection" with
              | Some v, _ => Str.count_char "{" v
              | None, Some _ => 1%N
              | None, None => a
              end
          | Output =>
              match XML.property node "outputs", XML.property node "output-connection" with
              | Some v, _ => Str.count_char "{" v
              | None, Some _ => 2%N
              | None, None => a
              end
          end
      end).
    { induction l as [|x l IH]; intros a; [reflexivity|]. cbn [fold_left]. rewrite IH.
      destruct (IO._direction io), (XML.property node "inputs"),
        (XML.property node "input-connection"), (XML.property node "outputs"),
        (XML.property node "output-connection"), l; reflexivity. }
    rewrite Hstep. unfold legacy_audio_count.
    destruct (IO._direction io), (XML.property node "inputs"),
      (XML.property node "input-connection"), (XML.property node "outputs"),
      (XML.property node "output-connection"); reflexivity.
Qed.

Lemma count_le_max a b : count_le a (ChanCount.max a b).
Proof. destruct a, b. unfold count_le, ChanCount.max. cbn. lia. Qed.

Lemma count_le_refl a : count_le a a.
Proof. unfold count_le. lia. Qed.

Lemma last_not_of_found set pos : forall str i found,
  found <> None -> Str.last_not_of set pos i str found <> None.
Proof.
  induction str as [|a str IH]; intros i found H; cbn [Str.last_not_of]; [exact H|].
  apply IH. destruct (_ && _); [discriminate | exact H].
Qed.

Lemma last_not_of_all_inside set : forall str i found,
  forallb (fun c => Str.has_char c set) (list_ascii_of_string str) = true ->
  Str.last_not_of set None i str found = found.
Proof.
  induction str as [|a str IH]; intros i found H; cbn [Str.last_not_of]; [reflexivity|].
  cbn [list_ascii_of_string forallb] in H. apply andb_true_iff in H. destruct H as [Ha Hr].
  rewrite Ha. cbn [negb andb]. now apply IH.
Qed.

Lemma last_not_of_some_outside set : forall str i found,
  forallb (fun c => Str.has_char c set) (list_ascii_of_string str) = false ->
  Str.last_not_of set None i str found <> None.
Proof.
  induction str as [|a str IH]; intros i found H; cbn [Str.last_not_of].
  - discriminate.
  - cbn [list_ascii_of_string forallb] in H.
    destruct (Str.has_char a set) eqn:Ha; cbn [negb andb] in *.
    + now apply IH.
    + apply last_not_of_found. discriminate.
Qed.

(** One turn of the first loop at the mask [m], then the turns after
    it. *)
Ltac highest_bit_turns bn m :=
  destruct (Z.leb_spec m bn);
  [ let v := eval vm_compute in (to_int (Z.shiftl m 1)) in
    change (to_int (Z.shiftl m 1)) with v;
    lazymatch v with
    | 0%Z => eexists; split; [reflexivity | lia]
    | _ => let b := eval vm_compute in (v =? 0)%Z in
           change (v =? 0)%Z with b; cbv iota; highest_bit_turns bn v
    end
  | eexists; split; [reflexivity | lia] ].

(** The first loop of the search ends, with a mask that is no
    negative [int]. *)
Lemma highest_bit_loop_returns bundle_number :
  exists mask,
    IO.highest_bit_loop 33 1 bundle_number = Some mask /\ (0 <= mask < 2147483648)%Z.
Proof.
  cbn [IO.highest_bit_loop]. highest_bit_turns bundle_number 1%Z.
Qed.

(** The second loop ends as well: the mask is halved in each turn. *)
Lemma wrap_loop_returns s default_name stereo : forall fuel mask bundle_number,
  (0 <= mask < 2 ^ Z.of_nat fuel)%Z ->
  IO.wrap_loop (S fuel) s default_name stereo mask bundle_number <> None.
Proof.
  induction fuel as [|fuel IH]; intros mask bundle_number Hm.
  - cbn [IO.wrap_loop]. replace mask with 0%Z by (cbn in Hm; lia). discriminate.
  - change (IO.wrap_loop (S (S fuel)) s default_name stereo mask bundle_number)
      with (if (mask =? 0)%Z then Some None
            else if negb (Z.land bundle_number mask =? 0)%Z
            then match Session.bundle_by_name s
                         (IO.possible_bundle_name default_name stereo
                            (Z.land bundle_number (Z.lnot mask))) with
                 | Some c => Some (Some c)
                 | None => IO.wrap_loop (S fuel) s default_name stereo (Z.shiftr mask 1)
                                        (Z.land bundle_number (Z.lnot mask))
                 end
            else IO.wrap_loop (S fuel) s default_name stereo (Z.shiftr mask 1)
                              bundle_number).
    assert (Hhalf : (0 <= Z.shiftr mask 1 < 2 ^ Z.of_nat fuel)%Z).
    { rewrite Z.shiftr_div_pow2 by lia. change (2 ^ 1)%Z with 2%Z.
      rewrite Nat2Z.inj_succ, Z.pow_succ_r in Hm by lia.
      split; [apply Z.div_pos; lia | apply Z.div_lt_upper_bound; lia]. }
    destruct (mask =? 0)%Z; [discriminate|].
    destruct (negb _); [|now apply IH].
    destruct (Session.bundle_by_name s _); [discriminate | now apply IH].
Qed.

Lemma after_diagnostics_refl s : after_diagnostics s s.
Proof. exists []. split; reflexivity. Qed.

Lemma after_diagnostics_backend s s1 :
  after_diagnostics s s1 ->
  Session.backend_register s1 = Session.backend_register s /\
  Session.inital_connect_or_deletion_in_progress s1
    = Session.inital_connect_or_deletion_in_progress s /\
  Session.port s1 = Session.port s /\ Session.next_port s1 = Session.next_port s.
Proof.
  intros (msgs & -> & _). revert s.
  induction msgs as [|e msgs IH]; intros s; cbn [fold_left]; [repeat split|].
  destruct (IH (Session.log e s)) as (-> & -> & -> & ->). repeat split.
Qed.

(** On a searchable name the search returns, and all it leaves in the
    session are its messages. *)
Lemma find_possible_bundle_returns desired_name io s :
  searchable s desired_name ->
  exists c s1,
    IO.find_possible_bundle desired_name io s = Some (c, s1) /\ after_diagnostics s s1.
Proof.
  intros Hs. unfold IO.find_possible_bundle.
  destruct (Session.bundle_by_name s desired_name) as [c|] eqn:Hknown.
  { exists (Some c), s. split; [reflexivity | apply after_diagnostics_refl]. }
  destruct Hs as [Hs | Hs]; [congruence|].
  pose proof (last_not_of_some_outside IO.digits desired_name 0 None Hs) as Hlast.
  fold (Str.find_last_not_of IO.digits None desired_name) in Hlast.
  destruct (Str.find_last_not_of IO.digits None desired_name) as [last_pos|]; [|congruence].
  destruct (IO.bundle_suffix s desired_name last_pos) as [bn stereo].
  set (bn1 := if negb (bn =? 0)%Z then to_int (bn - 1) else bn).
  destruct (highest_bit_loop_returns bn1) as (mask & -> & Hmask).
  pose proof (wrap_loop_returns
                (Session.log (EvError "") s)
                (match IO._direction io with Input => "in" | Output => "out" end)
                stereo 32 mask bn1) as Hwrap.
  set (msg1 := EvError _).
  assert (Hsame : forall d st m b,
            IO.wrap_loop 33 s d st m b = IO.wrap_loop 33 (Session.log (EvError "") s) d st m b).
  { generalize 33%nat. induction n as [|n IHn]; intros d st m b; [reflexivity|].
    cbn [IO.wrap_loop]. change (Session.bundle_by_name (Session.log (EvError "") s))
      with (Session.bundle_by_name s). now rewrite !IHn. }
  rewrite Hsame.
  destruct (IO.wrap_loop 33 _ _ _ _ _) as [[c|]|].
  - eexists _, _. split; [reflexivity|].
    eexists [msg1; _]. split; reflexivity.
  - eexists _, _. split; [reflexivity|].
    eexists [msg1; _]. split; reflexivity.
  - exfalso. apply Hwrap; [|reflexivity]. change (2 ^ Z.of_nat 32)%Z with 4294967296%Z. lia.
Qed.

(** An unknown name made of digits only, or empty, takes the search
    to [desired_name[npos]]. *)
Lemma find_possible_bundle_out_of_range desired_name io s :
  Session.bundle_by_name s desired_name = None ->
  all_digits desired_name = true ->
  IO.find_possible_bundle desired_name io s = None.
Proof.
  intros Hunknown Hd. unfold IO.find_possible_bundle. rewrite Hunknown.
  unfold Str.find_last_not_of. now rewrite last_not_of_all_inside.
Qed.

Lemma count_children_at_least io s n : forall children na nm cnt,
  Forall (fun c => XML.name c = "Bundle" ->
                   exists v, XML.property c "name" = Some v /\ searchable s v) children ->
  exists r n' s1,
    IO.count_children io s children n na nm cnt = Some (r, n', s1) /\
    after_diagnostics s s1 /\
    count_le n n' /\ (r = 0%Z \/ r = (-1)%Z).
Proof.
  induction children as [|c rest IH]; intros na nm cnt Hb; cbn [IO.count_children].
  - eexists _, _, _. split; [reflexivity|].
    split; [apply after_diagnostics_refl|]. split; [apply count_le_max | now left].
  - inversion Hb as [|? ? Hc Hrest]; subst.
    destruct (String.eqb (XML.name c) "Bundle") eqn:Eb.
    + apply String.eqb_eq in Eb. destruct (Hc Eb) as (v & -> & Hv).
      destruct (find_possible_bundle_returns v io s Hv) as ([nch|] & s1 & -> & Hs1).
      * eexists _, _, _. split; [reflexivity|].
        split; [exact Hs1|]. split; [apply count_le_max | now left].
      * eexists _, _, _. split; [reflexivity|].
        split; [exact Hs1|]. split; [apply count_le_refl | now right].
    + destruct (String.eqb (XML.name c) "Port"); [|now apply IH].
      destruct (XML.property c "type") as [v|]; [|now apply IH].
      destruct (String.eqb v "audio"); [now apply IH|].
      destruct (String.eqb v "midi"); now apply IH.
Qed.

Lemma get_port_counts_at_least io s node version n0 :
  (3000 <= version)%Z ->
  bundles_searchable s node ->
  exists r n' s1,
    IO.get_port_counts io s node version n0 = Some (r, n', s1) /\
    after_diagnostics s s1 /\
    count_le (IO.n_ports io) n' /\ (r = 0%Z \/ r = (-1)%Z).
Proof.
  intros Hv [Hconn Hb]. unfold IO.get_port_counts.
  destruct (Z.ltb_spec version 3000) as [|_]; [lia|].
  destruct (XML.property node "connection") as [v|].
  - destruct (find_possible_bundle_returns v io s (Hconn v eq_refl))
      as ([nch|] & s1 & -> & Hs1); eexists _, _, _;
      (split; [reflexivity|]); (split; [exact Hs1|]); (split; [|now left]);
      [apply count_le_max | apply count_le_refl].
  - now apply count_children_at_least.
Qed.

Lemma answers_all_register s ty portname d :
  answers_all s ->
  exists r s1, Session.register_port d ty portname s = Some (r, s1) /\
               Session.backend_register s1 = Session.backend_register s.
Proof.
  intros Ha. unfold Session.register_port. specialize (Ha ty portname).
  destruct (Session.backend_register s ty portname); [| |congruence];
    eexists _, _; split; reflexivity.
Qed.

Lemma create_new_returns io ty n :
  ty <> DataType.NIL ->
  forall fuel ps s ch,
    answers_all s ->
    N.to_nat n - length (PortSet.of_type ps ty) <= fuel ->
    exists r ps' s' ch',
      IO.create_new io fuel ty n ps s ch = Some (r, ps', s', ch') /\
      Session.backend_register s' = Session.backend_register s.
Proof.
  intros Hty. induction fuel as [|fuel IH]; intros ps s ch Ha Hfuel;
    cbn [IO.create_new]; rewrite count_of_type by assumption;
    destruct (N.ltb_spec (N.of_nat (length (PortSet.of_type ps ty))) n) as [Hlt|Hge];
    try lia; try (eexists _, _, _, _; split; reflexivity).
  destruct (build_legal_port_name_some io s ps ty Hty) as (portname & ->).
  rewrite register_for_direction. unfold Session.register_port.
  pose proof (Ha ty portname) as Hans.
  destruct (Session.backend_register s ty portname) eqn:Hreg; [| |congruence].
  - cbn [Session.port Session.with_ports]. rewrite Nat.eqb_refl. cbn [Port.type Port.fresh].
    rewrite add_of_type.
    set (s1 := Session.with_ports _ _ _).
    destruct (IH (with_type ps ty (PortSet.of_type ps ty ++ [Session.next_port s])) s1 true)
      as (r & ps' & s' & ch' & -> & Hbr).
    + intros ty0 nm0. apply Ha.
    + rewrite of_type_with_type, length_app by assumption. cbn. lia.
    + eexists _, _, _, _. split; [reflexivity | exact Hbr].
  - eexists _, _, _, _. split; reflexivity.
Qed.

Lemma ports_extended_refl ps : ports_extended ps ps.
Proof. split; exists []; now rewrite app_nil_r. Qed.

Lemma ports_extended_trans a b c :
  ports_extended a b -> ports_extended b c -> ports_extended a c.
Proof.
  intros [(x1 & H1) (y1 & H2)] [(x2 & H3) (y2 & H4)]. split.
  - exists (x1 ++ x2). now rewrite H3, H1, app_assoc.
  - exists (y1 ++ y2). now rewrite H4, H2, app_assoc.
Qed.

Lemma with_type_extended ps ty extra :
  ports_extended ps (with_type ps ty (PortSet.of_type ps ty ++ extra)).
Proof.
  destruct ty; cbn; split; try (exists extra; reflexivity);
    exists []; now rewrite app_nil_r.
Qed.

Lemma ensure_type_grows io ty count rest ps s ch :
  ty <> DataType.NIL ->
  answers_all s ->
  (ChanCount.get (PortSet.count ps) ty <= ChanCount.get count ty)%N ->
  exists r ps2 s2 ch2,
    IO.create_new io (N.to_nat (ChanCount.get count ty)) ty (ChanCount.get count ty) ps s ch
      = Some (r, ps2, s2, ch2) /\
    IO.ensure_types io (ty :: rest) count ps s ch =
      match r with
      | Some v => Some (Some v, ps2, s2, ch2)
      | None => IO.ensure_types io rest count ps2 s2 ch2
      end /\
    ports_extended ps ps2 /\ answers_all s2 /\
    (forall ty', ty' <> ty -> PortSet.of_type ps2 ty' = PortSet.of_type ps ty').
Proof.
  intros Hty Ha Hle. cbn [IO.ensure_types].
  rewrite remove_unused_enough by (rewrite N2Nat.id; exact Hle).
  destruct (create_new_returns io ty (ChanCount.get count ty) Hty
              (N.to_nat (ChanCount.get count ty)) ps s ch Ha)
    as (r & ps2 & s2 & ch2 & Hnew & Hbr); [lia|].
  pose proof (create_new_appends io ty _ Hty _ _ _ _ _ _ _ _ Hnew)
    as ((extra & Hps2 & _) & _).
  rewrite Hnew. exists r, ps2, s2, ch2. split; [reflexivity|].
  split; [now destruct r|]. split; [|split].
  - rewrite Hps2. apply with_type_extended.
  - intros ty0 nm0. rewrite Hbr. apply Ha.
  - intros ty' Hne. rewrite Hps2. now apply of_type_with_type_other.
Qed.

Lemma ensure_ports_grows count clear src io s :
  answers_all s ->
  count_le (IO.n_ports io) count ->
  exists r io' s',
    IO.ensure_ports count clear src io s = Some (r, io', s') /\
    (r = 0%Z \/ r = (-1)%Z) /\
    ports_extended (IO.ports io) (IO.ports io').
Proof.
  intros Ha [Hla Hlm]. unfold IO.ensure_ports.
  destruct (ChanCount.eqb count (IO.n_ports io) && negb clear).
  { eexists _, _, _. split; [reflexivity|]. split; [now left | apply ports_extended_refl]. }
  unfold IO.ensure_ports_locked, DataType.all.
  destruct (ensure_type_grows io DataType.AUDIO count [DataType.MIDI] (IO.ports io) s false)
    as (r1 & ps1 & s1 & ch1 & Hnew1 & -> & Hext1 & Ha1 & Hother1);
    [discriminate | exact Ha | exact Hla |].
  pose proof (create_new_appends io DataType.AUDIO _ ltac:(discriminate)
                _ _ _ _ _ _ _ _ Hnew1) as (_ & _ & _ & _ & Hr1).
  destruct r1 as [v1|].
  { destruct Hr1 as [Hr1|Hr1]; [discriminate|]. injection Hr1 as ->. cbn [Z.eqb negb].
    eexists _, _, _. split; [reflexivity|]. split; [now right | exact Hext1]. }
  destruct (ensure_type_grows io DataType.MIDI count [] ps1 s1 ch1)
    as (r2 & ps2 & s2 & ch2 & Hnew2 & -> & Hext2 & Ha2 & Hother2);
    [discriminate | exact Ha1 | |].
  { cbn [ChanCount.get PortSet.count ChanCount.n_midi].
    change (PortSet.midi ps1) with (PortSet.of_type ps1 DataType.MIDI).
    rewrite (Hother1 DataType.MIDI) by discriminate. exact Hlm. }
  pose proof (create_new_appends io DataType.MIDI _ ltac:(discriminate)
                _ _ _ _ _ _ _ _ Hnew2) as (_ & _ & _ & _ & Hr2).
  pose proof (ports_extended_trans _ _ _ Hext1 Hext2) as Hext.
  destruct r2 as [v2|].
  { destruct Hr2 as [Hr2|Hr2]; [discriminate|]. injection Hr2 as ->. cbn [Z.eqb negb].
    eexists _, _, _. split; [reflexivity|]. split; [now right | exact Hext]. }
  cbn [IO.ensure_types].
  set (out := if ch2 then _ else _).
  assert (Hout : IO.ports (fst out) = ps2).
  { subst out. destruct ch2; reflexivity. }
  destruct out as [io2 s3]. cbn [fst] in Hout. cbn [Z.eqb negb].
  destruct ch2; eexists _, _, _; (split; [reflexivity|]); (split; [now left|]);
    rewrite ?ports_setup_bundle;
    try (change (IO.ports (IO.attach_buffers io2)) with (IO.ports io2));
    rewrite Hout; exact Hext.
Qed.

Lemma create_ports_grows (node : XML.node) (version : Z) (io : IO.t) (s : Session.t) :
  (3000 <= version)%Z ->
  bundles_searchable s node ->
  answers_all s ->
  exists r io' s',
    IO.create_ports node version io s = Some (r, io', s') /\
    (r = 0%Z \/ r = (-1)%Z) /\
    ports_extended (IO.ports io) (IO.ports io').
Proof.
  intros Hv Hb Ha. unfold IO.create_ports.
  destruct (get_port_counts_at_least io s node version ChanCount.ZERO Hv Hb)
    as (r0 & n' & s0 & -> & Hs0 & Hle & _).
  assert (Ha0 : answers_all s0).
  { destruct (after_diagnostics_backend s s0 Hs0) as (Hreg & _).
    intros ty nm. rewrite Hreg. apply Ha. }
  destruct (ensure_ports_grows n' (negb (Session.inital_connect_or_deletion_in_progress s0))
              (IO.this io) io s0 Ha0 Hle) as (r & io' & s' & -> & Hr & Hext).
  destruct Hr as [-> | ->]; cbn [Z.eqb negb]; eexists _, _, _;
    (split; [reflexivity|]); (split; [auto | exact Hext]).
Qed.

(** X14.  For a node of the current format whose bundle names can be
    searched (each is known to the session or has a character that is
    no digit), [get_port_counts] returns 0 or -1 with a count that is
    at least the IO's current count of either type, leaving nothing
    but messages in the session; so [create_ports], with a backend
    that answers every registration, returns 0 or -1 and takes no port
    away: the ports of before are still there, each type's in place,
    and new ones come after them.  The condition on the names is
    needed: for a "connection" that the session does not know and that
    is empty or made of digits only, [find_possible_bundle] reads
    [desired_name[npos]] and [get_port_counts] does not return. *)
Theorem create_ports_only_adds_ports (node : XML.node) (version : Z) (io : IO.t)
    (s : Session.t) (n : ChanCount.t) :
  (3000 <= version)%Z ->
  (bundles_searchable s node ->
   (exists r n' s1,
      IO.get_port_counts io s node version n = Some (r, n', s1) /\
      after_diagnostics s s1 /\
      count_le (IO.n_ports io) n' /\ (r = 0%Z \/ r = (-1)%Z)) /\
   (answers_all s ->
    exists r io' s',
      IO.create_ports node version io s = Some (r, io', s') /\
      (r = 0%Z \/ r = (-1)%Z) /\
      ports_extended (IO.ports io) (IO.ports io'))) /\
  (forall v,
     XML.property node "connection" = Some v ->
     Session.bundle_by_name s v = None -> all_digits v = true ->
     IO.get_port_counts io s node version n = None /\
     IO.create_ports node version io s = None).
Proof.
  intros Hv. split.
  - intros Hb. split.
    + now apply get_port_counts_at_least.
    + intros Ha. now apply create_ports_grows.
  - intros v Hconn Hunknown Hd.
    unfold IO.create_ports, IO.get_port_counts.
    destruct (Z.ltb_spec version 3000) as [|_]; [lia|].
    rewrite Hconn, (find_possible_bundle_out_of_range v io s Hunknown Hd).
    split; reflexivity.
Qed.

(** ** The identity of an IO through its state *)

Lemma same_identity_refl a : same_identity a a.
Proof. repeat split. Qed.

Lemma same_identity_trans a b c : same_identity a b -> same_identity b c -> same_identity a c.
Proof.
  intros (H1 & H2 & H3 & H4 & H5 & H6) (K1 & K2 & K3 & K4 & K5 & K6).
  repeat split; congruence.
Qed.

Lemma setup_bundle_identity io s : same_identity (IO.setup_bundle io s) io.
Proof. unfold IO.setup_bundle. destruct (fold_left _ _ _). repeat split. Qed.

Lemma ensure_ports_identity count clear src io s r io' s' :
  IO.ensure_ports count clear src io s = Some (r, io', s') -> same_identity io' io.
Proof.
  unfold IO.ensure_ports.
  destruct (ChanCount.eqb count (IO.n_ports io) && negb clear).
  { intros H; injection H as <- <- <-. apply same_identity_refl. }
  destruct (IO.ensure_ports_locked count clear io s) as [[[[r1 changed] io1] s1]|] eqn:Hl;
    [|discriminate].
  assert (Hio1 : same_identity io1 io).
  { unfold IO.ensure_ports_locked in Hl.
    destruct (IO.ensure_types io DataType.all count (IO.ports io) s false)
      as [[[[[r'|] p] s2] ch]|]; [| |discriminate].
    - injection Hl as <- <- <- <-. repeat split.
    - destruct ch; injection Hl as <- <- <- <-; repeat split. }
  destruct (negb (r1 =? 0)%Z).
  { intros H; injection H as <- <- <-. exact Hio1. }
  destruct changed; intros H; injection H as <- <- <-; [|exact Hio1].
  eapply same_identity_trans; [apply setup_bundle_identity|].
  eapply same_identity_trans; [|exact Hio1]. repeat split.
Qed.

Lemma legalize_without_colon (n : string) :
  lacks ":" n = true -> legalize_io_name n = n.
Proof.
  unfold legalize_io_name. induction n as [|a n IH]; cbn; [reflexivity|].
  intros H. apply andb_true_iff in H. destruct H as [Ha Hn].
  rewrite IH by exact Hn. apply negb_true_iff in Ha. now rewrite Ha.
Qed.

Lemma children_of_state_are_ports io s :
  Forall (fun c => XML.name c = "Port") (XML.children (IO.state io s)).
Proof.
  destruct (state_properties io s) as (_ & _ & _ & _ & _ & _ & _ & _ & ->).
  apply Forall_forall. intros c Hc. apply in_map_iff in Hc.
  destruct Hc as (p & <- & _). reflexivity.
Qed.

(** X15.  The constructor from a node, given the state of an IO
    and a backend that answers every registration (granting it or
    not), returns an IO with the name of the original (its colons
    replaced), its identity, its direction and its default type, and
    with a bundle that describes whatever ports could be made. *)
Theorem state_round_trip_identity (io : IO.t) (s : Session.t) (addr : nat)
    (new_id : string) (s' : Session.t) (dt : DataType.t) (sendish : bool) (version : Z) :
  (3000 <= version)%Z ->
  IO._default_type io <> DataType.NIL ->
  answers_all s' ->
  exists io' s'',
    IO.create_from_state addr new_id s' (IO.state io s) dt sendish version = Some (io', s'') /\
    IO._name io' = legalize_io_name (IO._name io) /\
    IO.id io' = IO.id io /\
    IO._direction io' = IO._direction io /\
    IO._default_type io' = IO._default_type io /\
    IO._sendish io' = sendish /\
    bundle_describes_ports io'.
Proof.
  intros Hv Hdt Ha.
  unfold IO.create_from_state.
  set (io0 := IO.mk addr "unnamed io" new_id Input dt true sendish RCU.init [] None [] "" [] []).
  unfold IO.set_state.
  destruct (Z.ltb_spec version 3000) as [|_]; [lia|].
  destruct (state_properties io s)
    as (Hname & Hignore & Hnm & Hdty & Hid & Hdir & Hconn & Hpretty & Hchildren).
  rewrite Hname, Hignore, Hnm, Hdty.
  change (IO.state_node_name) with "IO". cbn [String.eqb Ascii.eqb Bool.eqb negb].
  assert (Hset : exists io1,
            IO.set_name (IO._name io) io0 s' = Some (true, io1, s') /\
            IO.ports io1 = PortSet.empty_set /\
            IO._name io1 = legalize_io_name (IO._name io) /\
            IO.id io1 = new_id /\ IO._sendish io1 = sendish /\
            IO._pretty_name_prefix io1 = "").
  { unfold IO.set_name. destruct (String.eqb (IO._name io0) (IO._name io)) eqn:E.
    - exists io0. apply String.eqb_eq in E. repeat split.
      rewrite <- E. reflexivity.
    - cbn [fold_left IO.ports IO._ports io0 RCU.reader RCU.init RCU.current PortSet.all
             PortSet.empty_set PortSet.audio PortSet.midi app].
      eexists. split; [reflexivity|].
      destruct (setup_bundle_identity (IO.with_name io0 (legalize_io_name (IO._name io))) s')
        as (H1 & H2 & _ & _ & H5 & H6).
      rewrite ports_setup_bundle, H1, H2, H5, H6. repeat split. }
  destruct Hset as (io1 & -> & Hp1 & Hn1 & Hid1 & Hs1 & Hpn1).
  cbn [option_map fst snd].
  rewrite (of_string_to_string _ Hdt).
  match goal with
  | |- context [match IO._default_type io with
                | DataType.AUDIO => ?a | DataType.MIDI => ?b | DataType.NIL => ?c end] =>
      assert (Hio2 : match IO._default_type io with
                     | DataType.AUDIO => a | DataType.MIDI => b | DataType.NIL => c end
                     = Some (IO.with_header io1 (IO.id io1) (IO._direction io1)
                                            (IO._default_type io)))
  end.
  { destruct (IO._default_type io) eqn:E; [reflexivity | reflexivity | exfalso; congruence]. }
  rewrite Hio2.
  unfold IO.set_id. rewrite Hid, Hdir, Direction_of_to_string. cbn [option_map].
  set (io4 := IO.with_header _ _ _ _).
  assert (H4 : IO._name io4 = legalize_io_name (IO._name io) /\ IO.id io4 = IO.id io /\
               IO._direction io4 = IO._direction io /\
               IO._default_type io4 = IO._default_type io /\
               IO._sendish io4 = sendish /\ IO._pretty_name_prefix io4 = "").
  { repeat split; assumption. }
  destruct H4 as (Hn4 & Hid4 & Hd4 & Hdt4 & Hs4 & Hpn4).
  destruct (create_ports_grows (IO.state io s) version io4 s' Hv) as
    (r & io5 & s2 & Hcreate & Hr & _); [|exact Ha|].
  { split.
    - intros v Hcn.
      destruct (state_properties io s) as (_ & _ & _ & _ & _ & _ & Hnone & _).
      rewrite Hnone in Hcn. discriminate.
    - eapply Forall_impl; [|apply children_of_state_are_ports].
      intros c Hc Hb. rewrite Hc in Hb. discriminate. }
  rewrite Hcreate.
  assert (H5 : same_identity io5 io4).
  { unfold IO.create_ports in Hcreate.
    destruct (IO.get_port_counts _ _ _ _ _) as [[[r0 n] s0]|]; [|discriminate].
    destruct (IO.ensure_ports _ _ _ _ _) as [[[r1 io1'] s1']|] eqn:He; [|discriminate].
    apply ensure_ports_identity in He.
    destruct (negb (r1 =? 0)%Z); injection Hcreate as _ <- _; exact He. }
  destruct H5 as (Hn5 & Hid5 & Hd5 & Hdt5 & Hs5 & Hpn5).
  destruct Hr as [-> | ->]; cbn [Z.eqb negb].
  - set (node1 := if IO._sendish io5 && Direction_eqb (IO._direction io5) Output
                  then _ else _).
    assert (Hpretty1 : XML.property node1 "pretty-name"
                       = XML.property (IO.state io s) "pretty-name").
    { subst node1. destruct (IO._sendish io5 && Direction_eqb (IO._direction io5) Output);
        reflexivity. }
    rewrite Hpretty1, Hpretty.
    assert (Hfinal : exists io6 s3,
              match (if String.eqb (IO._pretty_name_prefix io) "" then None
                     else Some (IO._pretty_name_prefix io)) with
              | Some name => IO.set_pretty_name name io5 s2
              | None => (io5, s2)
              end = (io6, s3) /\
              IO._name io6 = IO._name io5 /\ IO.id io6 = IO.id io5 /\
              IO._direction io6 = IO._direction io5 /\
              IO._default_type io6 = IO._default_type io5 /\
              IO._sendish io6 = IO._sendish io5 /\
              IO._pretty_name_prefix io6 = IO._pretty_name_prefix io).
    { destruct (String.eqb (IO._pretty_name_prefix io) "") eqn:Hempty.
      - exists io5, s2. repeat split. apply String.eqb_eq in Hempty. congruence.
      - unfold IO.set_pretty_name.
        destruct (String.eqb (IO._pretty_name_prefix io5) (IO._pretty_name_prefix io)) eqn:Heq.
        + exists io5, s2. repeat split. now apply String.eqb_eq in Heq.
        + eexists _, _. repeat split. }
    destruct Hfinal as (io6 & s3 & -> & Hn6 & Hid6 & Hd6 & Hdt6 & Hs6 & Hpn6).
    eexists _, _. split; [reflexivity|].
    destruct (setup_bundle_identity io6
                (fold_left (IO.apply_port_state io6) (XML.children node1) s3))
      as (K1 & K2 & K3 & K4 & K5 & K6).
    rewrite K1, K2, K3, K4, K5.
    repeat split; try congruence. apply setup_bundle_describes.
  - eexists _, _. split; [reflexivity|].
    destruct (setup_bundle_identity io5 s2) as (K1 & K2 & K3 & K4 & K5 & K6).
    rewrite K1, K2, K3, K4, K5.
    repeat split; try congruence. apply setup_bundle_describes.
Qed.

(** ** Colons in names *)

Lemma legalize_lacks_colon (n : string) : lacks ":" (legalize_io_name n) = true.
Proof.
  unfold legalize_io_name. induction n as [|a n IH]; cbn [Str.replace_char lacks];
    [reflexivity|].
  rewrite IH, andb_true_r. destruct (Ascii.eqb a ":") eqn:E; [reflexivity|].
  now rewrite E.
Qed.

Lemma legalize_length (n : string) :
  String.length (legalize_io_name n) = String.length n.
Proof.
  unfold legalize_io_name. induction n as [|a n IH]; cbn; [reflexivity | now rewrite IH].
Qed.

Lemma lacks_substring c : forall (x : string) n m,
  lacks c x = true -> lacks c (substring n m x) = true.
Proof.
  induction x as [|a x IH]; intros n m H.
  - destruct n, m; reflexivity.
  - cbn [lacks] in H. apply andb_true_iff in H. destruct H as [Ha Hx].
    destruct n as [|n]; destruct m as [|m]; cbn [substring lacks]; try reflexivity.
    + rewrite Ha. cbn. now apply IH.
    + now apply IH.
    + now apply IH.
Qed.

Lemma lacks_digits (u : Decimal.uint) : lacks ":" (NilEmpty.string_of_uint u) = true.
Proof. induction u; cbn; auto. Qed.

Lemma lacks_fmt_u n : lacks ":" (fmt_u n) = true.
Proof. apply lacks_digits. Qed.

Lemma find_port_hole_is_a_count s ps base :
  exists n, IO.find_port_hole s ps base = Z.of_N n.
Proof.
  unfold IO.find_port_hole. destruct (PortSet.empty ps); [now exists 1%N|].
  eexists. reflexivity.
Qed.

(** X16.  For audio and MIDI, [build_legal_port_name] returns a
    name, and that name contains no colon, whatever the name of the
    IO. *)
Theorem built_port_names_have_no_colon (io : IO.t) (s : Session.t) (ps : PortSet.t)
    (ty : DataType.t) :
  ty <> DataType.NIL ->
  exists name,
    IO.build_legal_port_name io s ps ty = Some name /\ lacks ":" name = true.
Proof.
  intros Hty.
  destruct (build_legal_port_name_some io s ps ty Hty) as (name & H).
  exists name. split; [exact H|]. clear Hty. revert H.
  unfold IO.build_legal_port_name. intros H.
  destruct (IO.port_suffix io ty) as [sfx|] eqn:Hsfx; [|discriminate].
  cbv zeta in H. injection H as <-.
  set (buf1 := Str.snprintf _ (Str.fmt_prec_s _ _ ++ _)%string).
  destruct (find_port_hole_is_a_count s ps buf1) as (n & ->).
  rewrite fmt_d_of_N.
  assert (Hsuffix : lacks ":" (sfx ++ IO.role_suffix io)%string = true).
  { rewrite lacks_append. unfold IO.role_suffix.
    destruct ty; cbn in Hsfx; try discriminate; injection Hsfx as <-;
      destruct (IO._sendish io), (Direction_eqb (IO._direction io) Input); reflexivity. }
  assert (Hbuf1 : lacks ":" buf1 = true).
  { subst buf1. unfold Str.snprintf. apply lacks_substring.
    rewrite lacks_append. cbn [lacks Ascii.eqb Bool.eqb negb andb].
    rewrite Hsuffix, andb_true_r. unfold Str.fmt_prec_s.
    destruct (_ <? 0)%Z; [apply legalize_lacks_colon|].
    apply lacks_substring, legalize_lacks_colon. }
  unfold Str.snprintf. apply lacks_substring.
  rewrite lacks_append, Hbuf1. cbn [lacks Ascii.eqb Bool.eqb negb andb].
  apply lacks_fmt_u.
Qed.

(** X17.  The name of an IO never contains a colon: the constructor
    replaces every colon of the given name by a dash (keeping its
    length, and keeping a name without colons as it is), and
    [set_name] keeps a name without colons free of them. *)
Theorem io_name_never_has_a_colon (addr : nat) (new_id name requested : string)
    (dir : Direction) (ty : DataType.t) (sendish : bool) (io : IO.t) (s : Session.t) :
  lacks ":" (IO._name (IO.create addr new_id s name dir ty sendish)) = true /\
  String.length (IO._name (IO.create addr new_id s name dir ty sendish))
    = String.length name /\
  (lacks ":" name = true -> IO._name (IO.create addr new_id s name dir ty sendish) = name) /\
  (forall r io' s',
     lacks ":" (IO._name io) = true ->
     IO.set_name requested io s = Some (r, io', s') ->
     lacks ":" (IO._name io') = true).
Proof.
  assert (Hcreate : IO._name (IO.create addr new_id s name dir ty sendish)
                    = legalize_io_name name).
  { unfold IO.create. now destruct (setup_bundle_identity
      (IO.mk addr (legalize_io_name name) new_id dir ty true sendish
             RCU.init [] None [] "" [] []) s) as (-> & _). }
  rewrite Hcreate. split; [apply legalize_lacks_colon|].
  split; [apply legalize_length|]. split; [apply legalize_without_colon|].
  intros r io' s' Hio. unfold IO.set_name.
  destruct (String.eqb (IO._name io) requested).
  - intros H. injection H as _ <- _. exact Hio.
  - destruct (fold_left _ _ _) as [s1|]; [|discriminate].
    intros H. injection H as _ <- _.
    destruct (setup_bundle_identity (IO.with_name io (legalize_io_name requested)) s1)
      as (-> & _).
    apply legalize_lacks_colon.
Qed.

(** ** Splitting at commas *)

Lemma fields_not_nil x : fields x <> [].
Proof.
  destruct x as [|a r]; cbn; [discriminate|].
  destruct (Ascii.eqb a ","); [discriminate|]. destruct (fields r); discriminate.
Qed.

Lemma fields_concat x : String.concat "," (fields x) = x.
Proof.
  induction x as [|a r IH]; [reflexivity|]. cbn [fields].
  destruct (Ascii.eqb_spec a ",") as [->|Hne].
  - pose proof (fields_not_nil r) as Hnn.
    destruct (fields r) as [|h t] eqn:E; [congruence|].
    rewrite concat_cons2. cbn. now rewrite <- IH.
  - pose proof (fields_not_nil r) as Hnn.
    destruct (fields r) as [|h t] eqn:E; [congruence|].
    rewrite <- IH. destruct t as [|h' t]; [reflexivity|].
    rewrite !concat_cons2. reflexivity.
Qed.

Lemma fields_lack_commas x : Forall (fun f => lacks "," f = true) (fields x).
Proof.
  induction x as [|a r IH]; cbn [fields]; [repeat constructor|].
  destruct (Ascii.eqb a ",") eqn:E; [constructor; [reflexivity | exact IH]|].
  destruct (fields r) as [|h t]; [repeat constructor; cbn; now rewrite E|].
  inversion IH; subst. constructor; [cbn; rewrite E; assumption | assumption].
Qed.

Lemma split_commas_fields : forall (g : list string) (x : string) (pre : string)
    (acc : list string) (fuel : nat),
  Forall (fun f => lacks "," f = true) (x :: g) ->
  length g < fuel ->
  IO.split_commas fuel (pre ++ String.concat "," (x :: g)) (String.length pre) acc =
  (String.length (pre ++ String.concat "," (x :: g)) - String.length (last (x :: g) ""),
   acc ++ removelast (x :: g)).
Proof.
  induction g as [|y g IH]; intros x pre acc fuel Hplain Hfuel.
  - destruct fuel as [|fuel]; [simpl in Hfuel; lia|].
    inversion Hplain as [|? ? Hcomma _]; subst.
    cbn [IO.split_commas String.concat last removelast].
    rewrite <- (Nat.add_0_r (String.length pre)) at 1.
    rewrite find_char_shift, find_char_lacks by assumption. cbn [option_map].
    rewrite length_append, app_nil_r. f_equal. lia.
  - destruct fuel as [|fuel]; [simpl in Hfuel; lia|].
    inversion Hplain as [|? ? Hcomma Hrest]; subst.
    cbn [IO.split_commas]. rewrite concat_cons2.
    rewrite <- (Nat.add_0_r (String.length pre)) at 1.
    rewrite find_char_shift. cbn [append].
    rewrite find_char_first by assumption. cbn [option_map].
    unfold Str.substr.
    replace (String.length pre + String.length x - String.length pre)
      with (String.length x) by lia.
    rewrite substring_shift, substring_prefix.
    replace (pre ++ x ++ String "," (String.concat "," (y :: g)))%string
      with ((pre ++ x ++ ",") ++ String.concat "," (y :: g))%string
      by (rewrite !append_assoc; reflexivity).
    replace (String.length pre + String.length x + 1)
      with (String.length (pre ++ x ++ ","))
      by (rewrite !length_append; simpl; lia).
    rewrite IH by (assumption || (simpl in Hfuel; lia)).
    f_equal. change (removelast (x :: y :: g)) with (x :: removelast (y :: g)).
    now rewrite <- app_assoc.
Qed.

Lemma concat_length_fields (g : list string) :
  length g <= S (String.length (String.concat "," g)).
Proof.
  induction g as [|x g IH]; [simpl; lia|].
  destruct g as [|y g]; [simpl; lia|].
  rewrite concat_cons2, !length_append. simpl in *. lia.
Qed.

Lemma split_then_rest (str : string) :
  let '(opos, ports1) := IO.split_commas (S (String.length str)) str 0 [] in
  (if (opos <? String.length str)%nat
   then ports1 ++ [Str.substr_from opos str] else ports1)
  = without_empty_last (fields str).
Proof.
  pose proof (fields_concat str) as Hc.
  pose proof (fields_lack_commas str) as Hl.
  pose proof (fields_not_nil str) as Hnn.
  destruct (fields str) as [|x g] eqn:E; [congruence|].
  pose proof (split_commas_fields g x "" [] (S (String.length str)) Hl) as Hsplit.
  cbn [append String.length app] in Hsplit. rewrite Hc in Hsplit.
  rewrite Hsplit by (pose proof (concat_length_fields (x :: g)) as H; rewrite Hc in H;
                     cbn [length] in H; lia).
  destruct (last_suffix x g) as (pre & Hpre). rewrite Hc in Hpre.
  assert (Hlen : String.length str = String.length pre + String.length (last (x :: g) "")).
  { rewrite Hpre at 1. apply length_append. }
  unfold without_empty_last.
  destruct (String.eqb_spec (last (x :: g) "") "") as [Hlast|Hlast].
  - rewrite Hlast. cbn [String.length]. rewrite Nat.sub_0_r, Nat.ltb_irrefl. reflexivity.
  - assert (0 < String.length (last (x :: g) "")).
    { destruct (last (x :: g) ""); [congruence | simpl; lia]. }
    destruct (Nat.ltb_spec (String.length str - String.length (last (x :: g) ""))
                (String.length str)) as [_|Hge]; [|lia].
    assert (Hsub : Str.substr_from (String.length str - String.length (last (x :: g) "")) str
                   = last (x :: g) "").
    { unfold Str.substr_from. rewrite Hlen.
      replace (String.length pre + String.length (last (x :: g) "") -
               String.length (last (x :: g) "")) with (String.length pre) by lia.
      replace (String.length pre + String.length (last (x :: g) "") - String.length pre)
        with (String.length (last (x :: g) "")) by lia.
      rewrite Hpre at 1. rewrite substring_shift. apply substring_all. }
    rewrite Hsub, <- app_removelast_last by discriminate. reflexivity.
Qed.

(** X18.  [parse_gain_string] splits a string at its commas: it
    returns the pieces between the commas, in order, dropping the last
    piece when it is empty, and their number.  [parse_io_string] does
    the same for a string that is not empty; for the empty string it
    returns 0 and leaves the vector as it was. *)
Theorem parsers_split_at_commas (str : string) (ports : list string) :
  String.concat "," (fields str) = str /\
  Forall (fun f => lacks "," f = true) (fields str) /\
  IO.parse_gain_string str ports =
    (Z.of_nat (length (without_empty_last (fields str))), without_empty_last (fields str)) /\
  IO.parse_io_string str ports =
    (if String.eqb str "" then (0%Z, ports) else IO.parse_gain_string str ports).
Proof.
  split; [apply fields_concat|]. split; [apply fields_lack_commas|].
  assert (Hgain : IO.parse_gain_string str ports =
    (Z.of_nat (length (without_empty_last (fields str))),
     without_empty_last (fields str))).
  { unfold IO.parse_gain_string. pose proof (split_then_rest str) as H.
    destruct (IO.split_commas (S (String.length str)) str 0 []) as [opos ports1].
    now rewrite H. }
  split; [exact Hgain|].
  unfold IO.parse_io_string, IO.parse_gain_string.
  destruct (String.eqb_spec str "") as [->|Hne]; [reflexivity|].
  destruct (Nat.eqb_spec (String.length str) 0) as [H0|_]; [|reflexivity].
  destruct str; [congruence | discriminate].
Qed.

(** ** The names in a state node *)

Lemma lacks_false_split c : forall (x : string),
  lacks c x = false ->
  exists pre rest, x = (pre ++ String c rest)%string /\ lacks c pre = true.
Proof.
  induction x as [|a x IH]; cbn [lacks]; [discriminate|].
  destruct (Ascii.eqb_spec a c) as [->|Hne]; cbn [negb andb].
  - intros _. exists "", x. split; reflexivity.
  - intros H. destruct (IH H) as (pre & rest & -> & Hpre).
    exists (String a pre), rest. split; [reflexivity|].
    cbn [lacks]. rewrite Hpre, andb_true_r. apply negb_true_iff.
    now apply Ascii.eqb_neq.
Qed.

Lemma substr_from_at (pre rest : string) :
  Str.substr_from (String.length pre) (pre ++ rest) = rest.
Proof.
  unfold Str.substr_from. rewrite length_append.
  replace (String.length pre + String.length rest - String.length pre)
    with (String.length rest) by lia.
  rewrite substring_shift. apply substring_all.
Qed.

Lemma slash_found (io rest : string) :
  lacks "/" io = true ->
  Str.find_char_from "/" 0 (io ++ String "/" rest) = Some (String.length io) /\
  Str.substr_from (String.length io) (io ++ String "/" rest) = String "/" rest /\
  Str.substr_from (String.length io + 1) (io ++ String "/" rest) = rest.
Proof.
  intros Hio. split; [now apply find_char_first|]. split; [apply substr_from_at|].
  replace (io ++ String "/" rest)%string with ((io ++ "/") ++ rest)%string
    by (rewrite append_assoc; reflexivity).
  replace (String.length io + 1) with (String.length (io ++ "/"))
    by (rewrite length_append; reflexivity).
  apply substr_from_at.
Qed.

Lemma slash_not_found (old : string) :
  lacks "/" old = true -> Str.find_char_from "/" 0 old = None.
Proof. apply find_char_lacks. Qed.

Lemma property_set_same node k v : XML.property (XML.set_property node k v) k = Some v.
Proof. destruct node. apply XML_lookup_assign_same. Qed.

Lemma property_set_other node k k' v :
  k <> k' -> XML.property (XML.set_property node k v) k' = XML.property node k'.
Proof. destruct node. now apply XML_lookup_assign_other. Qed.

Lemma assign_twice k v w l : XML.assign k w (XML.assign k v l) = XML.assign k w l.
Proof.
  induction l as [|[k0 v0] l IH]; cbn.
  - now rewrite String.eqb_refl.
  - destruct (String.eqb k0 k) eqn:E; cbn; rewrite E; [reflexivity | now rewrite IH].
Qed.

Lemma set_property_twice node k v w :
  XML.set_property (XML.set_property node k v) k w = XML.set_property node k w.
Proof. destruct node. unfold XML.set_property. cbn. now rewrite assign_twice. Qed.

Lemma reset_port_name_twice name child :
  lacks "/" name = true ->
  IO.reset_port_name name (IO.reset_port_name name child) = IO.reset_port_name name child.
Proof.
  intros Hname. unfold IO.reset_port_name at 2.
  destruct (String.eqb (XML.name child) "Port") eqn:Hport.
  - destruct (XML.property child "name") as [old|] eqn:Hold.
    + destruct (Str.find_char_from "/" 0 old) as [slash|] eqn:Hslash.
      * assert (Hno : lacks "/" old = false).
        { apply not_true_is_false. intros H. apply slash_not_found in H. congruence. }
        destruct (lacks_false_split _ _ Hno) as (pre & rest & -> & Hpre).
        destruct (slash_found pre rest Hpre) as (Hf & Hs & _).
        rewrite Hf in Hslash. injection Hslash as <-. rewrite Hs.
        unfold IO.reset_port_name.
        assert (Hn : XML.name (XML.set_property child "name" (name ++ String "/" rest))
                     = XML.name child) by (destruct child; reflexivity).
        rewrite Hn, Hport, property_set_same.
        destruct (slash_found name rest Hname) as (Hf' & Hs' & _).
        rewrite Hf', Hs', Hold, Hf, Hs. apply set_property_twice.
      * unfold IO.reset_port_name. now rewrite Hport, Hold, Hslash.
    + unfold IO.reset_port_name. now rewrite Hport, Hold.
  - unfold IO.reset_port_name. now rewrite Hport.
Qed.

Lemma children_set_property node k v :
  XML.children (XML.set_property node k v) = XML.children node.
Proof. now destruct node. Qed.

(** X19.  [prepare_for_reset] sets the name of the node and gives
    every Port child whose name is [io/rest] the name [name/rest],
    leaving children that are not ports, ports without a name and
    ports without a slash in their name as they are; applied twice
    with a name that has no slash it does what it does once. *)
Theorem prepare_for_reset_renames_ports (node : XML.node) (name : string) :
  IO.name_from_state (IO.prepare_for_reset node name) = name /\
  XML.name (IO.prepare_for_reset node name) = XML.name node /\
  (forall i c io rest,
     nth_error (XML.children node) i = Some c ->
     XML.name c = "Port" ->
     XML.property c "name" = Some (io ++ "/" ++ rest)%string ->
     lacks "/" io = true ->
     exists c',
       nth_error (XML.children (IO.prepare_for_reset node name)) i = Some c' /\
       XML.name c' = "Port" /\
       XML.property c' "name" = Some (name ++ "/" ++ rest)%string) /\
  (forall i c,
     nth_error (XML.children node) i = Some c ->
     (XML.name c <> "Port" \/ XML.property c "name" = None \/
      exists old, XML.property c "name" = Some old /\ lacks "/" old = true) ->
     nth_error (XML.children (IO.prepare_for_reset node name)) i = Some c) /\
  (lacks "/" name = true ->
   IO.prepare_for_reset (IO.prepare_for_reset node name) name
   = IO.prepare_for_reset node name).
Proof.
  assert (Hch : XML.children (IO.prepare_for_reset node name)
                = map (IO.reset_port_name name) (XML.children node)).
  { unfold IO.prepare_for_reset. destruct node. reflexivity. }
  split; [|split; [|split; [|split]]].
  - unfold IO.name_from_state, IO.prepare_for_reset.
    destruct node as [nm props children]. cbn.
    change (XML.property (XML.Node nm (XML.assign "name" name props)
                           (map (IO.reset_port_name name) children)) "name")
      with (XML.lookup "name" (XML.assign "name" name props)).
    now rewrite XML_lookup_assign_same.
  - now destruct node.
  - intros i c io rest Hi Hport Hold Hio. rewrite Hch.
    exists (IO.reset_port_name name c). split; [now apply map_nth_error|].
    unfold IO.reset_port_name. apply String.eqb_eq in Hport. rewrite Hport, Hold.
    destruct (slash_found io rest Hio) as (Hf & Hs & _).
    cbn [append]. rewrite Hf, Hs. split.
    + destruct c. cbn in *. now apply String.eqb_eq.
    + apply property_set_same.
  - intros i c Hi Hcase. rewrite Hch.
    assert (Hsame : IO.reset_port_name name c = c);
      [|rewrite <- Hsame; now apply map_nth_error].
    unfold IO.reset_port_name.
    destruct (String.eqb_spec (XML.name c) "Port") as [Hport|Hport]; [|reflexivity].
    destruct Hcase as [Hc|[Hc|(old & Hc & Hl)]]; [contradiction | now rewrite Hc|].
    now rewrite Hc, (slash_not_found _ Hl).
  - intros Hname. unfold IO.prepare_for_reset.
    rewrite !children_set_property. destruct node as [nm props children].
    unfold XML.set_property, XML.set_children. cbn.
    rewrite assign_twice, map_map. f_equal.
    apply map_ext. intros c. now apply reset_port_name_twice.
Qed.

Lemma rename_loop_stuck new_name l :
  fold_left (IO.rename_port_in_state new_name) l None = None.
Proof. induction l as [|c l IH]; [reflexivity | exact IH]. Qed.

Lemma nameless_port_dec c : {nameless_port c} + {~ nameless_port c}.
Proof.
  unfold nameless_port. destruct (string_dec (XML.name c) "Port") as [H|H].
  - destruct (XML.property c "name"); [right; intros [_ K]; discriminate | left; auto].
  - right. tauto.
Qed.

Lemma rename_step new_name acc c :
  (nameless_port c -> IO.rename_port_in_state new_name (Some acc) c = None) /\
  (~ nameless_port c ->
   IO.rename_port_in_state new_name (Some acc) c
   = Some (acc ++ [renamed_in_state new_name c])).
Proof.
  unfold IO.rename_port_in_state, renamed_in_state, nameless_port.
  destruct (String.eqb_spec (XML.name c) "Port") as [Hport|Hport].
  - destruct (XML.property c "name") as [old|].
    + split; [intros [_ H]; discriminate | reflexivity].
    + split; [reflexivity | intros H; exfalso; apply H; now split].
  - split; [intros [H _]; contradiction | reflexivity].
Qed.

Lemma rename_loop new_name : forall l acc,
  (Forall (fun c => ~ nameless_port c) l ->
   fold_left (IO.rename_port_in_state new_name) l (Some acc)
   = Some (acc ++ map (renamed_in_state new_name) l)) /\
  (Exists nameless_port l ->
   fold_left (IO.rename_port_in_state new_name) l (Some acc) = None).
Proof.
  induction l as [|c l IH]; intros acc.
  - split; [intros _; cbn; now rewrite app_nil_r | intros H; inversion H].
  - cbn [fold_left map]. destruct (rename_step new_name acc c) as [Hbad Hok].
    destruct (nameless_port_dec c) as [Hn|Hn].
    + rewrite (Hbad Hn). split.
      * intros H. inversion H; subst. contradiction.
      * intros _. apply rename_loop_stuck.
    + rewrite (Hok Hn). split.
      * intros H. inversion H; subst.
        rewrite (proj1 (IH _)) by assumption. now rewrite <- app_assoc.
      * intros H. inversion H as [? ? Hc|? ? Hex]; subst; [contradiction|].
        now apply IH.
Qed.

(** X20.  [set_name_in_state] fails exactly when some Port child
    has no name; otherwise it sets the name of the node and gives a
    Port child named [io/rest] the name [new/rest] and one whose name
    has no slash the name [new/name].  On a node whose Port children
    all have a slash in their name it does what [prepare_for_reset]
    does. *)
Theorem set_name_in_state_renames_ports (node : XML.node) (new_name : string) :
  (IO.set_name_in_state node new_name = None <->
   Exists nameless_port (XML.children node)) /\
  (forall node',
     IO.set_name_in_state node new_name = Some node' ->
     IO.name_from_state node' = new_name /\
     forall i c io rest,
       nth_error (XML.children node) i = Some c ->
       XML.name c = "Port" ->
       XML.property c "name" = Some (io ++ "/" ++ rest)%string ->
       lacks "/" io = true ->
       exists c',
         nth_error (XML.children node') i = Some c' /\
         XML.name c' = "Port" /\
         XML.property c' "name" = Some (new_name ++ "/" ++ rest)%string) /\
  (forall node' i c old,
     IO.set_name_in_state node new_name = Some node' ->
     nth_error (XML.children node) i = Some c ->
     XML.name c = "Port" ->
     XML.property c "name" = Some old ->
     lacks "/" old = true ->
     exists c',
       nth_error (XML.children node') i = Some c' /\
       XML.property c' "name" = Some (new_name ++ "/" ++ old)%string) /\
  (Forall (fun c => XML.name c = "Port" ->
                    exists old, XML.property c "name" = Some old /\ lacks "/" old = false)
          (XML.children node) ->
   IO.set_name_in_state node new_name = Some (IO.prepare_for_reset node new_name)).
Proof.
  assert (Hdec : Exists nameless_port (XML.children node) \/
                 Forall (fun c => ~ nameless_port c) (XML.children node)).
  { destruct (Exists_dec nameless_port (XML.children node) nameless_port_dec) as [H|H];
      [now left | right; now apply Forall_Exists_neg]. }
  unfold IO.set_name_in_state. rewrite children_set_property.
  destruct (rename_loop new_name (XML.children node) []) as [Hok Hbad].
  split; [|split; [|split]].
  - split.
    + intros H. destruct Hdec as [He|Hf]; [exact He|].
      rewrite (Hok Hf) in H. discriminate.
    + intros He. now rewrite (Hbad He).
  - intros node' H. destruct Hdec as [He|Hf]; [rewrite (Hbad He) in H; discriminate|].
    rewrite (Hok Hf) in H. cbn [option_map app] in H. injection H as <-.
    split.
    + unfold IO.name_from_state. destruct node as [nm props children]. cbn.
      change (XML.property (XML.Node nm (XML.assign "name" new_name props)
                              (map (renamed_in_state new_name) children)) "name")
        with (XML.lookup "name" (XML.assign "name" new_name props)).
      now rewrite XML_lookup_assign_same.
    + intros i c io rest Hi Hport Hold Hio.
      exists (renamed_in_state new_name c). split.
      * destruct node as [nm props children]. cbn in *. now apply map_nth_error.
      * unfold renamed_in_state. apply String.eqb_eq in Hport. rewrite Hport, Hold.
        destruct (slash_found io rest Hio) as (Hf' & _ & Hs).
        cbn [append]. rewrite Hf', Hs. split.
        -- destruct c. cbn in *. now apply String.eqb_eq.
        -- apply property_set_same.
  - intros node' i c old H Hi Hport Hold Hl.
    destruct Hdec as [He|Hf]; [rewrite (Hbad He) in H; discriminate|].
    rewrite (Hok Hf) in H. cbn [option_map app] in H. injection H as <-.
    exists (renamed_in_state new_name c). split.
    + destruct node as [nm props children]. cbn in *. now apply map_nth_error.
    + unfold renamed_in_state. apply String.eqb_eq in Hport. rewrite Hport, Hold.
      rewrite (slash_not_found _ Hl). unfold Str.substr_from.
      rewrite Nat.sub_0_r, substring_all. apply property_set_same.
  - intros Hslash.
    assert (Hf : Forall (fun c => ~ nameless_port c) (XML.children node)).
    { eapply Forall_impl; [|exact Hslash]. intros c Hc [Hp Hn].
      destruct (Hc Hp) as (old & Ho & _). congruence. }
    rewrite (Hok Hf). cbn [option_map app]. unfold IO.prepare_for_reset.
    rewrite children_set_property. f_equal. f_equal.
    apply map_ext_in. intros c Hin. rewrite Forall_forall in Hslash.
    specialize (Hslash c Hin). unfold renamed_in_state, IO.reset_port_name.
    destruct (String.eqb_spec (XML.name c) "Port") as [Hport|Hport]; [|reflexivity].
    destruct (Hslash Hport) as (old & -> & Hno).
    destruct (lacks_false_split _ _ Hno) as (pre & rest & -> & Hpre).
    destruct (slash_found pre rest Hpre) as (-> & -> & ->). reflexivity.
Qed.

(** ** Renaming *)

Lemma find_prefix (old rest : string) : Str.find old (old ++ rest) = Some 0.
Proof.
  unfold Str.find.
  assert (Hp : prefix old (old ++ rest) = true).
  { apply prefix_correct. apply substring_prefix. }
  destruct (old ++ rest)%string as [|a x] eqn:E.
  - destruct old; [reflexivity | discriminate].
  - cbn [index]. now rewrite Hp.
Qed.

Lemma substring_nothing (x : string) : substring 0 0 x = "".
Proof. now destruct x. Qed.

Lemma replace_prefix (old new rest : string) :
  Str.replace 0 (String.length old) new (old ++ rest) = (new ++ rest)%string.
Proof.
  unfold Str.replace. rewrite substring_nothing. cbn [append Nat.add].
  now rewrite substr_from_at.
Qed.

Lemma rename_loop_ports (old new : string) : forall (l : list Port.ptr) (s : Session.t),
  NoDup l ->
  (forall p, In p l -> exists rest, Session.port_name s p = (old ++ rest)%string) ->
  exists s',
    fold_left (IO.rename_port old new) l (Some s) = Some s' /\
    (forall p rest, In p l -> Session.port_name s p = (old ++ rest)%string ->
                    Session.port_name s' p = (new ++ rest)%string) /\
    (forall p, ~ In p l -> Session.port s' p = Session.port s p) /\
    Session.trace s' = Session.trace s /\ Session.next_port s' = Session.next_port s /\
    Session.my_name s' = Session.my_name s.
Proof.
  induction l as [|p l IH]; intros s Hnd Hnames.
  - exists s. repeat split; intros; contradiction.
  - inversion Hnd as [|? ? Hnotin Hnd']; subst.
    destruct (Hnames p (or_introl eq_refl)) as (rest_p & Hp).
    cbn [fold_left]. unfold IO.rename_port at 2. rewrite Hp, find_prefix, replace_prefix.
    set (s1 := Session.update_port p _ s).
    assert (Hother : forall q, q <> p -> Session.port s1 q = Session.port s q).
    { intros q Hq. subst s1. cbn. destruct (Nat.eqb_spec q p); [contradiction | reflexivity]. }
    assert (Hself : Session.port_name s1 p = (new ++ rest_p)%string).
    { subst s1. unfold Session.port_name. cbn. now rewrite Nat.eqb_refl. }
    destruct (IH s1 Hnd') as (s' & -> & Hin & Hout & Ht & Hn & Hm).
    { intros q Hq. destruct (Hnames q (or_intror Hq)) as (rest & Hrest).
      exists rest. unfold Session.port_name in *. rewrite Hother; [exact Hrest|].
      intros ->. contradiction. }
    exists s'. split; [reflexivity|]. split; [|split; [|split; [|split]]].
    + intros q rest [<-|Hq] Hrest.
      * unfold Session.port_name in *. rewrite (Hout p Hnotin).
        rewrite Hp in Hrest. apply append_inj_l in Hrest. subst rest. exact Hself.
      * apply Hin; [exact Hq|]. unfold Session.port_name in *. rewrite Hother; [exact Hrest|].
        intros ->. contradiction.
    + intros q Hq. rewrite Hout by (intros H; apply Hq; now right).
      apply Hother. intros ->. apply Hq. now left.
    + rewrite Ht. reflexivity.
    + rewrite Hn. reflexivity.
    + rewrite Hm. reflexivity.
Qed.

Lemma bundle_of_setup io s :
  exists b, IO._bundle (IO.setup_bundle io s) = Some b /\
    Bundle.name b =
      (IO._name io ++ " " ++ (if Direction_eqb (IO._direction io) Input then "in" else "out"))%string /\
    Bundle.channel b =
      channels_of_type io s DataType.AUDIO ++ channels_of_type io s DataType.MIDI.
Proof.
  unfold IO.setup_bundle.
  set (b3 := Bundle.set_name _ _).
  assert (H3 : Bundle.channel b3 = []) by reflexivity.
  unfold DataType.all. cbn [fold_left].
  change 0%nat with (@length Bundle.Channel []). rewrite <- H3.
  rewrite setup_channels_spec.
  set (b4 := Bundle.mk _ _ _ _ _).
  replace (length (Bundle.channel b3) + length (channels_of_type io s DataType.AUDIO))
    with (length (Bundle.channel b4))
    by (subst b4; cbn [Bundle.channel]; rewrite length_app; reflexivity).
  rewrite setup_channels_spec.
  eexists. split; [reflexivity|]. split; [reflexivity|].
  subst b4. cbn [Bundle.channel Bundle.resume_signals]. now rewrite H3.
Qed.

(** X21.  [set_name] with the current name changes nothing.  With
    another name, on an IO whose port names start with the IO's name,
    it returns true: the IO has the new name with its colons replaced,
    every port has that name in place of the old one in front of the
    rest of its name, other ports are untouched, and the bundle is
    rebuilt under the new name.  It does not return when a port's name
    does not contain the IO's name. *)
Theorem set_name_renames_ports (requested : string) (io : IO.t) (s : Session.t) :
  IO.set_name (IO._name io) io s = Some (true, io, s) /\
  (IO._name io <> requested ->
   NoDup (PortSet.all (IO.ports io)) ->
   (forall p, In p (PortSet.all (IO.ports io)) ->
              exists rest, Session.port_name s p = (IO._name io ++ rest)%string) ->
   exists io' s' b,
     IO.set_name requested io s = Some (true, io', s') /\
     IO._name io' = legalize_io_name requested /\
     IO.ports io' = IO.ports io /\
     (forall p rest,
        In p (PortSet.all (IO.ports io)) ->
        Session.port_name s p = (IO._name io ++ rest)%string ->
        Session.port_name s' p = (legalize_io_name requested ++ rest)%string) /\
     (forall p, ~ In p (PortSet.all (IO.ports io)) -> Session.port s' p = Session.port s p) /\
     IO._bundle io' = Some b /\
     Bundle.name b =
       (legalize_io_name requested ++ " " ++
        (if Direction_eqb (IO._direction io) Input then "in" else "out"))%string /\
     bundle_describes_ports io') /\
  (forall p,
     IO._name io <> requested ->
     In p (PortSet.all (IO.ports io)) ->
     NoDup (PortSet.all (IO.ports io)) ->
     Str.find (IO._name io) (Session.port_name s p) = None ->
     IO.set_name requested io s = None).
Proof.
  split; [|split].
  - unfold IO.set_name. now rewrite String.eqb_refl.
  - intros Hne Hnd Hnames. unfold IO.set_name.
    destruct (String.eqb_spec (IO._name io) requested) as [|_]; [contradiction|].
    destruct (rename_loop_ports (IO._name io) (legalize_io_name requested)
                (PortSet.all (IO.ports io)) s Hnd Hnames)
      as (s' & -> & Hin & Hout & _).
    destruct (bundle_of_setup (IO.with_name io (legalize_io_name requested)) s')
      as (b & Hb & Hbn & _).
    eexists _, s', b. split; [reflexivity|].
    destruct (setup_bundle_identity (IO.with_name io (legalize_io_name requested)) s')
      as (-> & _).
    rewrite ports_setup_bundle.
    split; [reflexivity|]. split; [reflexivity|]. split; [exact Hin|].
    split; [exact Hout|]. split; [exact Hb|]. split; [exact Hbn|].
    apply setup_bundle_describes.
  - intros p Hne Hin Hnd Hnone. unfold IO.set_name.
    destruct (String.eqb_spec (IO._name io) requested) as [|_]; [contradiction|].
    assert (Hloop : forall l s0,
              In p l -> NoDup l -> Session.port_name s0 p = Session.port_name s p ->
              fold_left (IO.rename_port (IO._name io) (legalize_io_name requested)) l (Some s0)
              = None).
    { induction l as [|q l IH]; intros s0 Hp Hndl Hsame; [contradiction|].
      inversion Hndl as [|? ? Hq Hndl']; subst.
      cbn [fold_left]. unfold IO.rename_port at 2.
      destruct Hp as [->|Hp].
      - rewrite Hsame, Hnone.
        clear. induction l as [|x l IHl]; [reflexivity | exact IHl].
      - destruct (Str.find (IO._name io) (Session.port_name s0 q)).
        + apply IH; [exact Hp | exact Hndl'|].
          unfold Session.port_name. cbn.
          destruct (Nat.eqb_spec p q) as [->|_]; [contradiction | exact Hsame].
        + clear. induction l as [|x l IHl]; [reflexivity | exact IHl]. }
    now rewrite (Hloop _ s Hin Hnd eq_refl).
Qed.

(** ** Pretty names *)

Lemma pretty_loop (f : N -> string) : forall (l : list Port.ptr) (pn : N) (s : Session.t),
  NoDup l ->
  (pn + N.of_nat (length l) < 4294967296)%N ->
  let s' := snd (fold_left
                   (fun (acc : N * Session.t) p =>
                      let '(pn, s0) := acc in
                      (u32_incr pn,
                       Session.update_port p (fun o => Port.set_pretty_name o (f pn)) s0))
                   l (pn, s)) in
  (forall k p, nth_error l k = Some p ->
               Port.pretty_name (Session.port s' p) = f (pn + N.of_nat k)%N) /\
  (forall p, ~ In p l -> Session.port s' p = Session.port s p).
Proof.
  induction l as [|p l IH]; intros pn s Hnd Hsmall.
  - cbn. split; [intros [|k] q H; discriminate | reflexivity].
  - inversion Hnd as [|? ? Hnotin Hnd']; subst. cbn [length] in Hsmall.
    cbn [fold_left].
    assert (Hincr : u32_incr pn = (pn + 1)%N) by (apply u32_incr_small; lia).
    rewrite Hincr.
    specialize (IH (pn + 1)%N
                  (Session.update_port p (fun o => Port.set_pretty_name o (f pn)) s) Hnd').
    cbn zeta in IH. destruct IH as (Hin & Hout); [lia|].
    cbn zeta. split.
    + intros [|k] q Hq; cbn [nth_error] in Hq.
      * injection Hq as <-. rewrite (Hout p Hnotin). cbn. rewrite Nat.eqb_refl.
        cbn. f_equal. lia.
      * rewrite (Hin k q Hq). f_equal. lia.
    + intros q Hq. rewrite Hout by (intros H; apply Hq; now right).
      cbn. destruct (Nat.eqb_spec q p) as [->|_]; [exfalso; apply Hq; now left | reflexivity].
Qed.

(** X22.  [set_pretty_name] with the current prefix changes
    nothing, and with the empty prefix only stores it.  With another
    prefix, the [k]-th port of the IO, counted from 1 over all its
    ports, gets the pretty name [prefix/In k] ([prefix/Out k] on an
    output); names and connections of the ports stay, and nothing is
    emitted. *)
Theorem set_pretty_name_numbers_ports (str : string) (io : IO.t) (s : Session.t) :
  IO.set_pretty_name (IO._pretty_name_prefix io) io s = (io, s) /\
  (IO._pretty_name_prefix io <> "" ->
   IO.set_pretty_name "" io s = (IO.with_pretty_name_prefix io "", s)) /\
  (str <> "" ->
   str <> IO._pretty_name_prefix io ->
   NoDup (PortSet.all (IO.ports io)) ->
   (PortSet.num_ports (IO.ports io) < 4294967295)%N ->
   exists io' s',
     IO.set_pretty_name str io s = (io', s') /\
     IO._pretty_name_prefix io' = str /\
     IO.ports io' = IO.ports io /\
     (forall k p,
        nth_error (PortSet.all (IO.ports io)) k = Some p ->
        Port.pretty_name (Session.port s' p) = pretty_port_name str (IO._direction io) k) /\
     (forall p,
        Port.name (Session.port s' p) = Port.name (Session.port s p) /\
        Port.connections (Session.port s' p) = Port.connections (Session.port s p)) /\
     Session.trace s' = Session.trace s).
Proof.
  split; [|split].
  - unfold IO.set_pretty_name. now rewrite String.eqb_refl.
  - intros Hne. unfold IO.set_pretty_name.
    destruct (String.eqb_spec (IO._pretty_name_prefix io) "") as [|_]; [contradiction|].
    unfold IO.apply_pretty_name. reflexivity.
  - intros Hstr Hnew Hnd Hsmall. unfold IO.set_pretty_name.
    destruct (String.eqb_spec (IO._pretty_name_prefix io) str) as [E|_];
      [symmetry in E; contradiction|].
    eexists _, _. split; [reflexivity|]. split; [reflexivity|]. split; [reflexivity|].
    destruct (apply_pretty_name_kept (IO.with_pretty_name_prefix io str) s)
      as (Hkept & Htrace & _).
    split; [|split; [|exact Htrace]].
    + unfold IO.apply_pretty_name.
      cbn [IO._pretty_name_prefix IO.with_pretty_name_prefix].
      destruct (String.eqb_spec str "") as [|_]; [contradiction|].
      intros k p Hk.
      destruct (pretty_loop
                  (fun pn => (str ++ "/" ++
                     (if Direction_eqb (IO._direction io) Output then "Out" else "In")
                     ++ " " ++ fmt_u pn)%string)
                  (PortSet.all (IO.ports io)) 1%N s Hnd) as (Hin & _).
      { unfold PortSet.num_ports, ChanCount.n_total, PortSet.count, PortSet.all in *.
        cbn in Hsmall. rewrite length_app. lia. }
      cbn zeta in Hin. specialize (Hin k p Hk).
      unfold pretty_port_name. replace (N.of_nat (S k)) with (1 + N.of_nat k)%N by lia.
      exact Hin.
    + intros p. destruct (Hkept p) as (Hn & _ & Hc). split; assumption.
Qed.

(** ** The bundle and the private latencies *)

Lemma map_over_positions (A B : Type) (g : A -> B) (d : B) (l : list A) :
  map (fun j => match nth_error l j with Some p => g p | None => d end) (seq 0 (length l))
  = map g l.
Proof.
  induction l as [|a l IH]; [reflexivity|].
  cbn [length seq map nth_error]. f_equal.
  rewrite <- seq_shift, map_map. exact IH.
Qed.

Lemma map_nth_positions (A : Type) (d : A) (l : list A) :
  map (fun j => List.nth j l d) (seq 0 (length l)) = l.
Proof.
  induction l as [|a l IH]; [reflexivity|].
  cbn [length seq map List.nth]. f_equal.
  rewrite <- seq_shift, map_map. exact IH.
Qed.

Lemma channel_ports_of_type io s ty :
  ty <> DataType.NIL ->
  map Bundle.ch_ports (channels_of_type io s ty) =
  map (fun p => [Session.make_port_name_non_relative s (Session.port_name s p)])
      (PortSet.of_type (IO.ports io) ty).
Proof.
  intros Hty. unfold channels_of_type. rewrite count_of_type, Nat2N.id by assumption.
  rewrite map_map. cbn [channel_of_port Bundle.ch_ports]. unfold PortSet.port_of_type.
  apply (map_over_positions _ _
           (fun p => [Session.make_port_name_non_relative s (Session.port_name s p)]) []).
Qed.

Lemma channel_types_of_type io s ty :
  map Bundle.ch_type (channels_of_type io s ty) =
  repeat ty (length (channels_of_type io s ty)).
Proof.
  unfold channels_of_type. rewrite length_map, map_map. cbn [channel_of_port Bundle.ch_type].
  induction (seq 0 _) as [|j js IH]; [reflexivity|]. cbn. now rewrite IH.
Qed.

Lemma assigned_channel_names io s :
  length (IO._audio_channel_names io) = length (PortSet.audio (IO.ports io)) ->
  map Bundle.ch_name (channels_of_type io s DataType.AUDIO) = IO._audio_channel_names io.
Proof.
  intros Hlen. unfold channels_of_type.
  cbn [ChanCount.get PortSet.count ChanCount.n_audio].
  rewrite Nat2N.id, map_map. cbn [channel_of_port Bundle.ch_name].
  rewrite <- Hlen.
  etransitivity; [|apply (map_nth_positions _ "" (IO._audio_channel_names io))].
  apply map_ext_in. intros j Hj. apply in_seq in Hj.
  unfold IO.bundle_channel_name.
  rewrite N.eqb_refl.
  replace (N.of_nat j <? N.of_nat (length (IO._audio_channel_names io)))%N with true
    by (symmetry; apply N.ltb_lt; lia).
  cbn [andb]. now rewrite Nat2N.id.
Qed.

(** X23.  After [setup_bundle] the bundle is named after the IO and
    its direction, has one channel per port in the order of the ports,
    each of the type of its port and bound to the engine-qualified
    name of exactly that port, and the IO listens to exactly its
    ports; the audio channels carry the assigned channel names when
    there are as many of them as audio ports. *)
Theorem setup_bundle_binds_ports (io : IO.t) (s : Session.t) :
  exists b,
    IO._bundle (IO.setup_bundle io s) = Some b /\
    Bundle.name b =
      (IO._name io ++ " " ++
       (if Direction_eqb (IO._direction io) Input then "in" else "out"))%string /\
    map Bundle.ch_ports (Bundle.channel b) =
      map (fun p => [Session.make_port_name_non_relative s (Session.port_name s p)])
          (PortSet.all (IO.ports io)) /\
    map Bundle.ch_type (Bundle.channel b) =
      repeat DataType.AUDIO (length (PortSet.audio (IO.ports io))) ++
      repeat DataType.MIDI (length (PortSet.midi (IO.ports io))) /\
    (length (IO._audio_channel_names io) = length (PortSet.audio (IO.ports io)) ->
     firstn (length (PortSet.audio (IO.ports io))) (map Bundle.ch_name (Bundle.channel b))
     = IO._audio_channel_names io) /\
    IO._port_connections (IO.setup_bundle io s) = PortSet.all (IO.ports io).
Proof.
  destruct (bundle_of_setup io s) as (b & Hb & Hname & Hch).
  exists b. split; [exact Hb|]. split; [exact Hname|]. rewrite Hch.
  split; [|split; [|split]].
  - rewrite map_app, !channel_ports_of_type by discriminate.
    unfold PortSet.all. now rewrite map_app.
  - rewrite map_app, !channel_types_of_type, !channels_of_type_length. reflexivity.
  - intros Hlen. rewrite map_app, (assigned_channel_names io s Hlen).
    rewrite <- Hlen, firstn_app, firstn_all, Nat.sub_diag, firstn_O. apply app_nil_r.
  - unfold IO.setup_bundle. destruct (fold_left _ _ _). reflexivity.
Qed.

Lemma max_over_const (f : Port.ptr -> N) (v : N) (l : list Port.ptr) :
  l <> [] -> (forall p, In p l -> f p = v) -> max_over f l = v.
Proof.
  unfold max_over. induction l as [|p l IH]; [congruence|]. intros _ Hall.
  cbn [fold_right]. rewrite (Hall p (or_introl eq_refl)).
  destruct l as [|q l]; [cbn; lia|].
  rewrite IH; [lia | discriminate | intros x Hx; apply Hall; now right].
Qed.

Lemma private_latency_loop (v : N) (pb : bool) : forall (l : list Port.ptr) (s : Session.t),
  let s' := fold_left
              (fun acc p =>
                 Session.update_port p
                   (fun o => Port.set_private_latency_range o v pb) acc) l s in
  (forall p, In p l -> Port.private_latency_max (Session.port s' p) pb = v) /\
  (forall p, Port.private_latency_max (Session.port s' p) (negb pb)
             = Port.private_latency_max (Session.port s p) (negb pb)) /\
  (forall p, ~ In p l -> Session.port s' p = Session.port s p) /\
  (forall p, Port.connections (Session.port s' p) = Port.connections (Session.port s p)) /\
  Session.trace s' = Session.trace s.
Proof.
  induction l as [|q l IH]; intros s; cbn [fold_left].
  - cbn. repeat split; intros; contradiction.
  - specialize (IH (Session.update_port q
                      (fun o => Port.set_private_latency_range o v pb) s)).
    cbn zeta in IH. destruct IH as (Hin & Hoth & Hout & Hconn & Ht). cbn zeta.
    split; [|split; [|split; [|split]]].
    + intros p [<-|Hp]; [|now apply Hin].
      destruct (in_dec Nat.eq_dec q l) as [Hq|Hq]; [now apply Hin|].
      rewrite (Hout q Hq). cbn. rewrite Nat.eqb_refl. cbn. now rewrite eqb_reflx.
    + intros p. rewrite Hoth. cbn. destruct (Nat.eqb p q); [|reflexivity].
      cbn. now destruct pb.
    + intros p Hp. rewrite Hout by (intros H; apply Hp; now right).
      cbn. destruct (Nat.eqb_spec p q) as [->|_]; [exfalso; apply Hp; now left | reflexivity].
    + intros p. rewrite Hconn. cbn. destruct (Nat.eqb p q); reflexivity.
    + rewrite Ht. reflexivity.
Qed.

Lemma any_connected_ext (s s' : Session.t) (l : list Port.ptr) :
  (forall p, Port.connections (Session.port s' p) = Port.connections (Session.port s p)) ->
  any_connected s' l = any_connected s l.
Proof.
  intros H. unfold any_connected. induction l as [|q l IH]; [reflexivity|].
  cbn [existsb]. rewrite IH. unfold Port.connected. now rewrite H.
Qed.

(** X24.  [set_private_port_latencies (value, playback)] with a
    value that fits 32 bits gives every port of the IO that private
    latency on that side and leaves the other side alone; on the IO's
    own side [latency ()] is then [value] for an IO with ports, and so
    is the connected latency of an IO that is not connected. *)
Theorem set_private_port_latencies_sets_latency (value : Z) (playback : bool)
    (io : IO.t) (s : Session.t) :
  (0 <= value < 4294967296)%Z ->
  (forall p, In p (PortSet.all (IO.ports io)) ->
     Z.of_N (Port.private_latency_max
               (Session.port (IO.set_private_port_latencies value playback io s) p) playback)
     = value) /\
  (forall p,
     Port.private_latency_max
       (Session.port (IO.set_private_port_latencies value playback io s) p) (negb playback)
     = Port.private_latency_max (Session.port s p) (negb playback)) /\
  Session.trace (IO.set_private_port_latencies value playback io s) = Session.trace s /\
  (PortSet.all (IO.ports io) <> [] ->
   playback = Direction_eqb (IO._direction io) Output ->
   IO.latency io (IO.set_private_port_latencies value playback io s) = value) /\
  (PortSet.all (IO.ports io) <> [] ->
   IO.connected io s = false ->
   IO.connected_latency playback io (IO.set_private_port_latencies value playback io s)
   = value).
Proof.
  intros Hv. unfold IO.set_private_port_latencies.
  rewrite Z.mod_small by exact Hv.
  destruct (private_latency_loop (Z.to_N value) playback (PortSet.all (IO.ports io)) s)
    as (Hin & Hoth & _ & Hconn & Ht).
  set (s' := fold_left _ _ _) in *.
  assert (Hmax : PortSet.all (IO.ports io) <> [] ->
                 Z.of_N (max_over (fun p => Port.private_latency_max (Session.port s' p) playback)
                                  (PortSet.all (IO.ports io))) = value).
  { intros Hne. rewrite (max_over_const _ (Z.to_N value)); [lia | exact Hne | exact Hin]. }
  split; [intros p Hp; rewrite (Hin p Hp); lia|].
  split; [exact Hoth|]. split; [exact Ht|]. split.
  - intros Hne ->. rewrite latency_is_max. now apply Hmax.
  - intros Hne Hnc. unfold IO.connected in Hnc. rewrite any_port_connected_existsb in Hnc.
    assert (Hnc' : any_connected s' (PortSet.all (IO.ports io)) = false).
    { rewrite <- Hnc. now apply any_connected_ext. }
    unfold IO.connected_latency.
    rewrite private_scan_unconnected by (lia || exact Hnc').
    rewrite Hmax by exact Hne. lia.
Qed.

(** ** set_ports *)

Lemma connect_keeps_io our_port other src io s :
  snd (fst (IO.connect our_port other src io s)) = io.
Proof.
  unfold IO.connect.
  destruct ((String.length other =? 0)%nat || IO.is_null our_port); [reflexivity|].
  destruct our_port as [p|]; [|reflexivity].
  destruct (negb (PortSet.contains (IO.ports io) p)); [reflexivity|].
  destruct (Session.port_connect p other s) as [r s1].
  destruct (negb (r =? 0)%Z); reflexivity.
Qed.

Lemma connect_port_nth_keeps_io i names : forall io s,
  fst (fold_left (IO.connect_port_nth i) names (io, s)) = io.
Proof.
  induction names as [|x names IH]; intros io s; [reflexivity|].
  cbn [fold_left]. unfold IO.connect_port_nth at 2.
  pose proof (connect_keeps_io (IO.nth io i) x (IO.this io) io s) as Hk.
  destruct (IO.connect (IO.nth io i) x (IO.this io) io s) as [[r io1] s1].
  cbn [fst snd] in Hk. subst io1. apply IH.
Qed.

Lemma set_ports_groups_keeps_io str : forall fuel ostart i ports io s,
  snd (fst (IO.set_ports_groups fuel str ostart i ports io s)) = io /\
  (fst (fst (IO.set_ports_groups fuel str ostart i ports io s)) = 0%Z \/
   fst (fst (IO.set_ports_groups fuel str ostart i ports io s)) = (-1)%Z).
Proof.
  induction fuel as [|fuel IH]; intros ostart i ports io s; cbn [IO.set_ports_groups].
  - split; [reflexivity | now left].
  - destruct (Str.find_char_from "{" ostart str) as [start0|]; [|split; [reflexivity | now left]].
    destruct (Str.find_char_from "}" (start0 + 1) str) as [end_|];
      [|split; [reflexivity | now right]].
    destruct (IO.parse_io_string _ ports) as [n ports1].
    destruct (n <? 0)%Z; [split; [reflexivity | now right]|].
    destruct (n >? 0)%Z.
    + pose proof (connect_port_nth_keeps_io i ports1 io s) as Hk.
      destruct (fold_left (IO.connect_port_nth i) ports1 (io, s)) as [io1 s1].
      cbn [fst] in Hk. subst io1. apply IH.
    + apply IH.
Qed.

Lemma count_char_lacks c (x : string) : Str.count_char c x = 0%N <-> lacks c x = true.
Proof.
  induction x as [|a x IH]; cbn [Str.count_char lacks]; [tauto|].
  destruct (Ascii.eqb a c); cbn [negb andb].
  - split; [lia | discriminate].
  - rewrite N.add_0_l. exact IH.
Qed.

(** X25.  [set_ports] does nothing and returns 0 for a string
    without an opening brace.  Otherwise, with a granting backend, it
    returns 0 or -1 and leaves the IO with as many audio ports as the
    string has opening braces and with no MIDI port; it returns -1 for
    a string without a closing brace. *)
Theorem set_ports_makes_audio_ports (str : string) (io : IO.t) (s : Session.t) :
  (lacks "{" str = true -> IO.set_ports str io s = Some (0%Z, io, s)) /\
  (lacks "{" str = false ->
   (Str.count_char "{" str < 4294967296)%N ->
   grants_all s ->
   ports_wf (IO.ports io) s ->
   exists r io' s',
     IO.set_ports str io s = Some (r, io', s') /\
     (r = 0%Z \/ r = (-1)%Z) /\
     IO.n_ports io' = ChanCount.mk (Str.count_char "{" str) 0 /\
     (lacks "}" str = true -> r = (-1)%Z)).
Proof.
  unfold IO.set_ports. split.
  - intros Hl. apply count_char_lacks in Hl. rewrite Hl. reflexivity.
  - intros Hl Hsmall Hg Hwf.
    assert (Hpos : Str.count_char "{" str <> 0%N).
    { intros H. apply count_char_lacks in H. congruence. }
    rewrite N.mod_small by exact Hsmall.
    destruct (N.eqb_spec (Str.count_char "{" str) 0) as [|_]; [contradiction|].
    destruct (ensure_ports_spec (ChanCount.mk (Str.count_char "{" str) 0) true (IO.this io)
                io s Hg Hwf) as (io1 & s1 & Hens & Hcount & _).
    rewrite Hens. cbn [Z.eqb negb].
    destruct (set_ports_groups_keeps_io str (S (String.length str)) 0 0 [] io1 s1)
      as (Hio & Hr).
    destruct (IO.set_ports_groups _ str 0 0 [] io1 s1) as [[r io2] s2] eqn:Hloop.
    cbn [fst snd] in Hio, Hr. subst io2.
    exists r, io1, s2. split; [reflexivity|]. split; [exact Hr|].
    split; [exact Hcount|].
    intros Hclose. cbn [IO.set_ports_groups] in Hloop.
    destruct (lacks_false_split _ _ Hl) as (pre & rest & Hstr & Hpre).
    assert (Hfind : Str.find_char_from "{" 0 str = Some (String.length pre)).
    { rewrite Hstr. now apply find_char_first. }
    rewrite Hfind, (find_char_lacks "}" str _ Hclose) in Hloop.
    now injection Hloop as <- _.
Qed.

(** ** Delivering buffers *)

Lemma last_default (B : Type) (l : list B) (d d' : B) : l <> [] -> last l d = last l d'.
Proof.
  induction l as [|a l IH]; [congruence|]. intros _.
  destruct l as [|b l]; [reflexivity|]. cbn [last] in *. apply IH. discriminate.
Qed.

Lemma copy_buffers_spec (B : Type) : forall (i : list B) (o : list Port.ptr) (prev : B),
  map fst (IO.copy_buffers i o prev) = o /\
  (forall k p, nth_error o k = Some p ->
     nth_error (IO.copy_buffers i o prev) k =
     Some (p, match nth_error i k with
              | Some b => b
              | None => last i prev
              end)).
Proof.
  induction i as [|b i IH]; intros o prev.
  - assert (H : IO.copy_buffers [] o prev = map (fun p => (p, prev)) o) by now destruct o.
    rewrite H. split.
    + rewrite map_map. cbn. apply map_id.
    + intros k p Hk. rewrite nth_error_nil. cbn [last].
      now apply (map_nth_error (fun p => (p, prev))).
  - destruct o as [|q o]; cbn [IO.copy_buffers map].
    + split; [reflexivity | intros [|k] p Hk; discriminate].
    + destruct (IH o b) as (Hfst & Hnth). split.
      * cbn [fst]. now rewrite Hfst.
      * intros [|k] p Hk; cbn [nth_error] in *.
        -- now injection Hk as <-.
        -- rewrite (Hnth k p Hk). destruct (nth_error i k); [reflexivity|].
           destruct i as [|b0 i]; [reflexivity|].
           f_equal. f_equal.
           change (last (b :: b0 :: i) prev) with (last (b0 :: i) prev).
           apply last_default. discriminate.
Qed.

(** X26.  [copy_to_outputs] fails its assertion without a buffer
    of the type; otherwise it reads into every port of the type once,
    in order: into port [k] from buffer [k] when there is one, and from
    the last buffer otherwise. *)
Theorem copy_to_outputs_repeats_the_last_buffer (B : Type) (bufs : list B)
    (type : DataType.t) (io : IO.t) (d : B) :
  (bufs = [] -> IO.copy_to_outputs bufs type io = None) /\
  (bufs <> [] ->
   exists reads,
     IO.copy_to_outputs bufs type io = Some reads /\
     map fst reads = PortSet.of_type (IO.ports io) type /\
     forall k p,
       nth_error (PortSet.of_type (IO.ports io) type) k = Some p ->
       nth_error reads k = Some (p, List.nth (Nat.min k (length bufs - 1)) bufs d)).
Proof.
  split; [intros ->; reflexivity|].
  intros Hne. destruct bufs as [|first rest]; [congruence|].
  unfold IO.copy_to_outputs. eexists. split; [reflexivity|].
  destruct (copy_buffers_spec B (first :: rest) (PortSet.of_type (IO.ports io) type) first)
    as (Hfst & Hnth).
  split; [exact Hfst|].
  intros k p Hk. rewrite (Hnth k p Hk). f_equal. f_equal.
  cbn [length]. rewrite Nat.sub_succ, Nat.sub_0_r.
  destruct (Nat.lt_ge_cases k (S (length rest))) as [Hlt|Hge].
  - rewrite Nat.min_l by lia.
    destruct (nth_error (first :: rest) k) as [b|] eqn:E.
    + symmetry. now apply nth_error_nth.
    + apply nth_error_None in E. cbn [length] in E. lia.
  - rewrite Nat.min_r by lia.
    replace (nth_error (first :: rest) k) with (@None B)
      by (symmetry; apply nth_error_None; cbn [length]; lia).
    clear. revert first. induction rest as [|r rest IH]; intros first; [reflexivity|].
    cbn [length]. change (List.nth (S (length rest)) (first :: r :: rest) d)
      with (List.nth (length rest) (r :: rest) d).
    rewrite <- IH. change (last (first :: r :: rest) first) with (last (r :: rest) first).
    apply last_default. discriminate.
Qed.

Lemma copy_to_outputs_repeats_the_last_buffer_witness :
  IO.copy_to_outputs ["left"; "right"] DataType.AUDIO
    (IO.mk 5 "Bus" "47" Output DataType.AUDIO true false
           (RCU.mk (PortSet.mk [0; 1; 2; 3] []) []) [] None [] "" [] [])
  = Some [(0, "left"); (1, "right"); (2, "right"); (3, "right")].
Proof.
  destruct (proj2 (copy_to_outputs_repeats_the_last_buffer string ["left"; "right"]
                     DataType.AUDIO
                     (IO.mk 5 "Bus" "47" Output DataType.AUDIO true false
                        (RCU.mk (PortSet.mk [0; 1; 2; 3] []) []) [] None [] "" [] [])
                     "") ltac:(discriminate))
    as (reads & Hcall & _).
  rewrite Hcall. vm_compute in Hcall. now injection Hcall as <-.
Defined.

(** ** Further witnesses on concrete IOs *)

Lemma no_objection_without_observers io : IO.PortCountChanging io = [] -> no_objection io.
Proof. intros H slot c Hin. rewrite H in Hin. contradiction. Qed.

Lemma remove_port_of_own_port_witness :
  exists io' s',
    IO.remove_port 1 0 Example.stereo_io Example.stereo_session = (0%Z, io', s') /\
    (PortSet.num_ports (IO.ports io') + 1 = 2)%N /\
    Session.dirty s' = true.
Proof.
  destruct (remove_port_of_own_port 1 0 Example.stereo_io Example.stereo_session)
    as (io' & s' & Hcall & _ & Hnum & _ & Hdirty & _).
  - now apply no_objection_without_observers.
  - reflexivity.
  - exists io', s'. split; [exact Hcall|]. split; [exact Hnum | exact Hdirty].
Defined.

Lemma remove_port_of_foreign_port_witness :
  exists io' s',
    IO.remove_port 7 0 Example.stereo_io Example.stereo_session = ((-1)%Z, io', s') /\
    IO.ports io' = IO.ports Example.stereo_io /\
    Session.trace s' =
      Session.trace Example.stereo_session ++
      [EvUnregister 7; EvPortCountChanged (ChanCount.mk 2 0)].
Proof.
  destruct (remove_port_of_foreign_port 7 0 Example.stereo_io Example.stereo_session)
    as (io' & s' & Hcall & Hports & _ & Htrace & _).
  - now apply no_objection_without_observers.
  - reflexivity.
  - exists io', s'. split; [exact Hcall|]. split; [exact Hports | exact Htrace].
Defined.

Lemma add_port_adds_one_port_witness :
  exists io' s',
    IO.add_port "" 0 DataType.NIL Example.stereo_io Example.stereo_session
      = Some (0%Z, io', s') /\
    IO.n_ports io' = ChanCount.mk 3 0 /\
    Port.name (Session.port s' 2) = "Audio 1/audio_in 3".
Proof.
  destruct (add_port_adds_one_port "" 0 DataType.NIL Example.stereo_io
              Example.stereo_session)
    as (portname & io' & s' & Hname & Hcall & _ & Hcount & Hpn & _).
  - intros ty nm. reflexivity.
  - now apply no_objection_without_observers.
  - reflexivity.
  - now left.
  - exists io', s'. split; [exact Hcall|]. split; [exact Hcount|].
    change (Session.next_port Example.stereo_session) with 2 in Hpn.
    rewrite Hpn. vm_compute in Hname. now injection Hname as <-.
Defined.

Lemma add_port_refused_by_backend_witness :
  exists io' s',
    IO.add_port "" 0 DataType.AUDIO Example.io occupied_session = Some ((-1)%Z, io', s') /\
    IO.ports io' = IO.ports Example.io /\
    Session.next_port s' = Session.next_port occupied_session.
Proof.
  destruct (add_port_refused_by_backend "" 0 DataType.AUDIO Example.io occupied_session
              "Audio 1/audio_in 1")
    as (io' & s' & Hcall & Hports & _ & _ & Hnext & _).
  - now apply no_objection_without_observers.
  - reflexivity.
  - reflexivity.
  - reflexivity.
  - exists io', s'. split; [exact Hcall|]. split; [exact Hports | exact Hnext].
Defined.

Lemma add_port_keeps_port_when_connect_fails_witness :
  exists io' s',
    IO.add_port "system:capture_1" 0 DataType.AUDIO Example.io unconnectable_session
      = Some ((-1)%Z, io', s') /\
    IO.ports io' = PortSet.mk [0] [] /\
    IO._bundle io' = IO._bundle Example.io.
Proof.
  destruct (add_port_keeps_port_when_connect_fails "system:capture_1" 0 DataType.AUDIO
              Example.io unconnectable_session "Audio 1/audio_in 1")
    as (io' & s' & Hcall & Hports & Hbundle & _).
  - intros ty nm. reflexivity.
  - now apply no_objection_without_observers.
  - reflexivity.
  - reflexivity.
  - discriminate.
  - reflexivity.
  - exists io', s'. split; [exact Hcall|]. split; [exact Hports | exact Hbundle].
Defined.

Lemma positive_answer_vetoes_mutation_witness :
  IO.add_port "" 0 DataType.AUDIO (vetoing Example.stereo_io) Example.stereo_session
    = Some ((-1)%Z, vetoing Example.stereo_io, Example.stereo_session) /\
  IO.remove_port 1 0 (vetoing Example.stereo_io) Example.stereo_session
    = ((-1)%Z, vetoing Example.stereo_io, Example.stereo_session).
Proof.
  apply (proj2 (positive_answer_vetoes_mutation "" 0 DataType.AUDIO 1
                  (vetoing Example.stereo_io) Example.stereo_session)).
  exists (fun _ => 1%Z). split; [now left | intros after; lia].
Defined.

Lemma ensure_ports_failure_is_silent_witness :
  exists io' s',
    IO.ensure_ports (ChanCount.mk 2 0) false 0 Example.io occupied_session
      = Some ((-1)%Z, io', s') /\
    only_engine_events occupied_session s' /\
    IO._bundle io' = IO._bundle Example.io.
Proof.
  destruct (ensure_ports_failure_is_silent (ChanCount.mk 2 0) false 0
              Example.io occupied_session) as [Hreturns Hsilent].
  destruct Hreturns as (r & io' & s' & Hcall).
  - intros ty nm. unfold occupied_session. cbn [Session.backend_register].
    destruct (existsb (String.eqb nm) _); discriminate.
  - split; [repeat constructor | constructor].
  - assert (Hr : r = (-1)%Z).
    { pose proof Hcall as H. vm_compute in H. now injection H as <- _ _. }
    destruct (Hsilent _ _ _ Hcall) as [H0 | (_ & Hquiet & Hbundle & _)]; [lia|].
    exists io', s'. rewrite Hr in Hcall.
    split; [exact Hcall|]. split; [exact Hquiet | exact Hbundle].
Defined.

Lemma ensure_ports_keeps_leading_ports_witness :
  exists io' s',
    IO.ensure_ports (ChanCount.mk 1 1) false 0 Example.stereo_io Example.stereo_session
      = Some (0%Z, io', s') /\
    leading_ports_kept 1 DataType.AUDIO (IO.ports Example.stereo_io) (IO.ports io')
                       Example.stereo_session /\
    leading_ports_kept 1 DataType.MIDI (IO.ports Example.stereo_io) (IO.ports io')
                       Example.stereo_session.
Proof.
  apply (ensure_ports_keeps_leading_ports (ChanCount.mk 1 1) false 0
           Example.stereo_io Example.stereo_session).
  - intros ty nm. reflexivity.
  - split; [repeat constructor; simpl; intuition discriminate | repeat constructor].
Defined.

Lemma connect_reports_the_backend_witness :
  exists s',
    IO.connect (Some 0) "system:capture_1" 0 Example.stereo_io Example.stereo_session
      = (0%Z, Example.stereo_io, s') /\
    In "system:capture_1" (Port.connections (Session.port s' 0)) /\
    Session.dirty s' = true.
Proof.
  destruct (proj1 (connect_reports_the_backend 0 "system:capture_1" 0
                     Example.stereo_io Example.stereo_session
                     ltac:(discriminate) eq_refl) eq_refl)
    as (s' & Hcall & Hin & _ & Hdirty).
  exists s'. split; [exact Hcall|]. split; [exact Hin | exact Hdirty].
Defined.


Lemma get_port_counts_2X_needs_a_child_witness :
  IO.get_port_counts_2X Example.io Example.legacy_node ChanCount.ZERO
    = (0%Z, ChanCount.mk 2 0) /\
  IO.get_port_counts_2X Example.io
    (XML.Node "IO" [("inputs", "{p1},{p2,p3}")] []) (ChanCount.mk 1 1)
    = (0%Z, ChanCount.mk 1 1).
Proof.
  split.
  - apply (proj2 (get_port_counts_2X_needs_a_child Example.io Example.legacy_node
                    ChanCount.ZERO)).
    discriminate.
  - apply (proj1 (get_port_counts_2X_needs_a_child Example.io
                    (XML.Node "IO" [("inputs", "{p1},{p2,p3}")] []) (ChanCount.mk 1 1))).
    reflexivity.
Defined.

Lemma create_ports_only_adds_ports_witness :
  (exists r io' s',
     IO.create_ports bundle_node 7000 Example.stereo_io bundled_session
       = Some (r, io', s') /\
     (r = 0%Z \/ r = (-1)%Z) /\
     ports_extended (IO.ports Example.stereo_io) (IO.ports io')) /\
  IO.get_port_counts Example.stereo_io bundled_session
    (XML.Node "IO" [("connection", "12")] []) 7000 ChanCount.ZERO = None.
Proof.
  destruct (create_ports_only_adds_ports bundle_node 7000 Example.stereo_io
              bundled_session ChanCount.ZERO ltac:(lia)) as [Hgood _].
  destruct (create_ports_only_adds_ports (XML.Node "IO" [("connection", "12")] []) 7000
              Example.stereo_io bundled_session ChanCount.ZERO ltac:(lia)) as [_ Hbad].
  split.
  - apply Hgood.
    + split.
      * intros v Hv. discriminate.
      * constructor; [|constructor]. intros _. exists "in 5".
        split; [reflexivity|]. right. reflexivity.
    + intros ty nm. discriminate.
  - apply (Hbad "12"); reflexivity.
Defined.

(** The search on [bundle_node]: "in 5" is unknown, its number wraps
    to 1, and "in 1" with its four channels is taken; the message
    about the replacement names no bundle. *)
Example bundle_search_trace :
  option_map (fun r => (fst (fst r), snd (fst r), Session.trace (snd r)))
             (IO.get_port_counts Example.stereo_io bundled_session bundle_node 7000
                                 ChanCount.ZERO)
  = Some (0%Z, ChanCount.mk 4 0,
          [EvError ("Unknown bundle " ++ IO.dquote ++ "in 5" ++ IO.dquote
                    ++ " listed for input of Audio 1");
           EvInfo ("Bundle in 5 was not available - " ++ IO.dquote ++ IO.dquote
                   ++ " used instead")]).
Proof. vm_compute. reflexivity. Qed.

Lemma state_round_trip_identity_witness :
  exists io' s'',
    IO.create_from_state 9 "45" occupied_session
      (IO.state Example.stereo_io Example.stereo_session) DataType.MIDI false 7000
    = Some (io', s'') /\
    IO._name io' = "Audio 1" /\ IO.id io' = "42" /\
    IO._direction io' = Input /\ IO._default_type io' = DataType.AUDIO.
Proof.
  destruct (state_round_trip_identity Example.stereo_io Example.stereo_session 9 "45"
              occupied_session DataType.MIDI false 7000)
    as (io' & s'' & Hcall & Hname & Hid & Hdir & Hty & _).
  - lia.
  - discriminate.
  - intros ty nm. unfold occupied_session. cbn [Session.backend_register].
    destruct (existsb (String.eqb nm) _); discriminate.
  - exists io', s''. split; [exact Hcall|]. repeat split; assumption.
Defined.

Lemma built_port_names_have_no_colon_witness :
  exists name,
    IO.build_legal_port_name (IO.with_name send_io "Bus:1") Example.session
      (IO.ports send_io) DataType.MIDI = Some name /\
    lacks ":" name = true.
Proof.
  apply (built_port_names_have_no_colon (IO.with_name send_io "Bus:1") Example.session
           (IO.ports send_io) DataType.MIDI).
  discriminate.
Defined.

Lemma io_name_never_has_a_colon_witness :
  IO._name send_io = "Bus-1" /\
  exists r io' s',
    IO.set_name "Bus:2" send_io Example.session = Some (r, io', s') /\
    lacks ":" (IO._name io') = true.
Proof.
  split; [reflexivity|].
  destruct (IO.set_name "Bus:2" send_io Example.session) as [[[r io'] s']|] eqn:Hcall.
  - exists r, io', s'. split; [reflexivity|].
    apply (proj2 (proj2 (proj2 (io_name_never_has_a_colon 4 "46" "Bus:1" "Bus:2" Output
                                  DataType.MIDI true send_io Example.session)))
             r io' s'); [reflexivity | exact Hcall].
  - vm_compute in Hcall. discriminate.
Defined.

Lemma prepare_for_reset_renames_ports_witness :
  IO.prepare_for_reset template_node "Bus" =
  XML.Node "IO" [("name", "Bus"); ("direction", "Input")]
           [XML.Node "Port" [("type", "audio"); ("name", "Bus/audio_in 1")] [];
            XML.Node "Port" [("type", "audio"); ("name", "click")] [];
            XML.Node "Panner" [] []] /\
  IO.prepare_for_reset (IO.prepare_for_reset template_node "Bus") "Bus"
  = IO.prepare_for_reset template_node "Bus".
Proof.
  split; [reflexivity|].
  apply (proj2 (proj2 (proj2 (proj2 (prepare_for_reset_renames_ports template_node "Bus"))))).
  reflexivity.
Defined.

Lemma set_name_in_state_renames_ports_witness :
  IO.set_name_in_state template_node "Bus" =
  Some (XML.Node "IO" [("name", "Bus"); ("direction", "Input")]
          [XML.Node "Port" [("type", "audio"); ("name", "Bus/audio_in 1")] [];
           XML.Node "Port" [("type", "audio"); ("name", "Bus/click")] [];
           XML.Node "Panner" [] []]) /\
  IO.set_name_in_state (IO.state Example.stereo_io Example.stereo_session) "Bus" =
  Some (IO.prepare_for_reset (IO.state Example.stereo_io Example.stereo_session) "Bus").
Proof.
  split; [reflexivity|].
  apply (proj2 (proj2 (proj2 (set_name_in_state_renames_ports
                                (IO.state Example.stereo_io Example.stereo_session) "Bus")))).
  repeat constructor; intros _; eexists; (split; [reflexivity | reflexivity]).
Defined.

Lemma set_name_renames_ports_witness :
  exists io' s',
    IO.set_name "Bus:2" Example.stereo_io Example.stereo_session = Some (true, io', s') /\
    IO._name io' = "Bus-2" /\
    Session.port_name s' 0 = "Bus-2/audio_in 1" /\
    Session.port_name s' 1 = "Bus-2/audio_in 2".
Proof.
  destruct (proj1 (proj2 (set_name_renames_ports "Bus:2" Example.stereo_io
                            Example.stereo_session)))
    as (io' & s' & b & Hcall & Hname & _ & Hports & _).
  - discriminate.
  - repeat constructor; simpl; intuition discriminate.
  - intros p [<-|[<-|[]]]; eexists; reflexivity.
  - exists io', s'. split; [exact Hcall|]. split; [exact Hname|]. split.
    + apply (Hports 0 "/audio_in 1"); [now left | reflexivity].
    + apply (Hports 1 "/audio_in 2"); [right; now left | reflexivity].
Defined.

Lemma set_pretty_name_numbers_ports_witness :
  exists io' s',
    IO.set_pretty_name "Guitar" Example.stereo_io Example.stereo_session = (io', s') /\
    Port.pretty_name (Session.port s' 0) = "Guitar/In 1" /\
    Port.pretty_name (Session.port s' 1) = "Guitar/In 2".
Proof.
  destruct (proj2 (proj2 (set_pretty_name_numbers_ports "Guitar" Example.stereo_io
                            Example.stereo_session)))
    as (io' & s' & Hcall & _ & _ & Hpretty & _).
  - discriminate.
  - discriminate.
  - repeat constructor; simpl; intuition discriminate.
  - reflexivity.
  - exists io', s'. split; [exact Hcall|]. split.
    + apply (Hpretty 0 0). reflexivity.
    + apply (Hpretty 1 1). reflexivity.
Defined.

Lemma set_private_port_latencies_sets_latency_witness :
  IO.latency Example.stereo_io
    (IO.set_private_port_latencies 256 false Example.stereo_io Example.stereo_session)
  = 256%Z.
Proof.
  apply (proj1 (proj2 (proj2 (proj2
           (set_private_port_latencies_sets_latency 256 false Example.stereo_io
              Example.stereo_session ltac:(lia)))))).
  - discriminate.
  - reflexivity.
Defined.

Lemma set_ports_makes_audio_ports_witness :
  exists r io' s',
    IO.set_ports "{p1},{p2,p3}" Example.with_midi_io Example.with_midi_session
      = Some (r, io', s') /\
    IO.n_ports io' = ChanCount.mk 2 0.
Proof.
  destruct (proj2 (set_ports_makes_audio_ports "{p1},{p2,p3}" Example.with_midi_io
                     Example.with_midi_session))
    as (r & io' & s' & Hcall & _ & Hcount & _).
  - reflexivity.
  - reflexivity.
  - intros ty nm. reflexivity.
  - split; [repeat constructor; simpl; intuition discriminate | repeat constructor].
  - exists r, io', s'. split; [exact Hcall | exact Hcount].
Defined.

Lemma setup_bundle_binds_ports_witness :
  exists b,
    IO._bundle (IO.setup_bundle Example.stereo_io Example.stereo_session) = Some b /\
    Bundle.name b = "Audio 1 in" /\
    map Bundle.ch_ports (Bundle.channel b)
      = [["ardour:Audio 1/audio_in 1"]; ["ardour:Audio 1/audio_in 2"]].
Proof.
  destruct (setup_bundle_binds_ports Example.stereo_io Example.stereo_session)
    as (b & Hb & Hname & Hports & _).
  exists b. split; [exact Hb|]. split; [exact Hname | exact Hports].
Defined.
